(** * The completions endpoint of the OpenAI client (completions.go)

    A shallow embedding of [CompletionRequest], [CompletionChoice],
    [LogprobResult], [CompletionResponse], [CreateCompletion] and
    [CreateFineTunedCompletion], together with the part of Go's
    [encoding/json] that the struct tags of these types drive. *)

From Stdlib Require Import ZArith String Ascii List Bool Lia SpecFloat.
From Stdlib Require Import Decimal DecimalString DecimalZ DecimalPos DecimalN.
From stdpp Require Import base option list gmap strings sorting.

#[local] Open Scope string_scope.
#[local] Open Scope Z_scope.
#[local] Set Warnings "-register-all".

(** ** Bytes

    A Go string is a sequence of bytes; it is a [string] here, one [ascii]
    per byte. *)

Module Bytes.

Definition byte_val (c : ascii) : Z := Z.of_N (N_of_ascii c).

Definition byte_of (z : Z) : ascii := ascii_of_N (Z.to_N z).

Definition between (lo hi : Z) (c : ascii) : bool :=
  (lo <=? byte_val c) && (byte_val c <=? hi).

Definition quote : ascii := byte_of 34.

Definition backslash : ascii := byte_of 92.

(** Splits a string at its first byte that is no digit. *)
Fixpoint span_digits (s : string) : string * string :=
  match s with
  | String c r =>
    if between 48 57 c then let '(d, rest) := span_digits r in (String c d, rest)
    else (EmptyString, s)
  | EmptyString => (EmptyString, EmptyString)
  end.

(** [s[n:]], empty when [n] is past the end. *)
Fixpoint sdrop (n : nat) (s : string) : string :=
  match n, s with
  | S n', String _ r => sdrop n' r
  | _, _ => s
  end.

End Bytes.

(** ** unicode/utf8 *)

Module UTF8.
Import Bytes.

(** A continuation byte, 0x80..0xBF. *)
Definition cont (c : ascii) : bool := between 128 191 c.

(** [runeLen s] is the width that [utf8.DecodeRuneInString s] reports when the
    string starts with a well-formed encoding, and 0 when it reports
    [(RuneError, 1)] or the string is empty.  The accepted ranges are those of
    the table [acceptRanges] of the package: no overlong form, no surrogate,
    nothing above U+10FFFF. *)
Definition runeLen (s : string) : nat :=
  match s with
  | EmptyString => 0%nat
  | String c0 r0 =>
    if byte_val c0 <? 128 then 1%nat
    else if between 194 223 c0 then
      match r0 with
      | String c1 _ => if cont c1 then 2%nat else 0%nat
      | _ => 0%nat
      end
    else if between 224 239 c0 then
      match r0 with
      | String c1 (String c2 _) =>
        let lo := if byte_val c0 =? 224 then 160 else 128 in
        let hi := if byte_val c0 =? 237 then 159 else 191 in
        if between lo hi c1 && cont c2 then 3%nat else 0%nat
      | _ => 0%nat
      end
    else if between 240 244 c0 then
      match r0 with
      | String c1 (String c2 (String c3 _)) =>
        let lo := if byte_val c0 =? 240 then 144 else 128 in
        let hi := if byte_val c0 =? 244 then 143 else 191 in
        if between lo hi c1 && cont c2 && cont c3 then 4%nat else 0%nat
      | _ => 0%nat
      end
    else 0%nat
  end.

#[global] Arguments runeLen : simpl never.

(** The encoding of U+FFFD, the replacement rune. *)
Definition replacement : string :=
  String (byte_of 239) (String (byte_of 191) (String (byte_of 189) EmptyString)).

(** [coerce k s]: the bytes of [s] with every byte that does not start (or
    belong to) a well-formed encoding replaced by U+FFFD; the first [k] bytes
    are the tail of an encoding already accepted.  This is what the encoder's
    string writer and the decoder's [unquote] do to ill-formed input. *)
Fixpoint coerce (k : nat) (s : string) : string :=
  match s with
  | EmptyString => EmptyString
  | String c rest =>
    match k with
    | S k' => String c (coerce k' rest)
    | O =>
      match runeLen s with
      | O => replacement +:+ coerce 0 rest
      | S n => String c (coerce n rest)
      end
    end
  end.

Definition toValidUTF8 (s : string) : string := coerce 0 s.

(** [utf8.ValidString]. *)
Fixpoint valid_from (k : nat) (s : string) : bool :=
  match s with
  | EmptyString => true
  | String c rest =>
    match k with
    | S k' => valid_from k' rest
    | O =>
      match runeLen s with
      | O => false
      | S n => valid_from n rest
      end
    end
  end.

Definition ValidString (s : string) : bool := valid_from 0 s.

End UTF8.

(** ** strconv *)

Module Strconv.
Import Bytes.

Definition digit (c : ascii) : option Z :=
  if between 48 57 c then Some (byte_val c - 48) else None.

(** The loop of [ParseUint] in base 10: [n = n*10 + d] over the digits. *)
Fixpoint digits_from (acc : Z) (s : string) : option Z :=
  match s with
  | EmptyString => Some acc
  | String c r =>
    match digit c with
    | Some d => digits_from (10 * acc + d) r
    | None => None
    end
  end.

Definition digits (s : string) : option Z :=
  match s with
  | EmptyString => None
  | _ => digits_from 0 s
  end.

(** [ParseUint s 10 bitSize]; [None] stands for both of its errors (syntax
    and range). *)
Definition ParseUint (s : string) (bitSize : Z) : option Z :=
  match digits s with
  | Some n => if n <? 2 ^ bitSize then Some n else None
  | None => None
  end.

(** [ParseInt s 10 bitSize]. *)
Definition ParseInt (s : string) (bitSize : Z) : option Z :=
  match s with
  | EmptyString => None
  | String c r =>
    let neg := Ascii.eqb c "-" in
    let body := if Ascii.eqb c "+" || neg then r else s in
    match digits body with
    | Some n =>
      let cutoff := 2 ^ (bitSize - 1) in
      if neg then (if n <=? cutoff then Some (- n) else None)
      else (if n <? cutoff then Some n else None)
    | None => None
    end
  end.

(** [FormatInt i 10] and [FormatUint]. *)
Definition FormatInt (i : Z) : string := NilZero.string_of_int (Z.to_int i).

(** The Go types [int] (64 bits wide here) and [uint64]. *)
Definition is_int (i : Z) : Prop := - 2 ^ 63 <= i < 2 ^ 63.

Definition is_uint64 (i : Z) : Prop := 0 <= i < 2 ^ 64.

(** Floating-point values are [spec_float]s: [float64] at precision 53 and
    [float32] at precision 24.  Their conversion to and from text is strconv's
    and is a parameter of the development. *)
Definition prec_of (bitSize : Z) : Z := if bitSize =? 32 then 24 else 53.

Definition emax_of (bitSize : Z) : Z := if bitSize =? 32 then 128 else 1024.

Definition is_float (bitSize : Z) (f : spec_float) : Prop :=
  valid_binary (prec_of bitSize) (emax_of bitSize) f = true.

Definition is_finite (f : spec_float) : bool :=
  match f with
  | S754_zero _ | S754_finite _ _ _ => true
  | S754_infinity _ | S754_nan => false
  end.

(** [f == 0] in Go: both zeros. *)
Definition is_zero (f : spec_float) : bool :=
  match f with
  | S754_zero _ => true
  | _ => false
  end.

Class FloatText := {
  (** [AppendFloat(b, f, fmt, -1, bitSize)] for a finite [f], with the format
      [fmt] the JSON encoder chooses and its clean-up of the exponent. *)
  FormatFloat : spec_float -> Z -> string;
  (** [ParseFloat(s, bitSize)]; [None] when it reports an error. *)
  ParseFloat : string -> Z -> option spec_float
}.

End Strconv.

(** A decimal instance of [Strconv.FloatText] to run the definitions with: it
    writes the exact value of a float and reads a JSON number by rounding to
    the nearest float, ties to even. *)

Module DecimalFloat.
Import Bytes Strconv.

Fixpoint trim_zeros (rev_digits : list ascii) : list ascii :=
  match rev_digits with
  | c :: r => if Ascii.eqb c "0" then trim_zeros r else rev_digits
  | [] => []
  end.

Definition pad_left (n : nat) (l : list ascii) : list ascii :=
  repeat "0"%char (n - length l) ++ l.

(** The positional notation of [n / 10^k], [n] positive. *)
Definition positional (n : Z) (k : nat) : string :=
  let ds := pad_left (S k) (list_ascii_of_string (FormatInt n)) in
  let ip := take (length ds - k) ds in
  let fp := rev (trim_zeros (rev (drop (length ds - k) ds))) in
  string_of_list_ascii (ip ++ match fp with [] => [] | _ => "."%char :: fp end).

Definition format (f : spec_float) (bitSize : Z) : string :=
  match f with
  | S754_zero s => if s then "-0" else "0"
  | S754_finite s m e =>
    (if s then "-" else "") +:+
    match e with
    | Zneg k => positional (Zpos m * 5 ^ Zpos k) (Pos.to_nat k)
    | _ => FormatInt (Zpos m * 2 ^ e)
    end
  | S754_infinity s => if s then "-Inf" else "+Inf"
  | S754_nan => "NaN"
  end.

(** A number literal as [(negative, mantissa, exponent of ten)]. *)
Definition scan (s : string) : option (bool * Z * Z) :=
  let '(neg, s1) :=
    match s with
    | String c r => if Ascii.eqb c "-" then (true, r) else (false, s)
    | _ => (false, s)
    end in
  let '(ip, s2) := span_digits s1 in
  let '(fp, s3) :=
    match s2 with
    | String c r => if Ascii.eqb c "." then span_digits r else (EmptyString, s2)
    | _ => (EmptyString, s2)
    end in
  match digits (ip +:+ fp) with
  | None => None
  | Some m =>
    let k := Z.of_nat (String.length fp) in
    match s3 with
    | EmptyString => Some (neg, m, - k)
    | String c r =>
      if Ascii.eqb c "e" || Ascii.eqb c "E" then
        match ParseInt r 64 with
        | Some e => Some (neg, m, e - k)
        | None => None
        end
      else None
    end
  end.

Definition parse (s : string) (bitSize : Z) : option spec_float :=
  let prec := prec_of bitSize in
  let emax := emax_of bitSize in
  match scan s with
  | None => None
  | Some (neg, m, e) =>
    let f :=
      match m, e with
      | Zpos p, Zneg k =>
        SFdiv prec emax (S754_finite neg p 0) (S754_finite false (10 ^ k)%positive 0)
      | _, _ => binary_normalize prec emax (if neg then - (m * 10 ^ e) else m * 10 ^ e) 0 neg
      end in
    if is_finite f then Some f else None
  end.

#[export] Instance decimal : FloatText := {| FormatFloat := format; ParseFloat := parse |}.

End DecimalFloat.

(** ** encoding/json: documents

    A JSON document is kept as its syntax tree.  A number keeps its literal,
    a string and a key hold the bytes the literal denotes, and an object keeps
    its members in the order of the text, repeated keys included. *)

Module JSON.
Import Bytes UTF8.

Inductive json : Type :=
| JNull
| JBool (b : bool)
| JNum (lit : string)
| JStr (s : string)
| JArr (elems : list json)
| JObj (members : list (string * json)).

(** *** The text of a document: scanner and literal decoding *)

Definition maxNestingDepth : Z := 10000.

Definition isSpace (c : ascii) : bool :=
  (byte_val c =? 32) || (byte_val c =? 9) || (byte_val c =? 13) || (byte_val c =? 10).

Fixpoint skip_ws (s : string) : string :=
  match s with
  | String c r => if isSpace c then skip_ws r else s
  | EmptyString => s
  end.

Definition hex (c : ascii) : option Z :=
  if between 48 57 c then Some (byte_val c - 48)
  else if between 97 102 c then Some (byte_val c - 87)
  else if between 65 70 c then Some (byte_val c - 55)
  else None.

(** The scanner's states inside a string: [0] plain, [1] after a backslash,
    [2..5] inside [\u] with 4..1 hexadecimal digits to come.  The result is
    the body of the literal, escapes untouched, and what follows the closing
    quote. *)
Fixpoint scan_string (st : nat) (s : string) : option (string * string) :=
  match s with
  | EmptyString => None
  | String c r =>
    let keep (st' : nat) :=
      match scan_string st' r with
      | Some (body, rest) => Some (String c body, rest)
      | None => None
      end in
    match st with
    | O =>
      if Ascii.eqb c quote then Some (EmptyString, r)
      else if Ascii.eqb c backslash then keep 1%nat
      else if byte_val c <? 32 then None
      else keep 0%nat
    | S O =>
      if Ascii.eqb c "u" then keep 2%nat
      else if Ascii.eqb c quote || Ascii.eqb c backslash || Ascii.eqb c "/"
              || Ascii.eqb c "b" || Ascii.eqb c "f" || Ascii.eqb c "n"
              || Ascii.eqb c "r" || Ascii.eqb c "t" then keep 0%nat
      else None
    | S (S n) =>
      match hex c with
      | Some _ => keep (match n with 3%nat => 0%nat | _ => S (S (S n)) end)
      | None => None
      end
    end
  end.

(** [getu4]: the code unit of a leading [\uXXXX]. *)
Definition getu4 (s : string) : option Z :=
  match s with
  | String b (String u (String h1 (String h2 (String h3 (String h4 _))))) =>
    if Ascii.eqb b backslash && Ascii.eqb u "u" then
      match hex h1, hex h2, hex h3, hex h4 with
      | Some a, Some b, Some c, Some d => Some (((a * 16 + b) * 16 + c) * 16 + d)
      | _, _, _, _ => None
      end
    else None
  | _ => None
  end.

(** [utf8.EncodeRune]. *)
Definition EncodeRune (r : Z) : string :=
  let b1 (x : Z) := String (byte_of x) EmptyString in
  let tail (x : Z) := byte_of (Z.lor 128 (Z.land x 63)) in
  if r <? 0 then replacement
  else if r <? 128 then b1 r
  else if r <? 2048 then
    String (byte_of (Z.lor 192 (Z.shiftr r 6))) (String (tail r) EmptyString)
  else if (55296 <=? r) && (r <=? 57343) then replacement
  else if r <? 65536 then
    String (byte_of (Z.lor 224 (Z.shiftr r 12)))
      (String (tail (Z.shiftr r 6)) (String (tail r) EmptyString))
  else if r <=? 1114111 then
    String (byte_of (Z.lor 240 (Z.shiftr r 18)))
      (String (tail (Z.shiftr r 12))
         (String (tail (Z.shiftr r 6)) (String (tail r) EmptyString)))
  else replacement.

(** [utf16.DecodeRune r1 r2], with [None] for the replacement rune it returns
    on anything but a high surrogate followed by a low one. *)
Definition decodeSurrogates (r1 : Z) (r2 : option Z) : option Z :=
  match r2 with
  | Some r2 =>
    if (55296 <=? r1) && (r1 <? 56320) && (56320 <=? r2) && (r2 <? 57344)
    then Some (Z.lor (Z.shiftl (r1 - 55296) 10) (r2 - 56320) + 65536)
    else None
  | None => None
  end.

Definition escaped (c : ascii) : ascii :=
  if Ascii.eqb c "b" then byte_of 8
  else if Ascii.eqb c "f" then byte_of 12
  else if Ascii.eqb c "n" then byte_of 10
  else if Ascii.eqb c "r" then byte_of 13
  else if Ascii.eqb c "t" then byte_of 9
  else c.

(** The escapes of a scanned body replaced by what they denote. *)
Fixpoint unescape (fuel : nat) (s : string) : option string :=
  match fuel with
  | O => None
  | S fuel' =>
    match s with
    | EmptyString => Some EmptyString
    | String c r =>
      if Ascii.eqb c backslash then
        match r with
        | EmptyString => None
        | String e r' =>
          if Ascii.eqb e "u" then
            match getu4 s with
            | None => None
            | Some rr =>
              let after := sdrop 6 s in
              if (55296 <=? rr) && (rr <? 57344) then
                match decodeSurrogates rr (getu4 after) with
                | Some dec => String.append (EncodeRune dec) <$> unescape fuel' (sdrop 6 after)
                | None => String.append replacement <$> unescape fuel' after
                end
              else String.append (EncodeRune rr) <$> unescape fuel' after
            end
          else String (escaped e) <$> unescape fuel' r'
        end
      else String c <$> unescape fuel' r
    end
  end.

(** [unquote] on the body of a literal: ill-formed UTF-8 becomes U+FFFD and
    escapes are replaced. *)
Definition unquote (body : string) : option string :=
  let b := toValidUTF8 body in unescape (S (String.length b)) b.

(** The literal of a number at the head of [s], by the scanner's grammar. *)
Definition scan_number (s : string) : option (string * string) :=
  let '(sign, s1) :=
    match s with
    | String c r => if Ascii.eqb c "-" then ("-", r) else ("", s)
    | _ => ("", s)
    end in
  match s1 with
  | EmptyString => None
  | String c r =>
    let int_part :=
      if Ascii.eqb c "0" then Some ("0", r)
      else if between 49 57 c then
        let '(ds, rest) := span_digits r in Some (String c ds, rest)
      else None in
    match int_part with
    | None => None
    | Some (ip, s2) =>
      let frac_part :=
        match s2 with
        | String d r2 =>
          if Ascii.eqb d "." then
            match span_digits r2 with
            | (EmptyString, _) => None
            | (ds, rest) => Some (String d ds, rest)
            end
          else Some ("", s2)
        | _ => Some ("", s2)
        end in
      match frac_part with
      | None => None
      | Some (fp, s3) =>
        let exp_part :=
          match s3 with
          | String e r3 =>
            if Ascii.eqb e "e" || Ascii.eqb e "E" then
              let '(sg, r4) :=
                match r3 with
                | String g r4 =>
                  if Ascii.eqb g "+" || Ascii.eqb g "-"
                  then (String g EmptyString, r4) else ("", r3)
                | _ => ("", r3)
                end in
              match span_digits r4 with
              | (EmptyString, _) => None
              | (ds, rest) => Some (String e (sg +:+ ds), rest)
              end
            else Some ("", s3)
          | _ => Some ("", s3)
          end in
        match exp_part with
        | None => None
        | Some (ep, rest) => Some (sign +:+ ip +:+ fp +:+ ep, rest)
        end
      end
    end
  end.

(** [s] without the prefix [p], when it starts with it. *)
Fixpoint strip_prefix (p s : string) : option string :=
  match p, s with
  | EmptyString, _ => Some s
  | String a p', String b s' => if Ascii.eqb a b then strip_prefix p' s' else None
  | _, _ => None
  end.

(** A quoted string at the head of [s], decoded. *)
Definition string_at (s : string) : option (string * string) :=
  match s with
  | String c r =>
    if Ascii.eqb c quote then
      match scan_string 0 r with
      | Some (body, rest) =>
        match unquote body with
        | Some v => Some (v, rest)
        | None => None
        end
      | None => None
      end
    else None
  | EmptyString => None
  end.

(** One value at the head of [s], which starts at no white space; [depth]
    counts the arrays and objects open around it.  [members] and [elements]
    start at a key and at an element. *)
Fixpoint value (fuel : nat) (depth : Z) (s : string) {struct fuel}
  : option (json * string) :=
  match fuel with
  | O => None
  | S fuel' =>
    match s with
    | EmptyString => None
    | String c r =>
      if Ascii.eqb c "{" then
        if maxNestingDepth <? depth + 1 then None
        else
          match skip_ws r with
          | String c' r' =>
            if Ascii.eqb c' "}" then Some (JObj [], r')
            else members fuel' (depth + 1) (skip_ws r) []
          | EmptyString => None
          end
      else if Ascii.eqb c "[" then
        if maxNestingDepth <? depth + 1 then None
        else
          match skip_ws r with
          | String c' r' =>
            if Ascii.eqb c' "]" then Some (JArr [], r')
            else elements fuel' (depth + 1) (skip_ws r) []
          | EmptyString => None
          end
      else if Ascii.eqb c quote then
        match string_at s with
        | Some (v, rest) => Some (JStr v, rest)
        | None => None
        end
      else if Ascii.eqb c "-" || between 48 57 c then
        match scan_number s with
        | Some (lit, rest) => Some (JNum lit, rest)
        | None => None
        end
      else
        match strip_prefix "true" s, strip_prefix "false" s, strip_prefix "null" s with
        | Some rest, _, _ => Some (JBool true, rest)
        | _, Some rest, _ => Some (JBool false, rest)
        | _, _, Some rest => Some (JNull, rest)
        | _, _, _ => None
        end
    end
  end
with members (fuel : nat) (depth : Z) (s : string) (acc : list (string * json))
  {struct fuel} : option (json * string) :=
  match fuel with
  | O => None
  | S fuel' =>
    match string_at s with
    | None => None
    | Some (key, r1) =>
      match skip_ws r1 with
      | String c r2 =>
        if Ascii.eqb c ":" then
          match value fuel' depth (skip_ws r2) with
          | None => None
          | Some (v, r3) =>
            match skip_ws r3 with
            | String c' r4 =>
              if Ascii.eqb c' "," then members fuel' depth (skip_ws r4) ((key, v) :: acc)
              else if Ascii.eqb c' "}" then Some (JObj (rev ((key, v) :: acc)), r4)
              else None
            | EmptyString => None
            end
          end
        else None
      | EmptyString => None
      end
    end
  end
with elements (fuel : nat) (depth : Z) (s : string) (acc : list json)
  {struct fuel} : option (json * string) :=
  match fuel with
  | O => None
  | S fuel' =>
    match value fuel' depth s with
    | None => None
    | Some (v, r1) =>
      match skip_ws r1 with
      | String c r2 =>
        if Ascii.eqb c "," then elements fuel' depth (skip_ws r2) (v :: acc)
        else if Ascii.eqb c "]" then Some (JArr (rev (v :: acc)), r2)
        else None
      | EmptyString => None
      end
    end
  end.

(** The document that [data] is the text of; [None] when the scanner
    ([checkValid]) reports a syntax error. *)
Definition parse (data : string) : option json :=
  match value (S (String.length data)) 0 (skip_ws data) with
  | Some (j, rest) =>
    match skip_ws rest with
    | EmptyString => Some j
    | _ => None
    end
  | None => None
  end.

End JSON.

(** ** Errors and results *)

(** The values of Go's [error] that this code meets.  The offset and the
    struct and field names that [encoding/json] records in its errors are
    left out. *)
Inductive error : Type :=
| SyntaxError
| UnmarshalTypeError (value : string) (type : string)
| UnsupportedValueError (str : string)
| OtherError (msg : string).

Inductive result (A : Type) : Type :=
| Ok (a : A)
| Err (e : error).

Arguments Ok {A} a.
Arguments Err {A} e.

Definition bind {A B : Type} (r : result A) (k : A -> result B) : result B :=
  match r with
  | Ok a => k a
  | Err e => Err e
  end.

Notation "x <-! r ; k" := (bind r (fun x => k))
  (at level 100, r at next level, right associativity).

Fixpoint collect {A : Type} (rs : list (result A)) : result (list A) :=
  match rs with
  | [] => Ok []
  | r :: rs' => x <-! r; xs <-! collect rs'; Ok (x :: xs)
  end.

(** [d.saveError]: the first error is the one kept. *)
Definition saveError (saved new : option error) : option error :=
  match saved with
  | Some _ => saved
  | None => new
  end.

(** ** encoding/json: values of Go types *)

Module Codec.
Import Bytes UTF8 Strconv JSON.

(** What [encoding/json] knows of a Go type [A]: its zero value, its name,
    the [omitempty] test, the encoder, and the decoder, which stores a
    document into a value that is already there and returns the error it
    saved, if any. *)
Record codec (A : Type) : Type := Codec {
  zero : A;
  typeName : string;
  isEmptyValue : A -> bool;
  encode : A -> result json;
  decode : json -> A -> A * option error
}.

Arguments Codec {A}.
Arguments zero {A}.
Arguments typeName {A}.
Arguments isEmptyValue {A}.
Arguments encode {A}.
Arguments decode {A}.

(** The [Value] of an [UnmarshalTypeError] for a document that does not fit
    the Go type. *)
Definition describe (j : json) : string :=
  match j with
  | JNull => "null"
  | JBool _ => "bool"
  | JNum _ => "number"
  | JStr _ => "string"
  | JArr _ => "array"
  | JObj _ => "object"
  end.

Definition mismatch {A : Type} (j : json) (type : string) (v : A) : A * option error :=
  (v, Some (UnmarshalTypeError (describe j) type)).

(** Go's [string]. *)
Definition string_codec : codec string := {|
  zero := "";
  typeName := "string";
  isEmptyValue s := match s with EmptyString => true | _ => false end;
  encode s := Ok (JStr (toValidUTF8 s));
  decode j s :=
    match j with
    | JNull => (s, None)
    | JStr v => (v, None)
    | _ => mismatch j "string" s
    end
|}.

(** Go's [bool]. *)
Definition bool_codec : codec bool := {|
  zero := false;
  typeName := "bool";
  isEmptyValue b := negb b;
  encode b := Ok (JBool b);
  decode j b :=
    match j with
    | JNull => (b, None)
    | JBool v => (v, None)
    | _ => mismatch j "bool" b
    end
|}.

Definition number_error {A : Type} (lit type : string) (v : A) : A * option error :=
  (v, Some (UnmarshalTypeError ("number " +:+ lit) type)).

(** Go's [int]. *)
Definition int_codec : codec Z := {|
  zero := 0;
  typeName := "int";
  isEmptyValue i := i =? 0;
  encode i := Ok (JNum (FormatInt i));
  decode j i :=
    match j with
    | JNull => (i, None)
    | JNum lit =>
      match ParseInt lit 64 with
      | Some n => (n, None)
      | None => number_error lit "int" i
      end
    | _ => mismatch j "int" i
    end
|}.

(** Go's [uint64]. *)
Definition uint64_codec : codec Z := {|
  zero := 0;
  typeName := "uint64";
  isEmptyValue i := i =? 0;
  encode i := Ok (JNum (FormatInt i));
  decode j i :=
    match j with
    | JNull => (i, None)
    | JNum lit =>
      match ParseUint lit 64 with
      | Some n => (n, None)
      | None => number_error lit "uint64" i
      end
    | _ => mismatch j "uint64" i
    end
|}.

(** Go's [float32] and [float64]: [floatEncoder] refuses what is not
    finite. *)
Definition float_codec `{FloatText} (bitSize : Z) : codec spec_float :=
  let type := if bitSize =? 32 then "float32" else "float64" in {|
  zero := S754_zero false;
  typeName := type;
  isEmptyValue f := is_zero f;
  encode f :=
    match f with
    | S754_nan => Err (UnsupportedValueError "NaN")
    | S754_infinity s => Err (UnsupportedValueError (if s then "-Inf" else "+Inf"))
    | _ => Ok (JNum (FormatFloat f bitSize))
    end;
  decode j f :=
    match j with
    | JNull => (f, None)
    | JNum lit =>
      match ParseFloat lit bitSize with
      | Some n => (n, None)
      | None => number_error lit type f
      end
    | _ => mismatch j type f
    end
|}.

(** A pointer [*A]: [None] is [nil].  The decoder allocates a zero value
    behind a nil pointer before it stores anything but [null]. *)
Definition ptr_codec {A : Type} (c : codec A) : codec (option A) := {|
  zero := None;
  typeName := "*" +:+ typeName c;
  isEmptyValue p := match p with None => true | Some _ => false end;
  encode p :=
    match p with
    | None => Ok JNull
    | Some v => encode c v
    end;
  decode j p :=
    match j with
    | JNull => (None, None)
    | _ =>
      let '(v, e) := decode c j (default (zero c) p) in (Some v, e)
    end
|}.

(** A slice [[]A].  [None] is the nil slice.  Otherwise the value has the
    elements within the length of the slice and, after them, the elements of
    its backing array past that length that were stored earlier; what lies
    further on was never written and is zero. *)
Abbreviation slice A := (option (list A * list A)).

(** The elements of a slice; a nil slice has none. *)
Definition elems {A : Type} (s : slice A) : list A :=
  match s with
  | Some (within, _) => within
  | None => []
  end.

(** The backing array of a slice, as far as it was written. *)
Definition backing {A : Type} (s : slice A) : list A :=
  match s with
  | Some (within, beyond) => within ++ beyond
  | None => []
  end.

(** The slice of these elements with no room to spare. *)
Definition slice_of {A : Type} (l : list A) : slice A := Some (l, []).

(** The loop of [d.array] over the elements of a document: element [i] is
    stored into element [i] of the backing array, which the loop brings
    within the length of the slice, or into a zero value when the array has
    to grow. *)
Fixpoint decode_elems {A : Type} (c : codec A) (js : list json) (old : list A)
  : list A * option error :=
  match js with
  | [] => ([], None)
  | j :: js' =>
    let '(v, e) := decode c j (hd (zero c) old) in
    let '(vs, e') := decode_elems c js' (tl old) in
    (v :: vs, saveError e e')
  end.

(** The codec of a slice.  After the loop the slice is cut to the number of
    elements read, the rest of the backing array staying as it is; an empty
    array gives a new empty slice. *)
Definition slice_codec {A : Type} (c : codec A) : codec (slice A) := {|
  zero := None;
  typeName := "[]" +:+ typeName c;
  isEmptyValue s := match elems s with [] => true | _ => false end;
  encode s :=
    match s with
    | None => Ok JNull
    | Some (within, _) => js <-! collect (map (encode c) within); Ok (JArr js)
    end;
  decode j s :=
    match j with
    | JNull => (None, None)
    | JArr [] => (slice_of [], None)
    | JArr js =>
      let '(vs, e) := decode_elems c js (backing s) in
      (Some (vs, drop (length js) (backing s)), e)
    | _ => mismatch j ("[]" +:+ typeName c) s
    end
|}.

(** The order in which the encoder writes the keys of a map. *)
Definition key_le {A : Type} (x y : string * A) : Prop := String.leb x.1 y.1 = true.

#[export] Instance key_le_dec {A : Type} (x y : string * A) : Decision (key_le x y).
Proof. unfold key_le. apply _. Defined.

Definition sorted_entries {A : Type} (m : gmap string A) : list (string * A) :=
  merge_sort key_le (map_to_list m).

(** The loop of [d.object] into a map: every member is decoded into a fresh
    element, which is then stored under the key. *)
Fixpoint decode_entries {A : Type} (c : codec A) (ms : list (string * json))
  (m : gmap string A) : gmap string A * option error :=
  match ms with
  | [] => (m, None)
  | (k, j) :: ms' =>
    let '(v, e) := decode c j (zero c) in
    let '(m', e') := decode_entries c ms' (<[k := v]> m) in
    (m', saveError e e')
  end.

(** A map [map[string]A]: [None] is the nil map. *)
Definition map_codec {A : Type} (c : codec A) : codec (option (gmap string A)) := {|
  zero := None;
  typeName := "map[string]" +:+ typeName c;
  isEmptyValue m := match m with None => true | Some m' => bool_decide (m' = ∅) end;
  encode m :=
    match m with
    | None => Ok JNull
    | Some m' =>
      ms <-! collect (map (fun kv => j <-! encode c kv.2; Ok (toValidUTF8 kv.1, j))
                          (sorted_entries m'));
      Ok (JObj ms)
    end;
  decode j m :=
    match j with
    | JNull => (None, None)
    | JObj ms =>
      let '(m', e) := decode_entries c ms (default ∅ m) in (Some m', e)
    | _ => mismatch j ("map[string]" +:+ typeName c) m
    end
|}.

(** *** Structs *)

(** The key under which a member is looked up: ASCII letters in upper case,
    and the two runes outside ASCII whose case folding is an ASCII letter,
    U+212A (Kelvin sign) and U+017F (long s), as that letter; [skip] bytes of
    a rune already folded are passed over.  The names of the struct fields
    here are ASCII, and on such a name and a key [foldName] agrees exactly
    when this function does. *)
Fixpoint fold_from (skip : nat) (s : string) : string :=
  match s with
  | EmptyString => EmptyString
  | String c r =>
    match skip with
    | S k => fold_from k r
    | O =>
      if between 97 122 c then String (byte_of (byte_val c - 32)) (fold_from 0 r)
      else
        match strip_prefix (EncodeRune 8490) s, strip_prefix (EncodeRune 383) s with
        | Some _, _ => String "K" (fold_from 2 r)
        | _, Some _ => String "S" (fold_from 1 r)
        | _, _ => String c (fold_from 0 r)
        end
    end
  end.

Definition fold_key (s : string) : string := fold_from 0 s.

Fixpoint index_where (p : string -> bool) (names : list string) : option nat :=
  match names with
  | [] => None
  | n :: names' => if p n then Some 0%nat else S <$> index_where p names'
  end.

(** The field a key of the document selects: the one of that very name, or
    else the first whose name is the key up to case. *)
Definition fieldIndex (names : list string) (key : string) : option nat :=
  match index_where (String.eqb key) names with
  | Some i => Some i
  | None => index_where (fun n => String.eqb (fold_key n) (fold_key key)) names
  end.

(** The loop of [d.object] into a struct: a member whose key selects a field
    is stored into it by [store]; any other member is skipped. *)
Fixpoint decode_members {S : Type} (names : list string)
  (store : nat -> json -> S -> S * option error) (ms : list (string * json)) (s : S)
  : S * option error :=
  match ms with
  | [] => (s, None)
  | (k, j) :: ms' =>
    let '(s1, e) :=
      match fieldIndex names k with
      | Some i => store i j s
      | None => (s, None)
      end in
    let '(s2, e') := decode_members names store ms' s1 in
    (s2, saveError e e')
  end.

Definition decode_struct {S : Type} (type : string) (names : list string)
  (store : nat -> json -> S -> S * option error) (j : json) (s : S) : S * option error :=
  match j with
  | JNull => (s, None)
  | JObj ms => decode_members names store ms s
  | _ => mismatch j type s
  end.

(** The member a field contributes to the object of its struct: none when
    the tag says [omitempty] and the value is empty. *)
Definition member {A : Type} (c : codec A) (name : string) (omitempty : bool) (v : A)
  : result (list (string * json)) :=
  if omitempty && isEmptyValue c v then Ok []
  else j <-! encode c v; Ok [(name, j)].

Definition encode_struct (fields : list (result (list (string * json)))) : result json :=
  ms <-! collect fields; Ok (JObj (concat ms)).

(** [json.Marshal], up to the text of the document. *)
Definition Marshal {A : Type} (c : codec A) (v : A) : result json := encode c v.

(** [json.Unmarshal data &v]: the value after the call and the error
    returned. *)
Definition Unmarshal {A : Type} (c : codec A) (data : string) (v : A) : A * option error :=
  match parse data with
  | None => (v, Some SyntaxError)
  | Some j => decode c j v
  end.

End Codec.

(** ** The other packages

    [completions.go] uses declarations of the repository and of the standard
    library that are not at hand.  They are parameters. *)

(** A type that may stand for the type parameter [T] of the request and of the
    response. *)
Class ModelID (T : Type) : Type := model_codec : Codec.codec T.

(** The types. *)
Class Packages : Type := {
  (** [models.Completion] *)
  models_Completion : Type;
  (** [models.FineTunedModel] *)
  models_FineTunedModel : Type;
  (** [objects.Object] *)
  objects_Object : Type;
  (** [Usage], of package openai *)
  openai_Usage : Type;
  (** [context.Context] *)
  context_Context : Type
}.

(** What [encoding/json] makes of these types, and the route. *)
Class Repo `{Packages} : Type := {
  completion_model :: ModelID models_Completion;
  fine_tuned_model :: ModelID models_FineTunedModel;
  object_codec : Codec.codec objects_Object;
  usage_codec : Codec.codec openai_Usage;
  (** [routes.Completions] *)
  routes_Completions : string
}.

(** ** Package openai: the types of completions.go *)

Module openai.
Import Strconv JSON Codec.

(** CompletionRequest contains all relevant fields for requests to the completions endpoint. *)
Module CompletionRequest.
Record t (T : Type) : Type := mk {
  Model : T;
  Prompt : string;
  Suffix : string;
  MaxTokens : Z;
  Temperature : option spec_float;
  TopP : option spec_float;
  N : Z;
  Stream : bool;
  LogProbs : option Z;
  Echo : bool;
  Stop : slice string;
  PresencePenalty : spec_float;
  FrequencyPenalty : spec_float;
  BestOf : Z;
  LogitBias : option (gmap string Z);
  User : string
}.

Arguments mk {T}.
Arguments Model {T} _.
Arguments Prompt {T} _.
Arguments Suffix {T} _.
Arguments MaxTokens {T} _.
Arguments Temperature {T} _.
Arguments TopP {T} _.
Arguments N {T} _.
Arguments Stream {T} _.
Arguments LogProbs {T} _.
Arguments Echo {T} _.
Arguments Stop {T} _.
Arguments PresencePenalty {T} _.
Arguments FrequencyPenalty {T} _.
Arguments BestOf {T} _.
Arguments LogitBias {T} _.
Arguments User {T} _.

Definition set_Model {T : Type} (v : T) (r : t T) : t T :=
  {| Model := v; Prompt := Prompt r; Suffix := Suffix r; MaxTokens := MaxTokens r;
     Temperature := Temperature r; TopP := TopP r; N := N r; Stream := Stream r;
     LogProbs := LogProbs r; Echo := Echo r; Stop := Stop r;
     PresencePenalty := PresencePenalty r; FrequencyPenalty := FrequencyPenalty r;
     BestOf := BestOf r; LogitBias := LogitBias r; User := User r |}.

Definition set_Prompt {T : Type} (v : string) (r : t T) : t T :=
  {| Model := Model r; Prompt := v; Suffix := Suffix r; MaxTokens := MaxTokens r;
     Temperature := Temperature r; TopP := TopP r; N := N r; Stream := Stream r;
     LogProbs := LogProbs r; Echo := Echo r; Stop := Stop r;
     PresencePenalty := PresencePenalty r; FrequencyPenalty := FrequencyPenalty r;
     BestOf := BestOf r; LogitBias := LogitBias r; User := User r |}.

Definition set_Suffix {T : Type} (v : string) (r : t T) : t T :=
  {| Model := Model r; Prompt := Prompt r; Suffix := v; MaxTokens := MaxTokens r;
     Temperature := Temperature r; TopP := TopP r; N := N r; Stream := Stream r;
     LogProbs := LogProbs r; Echo := Echo r; Stop := Stop r;
     PresencePenalty := PresencePenalty r; FrequencyPenalty := FrequencyPenalty r;
     BestOf := BestOf r; LogitBias := LogitBias r; User := User r |}.

Definition set_MaxTokens {T : Type} (v : Z) (r : t T) : t T :=
  {| Model := Model r; Prompt := Prompt r; Suffix := Suffix r; MaxTokens := v;
     Temperature := Temperature r; TopP := TopP r; N := N r; Stream := Stream r;
     LogProbs := LogProbs r; Echo := Echo r; Stop := Stop r;
     PresencePenalty := PresencePenalty r; FrequencyPenalty := FrequencyPenalty r;
     BestOf := BestOf r; LogitBias := LogitBias r; User := User r |}.

Definition set_Temperature {T : Type} (v : option spec_float) (r : t T) : t T :=
  {| Model := Model r; Prompt := Prompt r; Suffix := Suffix r; MaxTokens := MaxTokens r;
     Temperature := v; TopP := TopP r; N := N r; Stream := Stream r; LogProbs := LogProbs r;
     Echo := Echo r; Stop := Stop r; PresencePenalty := PresencePenalty r;
     FrequencyPenalty := FrequencyPenalty r; BestOf := BestOf r; LogitBias := LogitBias r;
     User := User r |}.

Definition set_TopP {T : Type} (v : option spec_float) (r : t T) : t T :=
  {| Model := Model r; Prompt := Prompt r; Suffix := Suffix r; MaxTokens := MaxTokens r;
     Temperature := Temperature r; TopP := v; N := N r; Stream := Stream r;
     LogProbs := LogProbs r; Echo := Echo r; Stop := Stop r;
     PresencePenalty := PresencePenalty r; FrequencyPenalty := FrequencyPenalty r;
     BestOf := BestOf r; LogitBias := LogitBias r; User := User r |}.

Definition set_N {T : Type} (v : Z) (r : t T) : t T :=
  {| Model := Model r; Prompt := Prompt r; Suffix := Suffix r; MaxTokens := MaxTokens r;
     Temperature := Temperature r; TopP := TopP r; N := v; Stream := Stream r;
     LogProbs := LogProbs r; Echo := Echo r; Stop := Stop r;
     PresencePenalty := PresencePenalty r; FrequencyPenalty := FrequencyPenalty r;
     BestOf := BestOf r; LogitBias := LogitBias r; User := User r |}.

Definition set_Stream {T : Type} (v : bool) (r : t T) : t T :=
  {| Model := Model r; Prompt := Prompt r; Suffix := Suffix r; MaxTokens := MaxTokens r;
     Temperature := Temperature r; TopP := TopP r; N := N r; Stream := v;
     LogProbs := LogProbs r; Echo := Echo r; Stop := Stop r;
     PresencePenalty := PresencePenalty r; FrequencyPenalty := FrequencyPenalty r;
     BestOf := BestOf r; LogitBias := LogitBias r; User := User r |}.

Definition set_LogProbs {T : Type} (v : option Z) (r : t T) : t T :=
  {| Model := Model r; Prompt := Prompt r; Suffix := Suffix r; MaxTokens := MaxTokens r;
     Temperature := Temperature r; TopP := TopP r; N := N r; Stream := Stream r; LogProbs := v;
     Echo := Echo r; Stop := Stop r; PresencePenalty := PresencePenalty r;
     FrequencyPenalty := FrequencyPenalty r; BestOf := BestOf r; LogitBias := LogitBias r;
     User := User r |}.

Definition set_Echo {T : Type} (v : bool) (r : t T) : t T :=
  {| Model := Model r; Prompt := Prompt r; Suffix := Suffix r; MaxTokens := MaxTokens r;
     Temperature := Temperature r; TopP := TopP r; N := N r; Stream := Stream r;
     LogProbs := LogProbs r; Echo := v; Stop := Stop r; PresencePenalty := PresencePenalty r;
     FrequencyPenalty := FrequencyPenalty r; BestOf := BestOf r; LogitBias := LogitBias r;
     User := User r |}.

Definition set_Stop {T : Type} (v : slice string) (r : t T) : t T :=
  {| Model := Model r; Prompt := Prompt r; Suffix := Suffix r; MaxTokens := MaxTokens r;
     Temperature := Temperature r; TopP := TopP r; N := N r; Stream := Stream r;
     LogProbs := LogProbs r; Echo := Echo r; Stop := v; PresencePenalty := PresencePenalty r;
     FrequencyPenalty := FrequencyPenalty r; BestOf := BestOf r; LogitBias := LogitBias r;
     User := User r |}.

Definition set_PresencePenalty {T : Type} (v : spec_float) (r : t T) : t T :=
  {| Model := Model r; Prompt := Prompt r; Suffix := Suffix r; MaxTokens := MaxTokens r;
     Temperature := Temperature r; TopP := TopP r; N := N r; Stream := Stream r;
     LogProbs := LogProbs r; Echo := Echo r; Stop := Stop r; PresencePenalty := v;
     FrequencyPenalty := FrequencyPenalty r; BestOf := BestOf r; LogitBias := LogitBias r;
     User := User r |}.

Definition set_FrequencyPenalty {T : Type} (v : spec_float) (r : t T) : t T :=
  {| Model := Model r; Prompt := Prompt r; Suffix := Suffix r; MaxTokens := MaxTokens r;
     Temperature := Temperature r; TopP := TopP r; N := N r; Stream := Stream r;
     LogProbs := LogProbs r; Echo := Echo r; Stop := Stop r;
     PresencePenalty := PresencePenalty r; FrequencyPenalty := v; BestOf := BestOf r;
     LogitBias := LogitBias r; User := User r |}.

Definition set_BestOf {T : Type} (v : Z) (r : t T) : t T :=
  {| Model := Model r; Prompt := Prompt r; Suffix := Suffix r; MaxTokens := MaxTokens r;
     Temperature := Temperature r; TopP := TopP r; N := N r; Stream := Stream r;
     LogProbs := LogProbs r; Echo := Echo r; Stop := Stop r;
     PresencePenalty := PresencePenalty r; FrequencyPenalty := FrequencyPenalty r; BestOf := v;
     LogitBias := LogitBias r; User := User r |}.

Definition set_LogitBias {T : Type} (v : option (gmap string Z)) (r : t T) : t T :=
  {| Model := Model r; Prompt := Prompt r; Suffix := Suffix r; MaxTokens := MaxTokens r;
     Temperature := Temperature r; TopP := TopP r; N := N r; Stream := Stream r;
     LogProbs := LogProbs r; Echo := Echo r; Stop := Stop r;
     PresencePenalty := PresencePenalty r; FrequencyPenalty := FrequencyPenalty r;
     BestOf := BestOf r; LogitBias := v; User := User r |}.

Definition set_User {T : Type} (v : string) (r : t T) : t T :=
  {| Model := Model r; Prompt := Prompt r; Suffix := Suffix r; MaxTokens := MaxTokens r;
     Temperature := Temperature r; TopP := TopP r; N := N r; Stream := Stream r;
     LogProbs := LogProbs r; Echo := Echo r; Stop := Stop r;
     PresencePenalty := PresencePenalty r; FrequencyPenalty := FrequencyPenalty r;
     BestOf := BestOf r; LogitBias := LogitBias r; User := v |}.

End CompletionRequest.

Abbreviation CompletionRequest := CompletionRequest.t.

(** LogprobResult represents logprob result of Choice. *)
Module LogprobResult.
Record t : Type := mk {
  Tokens : slice string;
  TokenLogprobs : slice spec_float;
  TopLogprobs : slice (option (gmap string spec_float));
  TextOffset : slice Z
}.

Definition set_Tokens (v : slice string) (r : t) : t :=
  {| Tokens := v; TokenLogprobs := TokenLogprobs r; TopLogprobs := TopLogprobs r;
     TextOffset := TextOffset r |}.

Definition set_TokenLogprobs (v : slice spec_float) (r : t) : t :=
  {| Tokens := Tokens r; TokenLogprobs := v; TopLogprobs := TopLogprobs r;
     TextOffset := TextOffset r |}.

Definition set_TopLogprobs (v : slice (option (gmap string spec_float))) (r : t) : t :=
  {| Tokens := Tokens r; TokenLogprobs := TokenLogprobs r; TopLogprobs := v;
     TextOffset := TextOffset r |}.

Definition set_TextOffset (v : slice Z) (r : t) : t :=
  {| Tokens := Tokens r; TokenLogprobs := TokenLogprobs r; TopLogprobs := TopLogprobs r;
     TextOffset := v |}.

End LogprobResult.

Abbreviation LogprobResult := LogprobResult.t.

(** CompletionChoice represents one of possible completions. *)
Module CompletionChoice.
Record t : Type := mk {
  Text : string;
  Index : Z;
  FinishReason : string;
  LogProbs : option LogprobResult.t
}.

Definition set_Text (v : string) (r : t) : t :=
  {| Text := v; Index := Index r; FinishReason := FinishReason r; LogProbs := LogProbs r |}.

Definition set_Index (v : Z) (r : t) : t :=
  {| Text := Text r; Index := v; FinishReason := FinishReason r; LogProbs := LogProbs r |}.

Definition set_FinishReason (v : string) (r : t) : t :=
  {| Text := Text r; Index := Index r; FinishReason := v; LogProbs := LogProbs r |}.

Definition set_LogProbs (v : option LogprobResult.t) (r : t) : t :=
  {| Text := Text r; Index := Index r; FinishReason := FinishReason r; LogProbs := v |}.

End CompletionChoice.

Abbreviation CompletionChoice := CompletionChoice.t.

(** CompletionResponse is the response from the completions endpoint. *)
Module CompletionResponse.
Record t `{Packages} (T : Type) : Type := mk {
  ID : string;
  Object : objects_Object;
  Created : Z;
  Model : T;
  Choices : slice (option CompletionChoice.t);
  Usage : option openai_Usage
}.

Arguments mk {_ T}.
Arguments ID {_ T} _.
Arguments Object {_ T} _.
Arguments Created {_ T} _.
Arguments Model {_ T} _.
Arguments Choices {_ T} _.
Arguments Usage {_ T} _.

Definition set_ID `{Packages} {T : Type} (v : string) (r : t T) : t T :=
  {| ID := v; Object := Object r; Created := Created r; Model := Model r; Choices := Choices r;
     Usage := Usage r |}.

Definition set_Object `{Packages} {T : Type} (v : objects_Object) (r : t T) : t T :=
  {| ID := ID r; Object := v; Created := Created r; Model := Model r; Choices := Choices r;
     Usage := Usage r |}.

Definition set_Created `{Packages} {T : Type} (v : Z) (r : t T) : t T :=
  {| ID := ID r; Object := Object r; Created := v; Model := Model r; Choices := Choices r;
     Usage := Usage r |}.

Definition set_Model `{Packages} {T : Type} (v : T) (r : t T) : t T :=
  {| ID := ID r; Object := Object r; Created := Created r; Model := v; Choices := Choices r;
     Usage := Usage r |}.

Definition set_Choices `{Packages} {T : Type} (v : slice (option CompletionChoice.t))
  (r : t T) : t T :=
  {| ID := ID r; Object := Object r; Created := Created r; Model := Model r; Choices := v;
     Usage := Usage r |}.

Definition set_Usage `{Packages} {T : Type} (v : option openai_Usage) (r : t T) : t T :=
  {| ID := ID r; Object := Object r; Created := Created r; Model := Model r;
     Choices := Choices r; Usage := v |}.

End CompletionResponse.

Abbreviation CompletionResponse := CompletionResponse.t.

(** *** What the struct tags make of these types for [encoding/json] *)

Section Codecs.
Context `{FloatText} `{Repo} {T : Type} `{ModelID T}.

(** The name of the type [CompletionRequest] in an error. *)
Definition CompletionRequest_type : string :=
  "openai.CompletionRequest[" +:+ typeName model_codec +:+ "]".

(** The keys of [CompletionRequest], by its struct tags. *)
Definition CompletionRequest_keys : list string :=
  ["model"; "prompt"; "suffix"; "max_tokens"; "temperature"; "top_p";
   "n"; "stream"; "logprobs"; "echo"; "stop";
   "presence_penalty"; "frequency_penalty"; "best_of"; "logit_bias"; "user"].

Definition CompletionRequest_zero : CompletionRequest T :=
  CompletionRequest.mk
    (zero model_codec)
    (zero string_codec)
    (zero string_codec)
    (zero int_codec)
    (zero (ptr_codec (float_codec 64)))
    (zero (ptr_codec (float_codec 64)))
    (zero int_codec)
    (zero bool_codec)
    (zero (ptr_codec int_codec))
    (zero bool_codec)
    (zero (slice_codec string_codec))
    (zero (float_codec 32))
    (zero (float_codec 32))
    (zero int_codec)
    (zero (map_codec int_codec))
    (zero string_codec).

Definition CompletionRequest_encode (r : CompletionRequest T) : result json :=
  encode_struct [
    member model_codec "model" false (CompletionRequest.Model r);
    member string_codec "prompt" true (CompletionRequest.Prompt r);
    member string_codec "suffix" true (CompletionRequest.Suffix r);
    member int_codec "max_tokens" true (CompletionRequest.MaxTokens r);
    member (ptr_codec (float_codec 64)) "temperature" true (CompletionRequest.Temperature r);
    member (ptr_codec (float_codec 64)) "top_p" true (CompletionRequest.TopP r);
    member int_codec "n" true (CompletionRequest.N r);
    member bool_codec "stream" true (CompletionRequest.Stream r);
    member (ptr_codec int_codec) "logprobs" true (CompletionRequest.LogProbs r);
    member bool_codec "echo" true (CompletionRequest.Echo r);
    member (slice_codec string_codec) "stop" true (CompletionRequest.Stop r);
    member (float_codec 32) "presence_penalty" true (CompletionRequest.PresencePenalty r);
    member (float_codec 32) "frequency_penalty" true (CompletionRequest.FrequencyPenalty r);
    member int_codec "best_of" true (CompletionRequest.BestOf r);
    member (map_codec int_codec) "logit_bias" true (CompletionRequest.LogitBias r);
    member string_codec "user" true (CompletionRequest.User r)
  ].

(** Stores a document into field number [i] of a [CompletionRequest]. *)
Definition CompletionRequest_store (i : nat) (j : json) (r : CompletionRequest T)
  : CompletionRequest T * option error :=
  match i with
  | 0%nat =>
    let '(v, e) := decode model_codec j (CompletionRequest.Model r) in
    (CompletionRequest.set_Model v r, e)
  | 1%nat =>
    let '(v, e) := decode string_codec j (CompletionRequest.Prompt r) in
    (CompletionRequest.set_Prompt v r, e)
  | 2%nat =>
    let '(v, e) := decode string_codec j (CompletionRequest.Suffix r) in
    (CompletionRequest.set_Suffix v r, e)
  | 3%nat =>
    let '(v, e) := decode int_codec j (CompletionRequest.MaxTokens r) in
    (CompletionRequest.set_MaxTokens v r, e)
  | 4%nat =>
    let '(v, e) := decode (ptr_codec (float_codec 64)) j (CompletionRequest.Temperature r) in
    (CompletionRequest.set_Temperature v r, e)
  | 5%nat =>
    let '(v, e) := decode (ptr_codec (float_codec 64)) j (CompletionRequest.TopP r) in
    (CompletionRequest.set_TopP v r, e)
  | 6%nat =>
    let '(v, e) := decode int_codec j (CompletionRequest.N r) in
    (CompletionRequest.set_N v r, e)
  | 7%nat =>
    let '(v, e) := decode bool_codec j (CompletionRequest.Stream r) in
    (CompletionRequest.set_Stream v r, e)
  | 8%nat =>
    let '(v, e) := decode (ptr_codec int_codec) j (CompletionRequest.LogProbs r) in
    (CompletionRequest.set_LogProbs v r, e)
  | 9%nat =>
    let '(v, e) := decode bool_codec j (CompletionRequest.Echo r) in
    (CompletionRequest.set_Echo v r, e)
  | 10%nat =>
    let '(v, e) := decode (slice_codec string_codec) j (CompletionRequest.Stop r) in
    (CompletionRequest.set_Stop v r, e)
  | 11%nat =>
    let '(v, e) := decode (float_codec 32) j (CompletionRequest.PresencePenalty r) in
    (CompletionRequest.set_PresencePenalty v r, e)
  | 12%nat =>
    let '(v, e) := decode (float_codec 32) j (CompletionRequest.FrequencyPenalty r) in
    (CompletionRequest.set_FrequencyPenalty v r, e)
  | 13%nat =>
    let '(v, e) := decode int_codec j (CompletionRequest.BestOf r) in
    (CompletionRequest.set_BestOf v r, e)
  | 14%nat =>
    let '(v, e) := decode (map_codec int_codec) j (CompletionRequest.LogitBias r) in
    (CompletionRequest.set_LogitBias v r, e)
  | 15%nat =>
    let '(v, e) := decode string_codec j (CompletionRequest.User r) in
    (CompletionRequest.set_User v r, e)
  | _ => (r, None)
  end.

Definition CompletionRequest_codec : codec (CompletionRequest T) := {|
  zero := CompletionRequest_zero;
  typeName := CompletionRequest_type;
  isEmptyValue _ := false;
  encode := CompletionRequest_encode;
  decode := decode_struct CompletionRequest_type CompletionRequest_keys CompletionRequest_store
|}.

(** The name of the type [LogprobResult] in an error. *)
Definition LogprobResult_type : string := "openai.LogprobResult".

(** The keys of [LogprobResult], by its struct tags. *)
Definition LogprobResult_keys : list string :=
  ["tokens"; "token_logprobs"; "top_logprobs"; "text_offset"].

Definition LogprobResult_zero : LogprobResult :=
  LogprobResult.mk
    (zero (slice_codec string_codec))
    (zero (slice_codec (float_codec 32)))
    (zero (slice_codec (map_codec (float_codec 32))))
    (zero (slice_codec int_codec)).

Definition LogprobResult_encode (r : LogprobResult) : result json :=
  encode_struct [
    member (slice_codec string_codec) "tokens" false (LogprobResult.Tokens r);
    member (slice_codec (float_codec 32)) "token_logprobs" false
      (LogprobResult.TokenLogprobs r);
    member (slice_codec (map_codec (float_codec 32))) "top_logprobs" false
      (LogprobResult.TopLogprobs r);
    member (slice_codec int_codec) "text_offset" false (LogprobResult.TextOffset r)
  ].

(** Stores a document into field number [i] of a [LogprobResult]. *)
Definition LogprobResult_store (i : nat) (j : json) (r : LogprobResult)
  : LogprobResult * option error :=
  match i with
  | 0%nat =>
    let '(v, e) := decode (slice_codec string_codec) j (LogprobResult.Tokens r) in
    (LogprobResult.set_Tokens v r, e)
  | 1%nat =>
    let '(v, e) := decode (slice_codec (float_codec 32)) j (LogprobResult.TokenLogprobs r) in
    (LogprobResult.set_TokenLogprobs v r, e)
  | 2%nat =>
    let '(v, e) :=
      decode (slice_codec (map_codec (float_codec 32))) j
        (LogprobResult.TopLogprobs r) in
    (LogprobResult.set_TopLogprobs v r, e)
  | 3%nat =>
    let '(v, e) := decode (slice_codec int_codec) j (LogprobResult.TextOffset r) in
    (LogprobResult.set_TextOffset v r, e)
  | _ => (r, None)
  end.

Definition LogprobResult_codec : codec LogprobResult := {|
  zero := LogprobResult_zero;
  typeName := LogprobResult_type;
  isEmptyValue _ := false;
  encode := LogprobResult_encode;
  decode := decode_struct LogprobResult_type LogprobResult_keys LogprobResult_store
|}.

(** The name of the type [CompletionChoice] in an error. *)
Definition CompletionChoice_type : string := "openai.CompletionChoice".

(** The keys of [CompletionChoice], by its struct tags. *)
Definition CompletionChoice_keys : list string :=
  ["text"; "index"; "finish_reason"; "logprobs"].

Definition CompletionChoice_zero : CompletionChoice :=
  CompletionChoice.mk
    (zero string_codec)
    (zero int_codec)
    (zero string_codec)
    (zero (ptr_codec LogprobResult_codec)).

Definition CompletionChoice_encode (r : CompletionChoice) : result json :=
  encode_struct [
    member string_codec "text" false (CompletionChoice.Text r);
    member int_codec "index" false (CompletionChoice.Index r);
    member string_codec "finish_reason" false (CompletionChoice.FinishReason r);
    member (ptr_codec LogprobResult_codec) "logprobs" false (CompletionChoice.LogProbs r)
  ].

(** Stores a document into field number [i] of a [CompletionChoice]. *)
Definition CompletionChoice_store (i : nat) (j : json) (r : CompletionChoice)
  : CompletionChoice * option error :=
  match i with
  | 0%nat =>
    let '(v, e) := decode string_codec j (CompletionChoice.Text r) in
    (CompletionChoice.set_Text v r, e)
  | 1%nat =>
    let '(v, e) := decode int_codec j (CompletionChoice.Index r) in
    (CompletionChoice.set_Index v r, e)
  | 2%nat =>
    let '(v, e) := decode string_codec j (CompletionChoice.FinishReason r) in
    (CompletionChoice.set_FinishReason v r, e)
  | 3%nat =>
    let '(v, e) := decode (ptr_codec LogprobResult_codec) j (CompletionChoice.LogProbs r) in
    (CompletionChoice.set_LogProbs v r, e)
  | _ => (r, None)
  end.

Definition CompletionChoice_codec : codec CompletionChoice := {|
  zero := CompletionChoice_zero;
  typeName := CompletionChoice_type;
  isEmptyValue _ := false;
  encode := CompletionChoice_encode;
  decode := decode_struct CompletionChoice_type CompletionChoice_keys CompletionChoice_store
|}.

(** The name of the type [CompletionResponse] in an error. *)
Definition CompletionResponse_type : string :=
  "openai.CompletionResponse[" +:+ typeName model_codec +:+ "]".

(** The keys of [CompletionResponse], by its struct tags. *)
Definition CompletionResponse_keys : list string :=
  ["id"; "object"; "created"; "model"; "choices"; "usage"].

Definition CompletionResponse_zero : CompletionResponse T :=
  CompletionResponse.mk
    (zero string_codec)
    (zero object_codec)
    (zero uint64_codec)
    (zero model_codec)
    (zero (slice_codec (ptr_codec CompletionChoice_codec)))
    (zero (ptr_codec usage_codec)).

Definition CompletionResponse_encode (r : CompletionResponse T) : result json :=
  encode_struct [
    member string_codec "id" false (CompletionResponse.ID r);
    member object_codec "object" false (CompletionResponse.Object r);
    member uint64_codec "created" false (CompletionResponse.Created r);
    member model_codec "model" false (CompletionResponse.Model r);
    member (slice_codec (ptr_codec CompletionChoice_codec)) "choices" false
      (CompletionResponse.Choices r);
    member (ptr_codec usage_codec) "usage" false (CompletionResponse.Usage r)
  ].

(** Stores a document into field number [i] of a [CompletionResponse]. *)
Definition CompletionResponse_store (i : nat) (j : json) (r : CompletionResponse T)
  : CompletionResponse T * option error :=
  match i with
  | 0%nat =>
    let '(v, e) := decode string_codec j (CompletionResponse.ID r) in
    (CompletionResponse.set_ID v r, e)
  | 1%nat =>
    let '(v, e) := decode object_codec j (CompletionResponse.Object r) in
    (CompletionResponse.set_Object v r, e)
  | 2%nat =>
    let '(v, e) := decode uint64_codec j (CompletionResponse.Created r) in
    (CompletionResponse.set_Created v r, e)
  | 3%nat =>
    let '(v, e) := decode model_codec j (CompletionResponse.Model r) in
    (CompletionResponse.set_Model v r, e)
  | 4%nat =>
    let '(v, e) :=
      decode (slice_codec (ptr_codec CompletionChoice_codec)) j
        (CompletionResponse.Choices r) in
    (CompletionResponse.set_Choices v r, e)
  | 5%nat =>
    let '(v, e) := decode (ptr_codec usage_codec) j (CompletionResponse.Usage r) in
    (CompletionResponse.set_Usage v r, e)
  | _ => (r, None)
  end.

Definition CompletionResponse_codec : codec (CompletionResponse T) := {|
  zero := CompletionResponse_zero;
  typeName := CompletionResponse_type;
  isEmptyValue _ := false;
  encode := CompletionResponse_encode;
  decode := decode_struct CompletionResponse_type CompletionResponse_keys CompletionResponse_store
|}.

End Codecs.

(** *** The client *)

(** [Client], as far as this file uses it: its method [post] takes a
    context, a route and a payload, here a pointer to a request ([None] is
    nil), and returns the bytes of the response and an error. *)
Record Client `{Packages} : Type := {
  post : forall T : Type, ModelID T ->
    context_Context -> string -> option (CompletionRequest T) -> string * option error
}.

Arguments post {_} _ _ {_} _ _ _.

Section Completions.
Context `{FloatText} `{Repo}.

(** CreateCompletion creates a completion for the provided prompt and
    parameters. *)
Definition CreateCompletion (c : Client) (ctx : context_Context)
  (cr : option (CompletionRequest models_Completion))
  : option (CompletionResponse models_Completion) * option error :=
  let '(b, err) := post c models_Completion ctx routes_Completions cr in
  match err with
  | Some e => (None, Some e)
  | None =>
    let resp := CompletionResponse_zero (T := models_Completion) in
    let '(resp, err) := Unmarshal CompletionResponse_codec b resp in
    match err with
    | Some e => (None, Some e)
    | None => (Some resp, None)
    end
  end.

(** CreateFineTunedCompletion creates a completion for the provided prompt
    and parameters, using a fine-tuned model. *)
Definition CreateFineTunedCompletion (c : Client) (ctx : context_Context)
  (cr : option (CompletionRequest models_FineTunedModel))
  : option (CompletionResponse models_FineTunedModel) * option error :=
  let '(b, err) := post c models_FineTunedModel ctx routes_Completions cr in
  match err with
  | Some e => (None, Some e)
  | None =>
    let resp := CompletionResponse_zero (T := models_FineTunedModel) in
    let '(resp, err) := Unmarshal CompletionResponse_codec b resp in
    match err with
    | Some e => (None, Some e)
    | None => (Some resp, None)
    end
  end.

(** The one operation the spec describes behind the two entry points, as the
    spec words it: post the request to the completions resource; on an error
    of that step return it and no response; otherwise parse the body into a
    response of the variant of the request; on an error of that step return
    it and no response; otherwise return the response. *)
Definition transport {T : Type} `{ModelID T} (c : Client) (ctx : context_Context)
  (cr : option (CompletionRequest T)) : option (CompletionResponse T) * option error :=
  match post c T ctx routes_Completions cr with
  | (_, Some e) => (None, Some e)
  | (body, None) =>
    match Unmarshal CompletionResponse_codec body CompletionResponse_zero with
    | (_, Some e) => (None, Some e)
    | (resp, None) => (Some resp, None)
    end
  end.

End Completions.

End openai.

(** ** The missing declarations, as the spec describes them *)

Module Spec.
Import Strconv JSON Codec openai.

(** A Go type whose underlying type is [string]. *)
Definition named {A : Type} (type : string) (wrap : string -> A) (name : A -> string)
  : codec A := {|
  zero := wrap "";
  typeName := type;
  isEmptyValue v := isEmptyValue string_codec (name v);
  encode v := encode string_codec (name v);
  decode j v :=
    match j with
    | JNull => (v, None)
    | JStr s => (wrap s, None)
    | _ => mismatch j type v
    end
|}.

(** Modelled from the spec: package [models] is not at hand.  The spec
    describes the model identifier as "a plain stock model name or a
    fine-tuned model name", "two closed variants of a single identifier
    concept", and the key [model] of both bodies as a string. *)
Inductive Completion : Type := StockModel (name : string).

Definition Completion_name (m : Completion) : string := let 'StockModel n := m in n.

Inductive FineTunedModel : Type := FineTuned (name : string).

Definition FineTunedModel_name (m : FineTunedModel) : string := let 'FineTuned n := m in n.

#[export] Instance Completion_model : ModelID Completion :=
  named "models.Completion" StockModel Completion_name.

#[export] Instance FineTunedModel_model : ModelID FineTunedModel :=
  named "models.FineTunedModel" FineTuned FineTunedModel_name.

(** Modelled from the spec: package [objects] is not at hand.  The spec has
    [object] as a "string constant tag". *)
Inductive Object : Type := ObjectTag (tag : string).

Definition Object_tag (o : Object) : string := let 'ObjectTag t := o in t.

(** Modelled from the spec: [Usage] is not at hand.  The spec has [usage] as
    an "object, structure defined by an external collaborator" and names none
    of its keys; this struct has no field, so that no member is read. *)
Inductive Usage : Type := UsageCounts.

Definition Usage_codec : codec Usage := {|
  zero := UsageCounts;
  typeName := "openai.Usage";
  isEmptyValue _ := false;
  encode _ := encode_struct [];
  decode := decode_struct "openai.Usage" [] (fun _ _ u => (u, None))
|}.

(** Modelled from the spec: [context.Context] carries nothing this file
    reads, and the route is "a fixed completions resource". *)
#[export] Instance packages : Packages := {|
  models_Completion := Completion;
  models_FineTunedModel := FineTunedModel;
  objects_Object := Object;
  openai_Usage := Usage;
  context_Context := unit
|}.

#[export] Instance repo : Repo := {|
  completion_model := Completion_model;
  fine_tuned_model := FineTunedModel_model;
  object_codec := named "objects.Object" ObjectTag Object_tag;
  usage_codec := Usage_codec;
  routes_Completions := "completions"
|}.

(** A client whose [post] answers every call with the same bytes and
    error. *)
Definition answering (b : string) (e : option error) : Client :=
  {| post _ _ _ _ _ := (b, e) |}.

(** Text with an apostrophe wherever the JSON text has a quotation mark. *)
Definition text (s : string) : string :=
  string_of_list_ascii
    (map (fun c => if Ascii.eqb c "'" then Bytes.quote else c) (list_ascii_of_string s)).

End Spec.

(** ** The vocabulary of the properties *)

Module Props.
Import Bytes UTF8 Strconv JSON Codec openai.

(** [v] comes back from the encoder followed by the decoder into a zero
    value. *)
Definition roundtrips {A : Type} (c : codec A) (v : A) : Prop :=
  exists j, encode c v = Ok j /\ j <> JNull /\ decode c j (zero c) = (v, None).

(** The keys of the members of an object, in order. *)
Definition keys_of (j : json) : list string :=
  match j with
  | JObj ms => map fst ms
  | _ => []
  end.

(** The documents that an object holds for field number [i] of a struct, in
    order. *)
Definition field_values (names : list string) (i : nat) (ms : list (string * json))
  : list json :=
  snd <$> filter (fun kv : string * json => fieldIndex names kv.1 = Some i) ms.

(** The value of a field after each of these documents was stored into
    it. *)
Definition stores {A : Type} (c : codec A) (js : list json) (v : A) : A :=
  fold_left (fun cur j => (decode c j cur).1) js v.

Definition ok {A : Type} (r : result A) : Prop := exists a, r = Ok a.

Section Request.
Context `{FloatText} {T : Type} `{ModelID T}.

(** The optional fields of a request, by key, each with whether its value is
    empty: an empty string, a zero, false, a nil pointer, a slice or a map
    that is nil or has no element. *)
Definition optional_fields (r : CompletionRequest T) : list (string * bool) :=
  [("prompt", bool_decide (CompletionRequest.Prompt r = ""));
   ("suffix", bool_decide (CompletionRequest.Suffix r = ""));
   ("max_tokens", bool_decide (CompletionRequest.MaxTokens r = 0));
   ("temperature", bool_decide (CompletionRequest.Temperature r = None));
   ("top_p", bool_decide (CompletionRequest.TopP r = None));
   ("n", bool_decide (CompletionRequest.N r = 0));
   ("stream", negb (CompletionRequest.Stream r));
   ("logprobs", bool_decide (CompletionRequest.LogProbs r = None));
   ("echo", negb (CompletionRequest.Echo r));
   ("stop", bool_decide (elems (CompletionRequest.Stop r) = []));
   ("presence_penalty", is_zero (CompletionRequest.PresencePenalty r));
   ("frequency_penalty", is_zero (CompletionRequest.FrequencyPenalty r));
   ("best_of", bool_decide (CompletionRequest.BestOf r = 0));
   ("logit_bias", bool_decide (default ∅ (CompletionRequest.LogitBias r) = ∅));
   ("user", bool_decide (CompletionRequest.User r = ""))].

(** The keys a request is to be written with: [model], then the optional
    fields that are not empty. *)
Definition request_keys (r : CompletionRequest T) : list string :=
  "model" :: flat_map (fun kv : string * bool => if kv.2 then [] else [kv.1]) (optional_fields r).

(** A float of the given width that strconv writes and reads back. *)
Definition float_text_ok (bitSize : Z) (f : spec_float) : Prop :=
  is_finite f = true /\ ParseFloat (FormatFloat f bitSize) bitSize = Some f.

(** The requests whose strings are valid UTF-8, whose integers are values of
    [int], whose floats are finite and come back from their text, and whose
    model identifier comes back from its encoding. *)
Record well_formed (r : CompletionRequest T) : Prop := {
  wf_Model : roundtrips model_codec (CompletionRequest.Model r);
  wf_Prompt : ValidString (CompletionRequest.Prompt r) = true;
  wf_Suffix : ValidString (CompletionRequest.Suffix r) = true;
  wf_MaxTokens : is_int (CompletionRequest.MaxTokens r);
  wf_Temperature : forall f, CompletionRequest.Temperature r = Some f -> float_text_ok 64 f;
  wf_TopP : forall f, CompletionRequest.TopP r = Some f -> float_text_ok 64 f;
  wf_N : is_int (CompletionRequest.N r);
  wf_LogProbs : forall n, CompletionRequest.LogProbs r = Some n -> is_int n;
  wf_Stop : Forall (fun s => ValidString s = true) (elems (CompletionRequest.Stop r));
  wf_PresencePenalty : float_text_ok 32 (CompletionRequest.PresencePenalty r);
  wf_FrequencyPenalty : float_text_ok 32 (CompletionRequest.FrequencyPenalty r);
  wf_BestOf : is_int (CompletionRequest.BestOf r);
  wf_LogitBias : forall k n, default ∅ (CompletionRequest.LogitBias r) !! k = Some n ->
    ValidString k = true /\ is_int n;
  wf_User : ValidString (CompletionRequest.User r) = true
}.

(** [r'] has the value of [r] in every field of [r] that is not empty. *)
Record agree_on_set (r r' : CompletionRequest T) : Prop := {
  on_Model : CompletionRequest.Model r' = CompletionRequest.Model r;
  on_Prompt : CompletionRequest.Prompt r <> "" ->
    CompletionRequest.Prompt r' = CompletionRequest.Prompt r;
  on_Suffix : CompletionRequest.Suffix r <> "" ->
    CompletionRequest.Suffix r' = CompletionRequest.Suffix r;
  on_MaxTokens : CompletionRequest.MaxTokens r <> 0 ->
    CompletionRequest.MaxTokens r' = CompletionRequest.MaxTokens r;
  on_Temperature : CompletionRequest.Temperature r <> None ->
    CompletionRequest.Temperature r' = CompletionRequest.Temperature r;
  on_TopP : CompletionRequest.TopP r <> None ->
    CompletionRequest.TopP r' = CompletionRequest.TopP r;
  on_N : CompletionRequest.N r <> 0 -> CompletionRequest.N r' = CompletionRequest.N r;
  on_Stream : CompletionRequest.Stream r = true ->
    CompletionRequest.Stream r' = CompletionRequest.Stream r;
  on_LogProbs : CompletionRequest.LogProbs r <> None ->
    CompletionRequest.LogProbs r' = CompletionRequest.LogProbs r;
  on_Echo : CompletionRequest.Echo r = true ->
    CompletionRequest.Echo r' = CompletionRequest.Echo r;
  on_Stop : elems (CompletionRequest.Stop r) <> [] ->
    elems (CompletionRequest.Stop r') = elems (CompletionRequest.Stop r);
  on_PresencePenalty : is_zero (CompletionRequest.PresencePenalty r) = false ->
    CompletionRequest.PresencePenalty r' = CompletionRequest.PresencePenalty r;
  on_FrequencyPenalty : is_zero (CompletionRequest.FrequencyPenalty r) = false ->
    CompletionRequest.FrequencyPenalty r' = CompletionRequest.FrequencyPenalty r;
  on_BestOf : CompletionRequest.BestOf r <> 0 ->
    CompletionRequest.BestOf r' = CompletionRequest.BestOf r;
  on_LogitBias : default ∅ (CompletionRequest.LogitBias r) <> ∅ ->
    CompletionRequest.LogitBias r' = CompletionRequest.LogitBias r;
  on_User : CompletionRequest.User r <> "" ->
    CompletionRequest.User r' = CompletionRequest.User r
}.

(** [r] with every empty optional field at its zero value: what the decoder
    rebuilds from the encoding of [r]. *)
Definition canon (r : CompletionRequest T) : CompletionRequest T :=
  {| CompletionRequest.Model := CompletionRequest.Model r;
     CompletionRequest.Prompt := CompletionRequest.Prompt r;
     CompletionRequest.Suffix := CompletionRequest.Suffix r;
     CompletionRequest.MaxTokens := CompletionRequest.MaxTokens r;
     CompletionRequest.Temperature := CompletionRequest.Temperature r;
     CompletionRequest.TopP := CompletionRequest.TopP r;
     CompletionRequest.N := CompletionRequest.N r;
     CompletionRequest.Stream := CompletionRequest.Stream r;
     CompletionRequest.LogProbs := CompletionRequest.LogProbs r;
     CompletionRequest.Echo := CompletionRequest.Echo r;
     CompletionRequest.Stop :=
       match elems (CompletionRequest.Stop r) with
       | [] => None
       | l => slice_of l
       end;
     CompletionRequest.PresencePenalty :=
       if is_zero (CompletionRequest.PresencePenalty r) then S754_zero false
       else CompletionRequest.PresencePenalty r;
     CompletionRequest.FrequencyPenalty :=
       if is_zero (CompletionRequest.FrequencyPenalty r) then S754_zero false
       else CompletionRequest.FrequencyPenalty r;
     CompletionRequest.BestOf := CompletionRequest.BestOf r;
     CompletionRequest.LogitBias :=
       if bool_decide (default ∅ (CompletionRequest.LogitBias r) = ∅) then None
       else CompletionRequest.LogitBias r;
     CompletionRequest.User := CompletionRequest.User r |}.

(** [r'] has the zero value in every optional field of [r] that is empty: an
    empty string, a zero, false, a nil pointer; a slice or a map that is nil
    or has no element comes back nil, and a zero of either sign comes back
    as the positive zero. *)
Record zero_on_empty (r r' : CompletionRequest T) : Prop := {
  ze_Prompt : CompletionRequest.Prompt r = "" -> CompletionRequest.Prompt r' = "";
  ze_Suffix : CompletionRequest.Suffix r = "" -> CompletionRequest.Suffix r' = "";
  ze_MaxTokens : CompletionRequest.MaxTokens r = 0 -> CompletionRequest.MaxTokens r' = 0;
  ze_Temperature : CompletionRequest.Temperature r = None ->
    CompletionRequest.Temperature r' = None;
  ze_TopP : CompletionRequest.TopP r = None -> CompletionRequest.TopP r' = None;
  ze_N : CompletionRequest.N r = 0 -> CompletionRequest.N r' = 0;
  ze_Stream : CompletionRequest.Stream r = false -> CompletionRequest.Stream r' = false;
  ze_LogProbs : CompletionRequest.LogProbs r = None -> CompletionRequest.LogProbs r' = None;
  ze_Echo : CompletionRequest.Echo r = false -> CompletionRequest.Echo r' = false;
  ze_Stop : elems (CompletionRequest.Stop r) = [] -> CompletionRequest.Stop r' = None;
  ze_PresencePenalty : is_zero (CompletionRequest.PresencePenalty r) = true ->
    CompletionRequest.PresencePenalty r' = S754_zero false;
  ze_FrequencyPenalty : is_zero (CompletionRequest.FrequencyPenalty r) = true ->
    CompletionRequest.FrequencyPenalty r' = S754_zero false;
  ze_BestOf : CompletionRequest.BestOf r = 0 -> CompletionRequest.BestOf r' = 0;
  ze_LogitBias : default ∅ (CompletionRequest.LogitBias r) = ∅ ->
    CompletionRequest.LogitBias r' = None;
  ze_User : CompletionRequest.User r = "" -> CompletionRequest.User r' = ""
}.

(** The members of the encoding that carry the values the documentation
    bounds, written as they are. *)
Definition written_as_is (r : CompletionRequest T) (ms : list (string * json)) : Prop :=
  (forall n, CompletionRequest.LogProbs r = Some n ->
     ("logprobs", JNum (FormatInt n)) ∈ ms) /\
  (CompletionRequest.N r <> 0 -> ("n", JNum (FormatInt (CompletionRequest.N r))) ∈ ms) /\
  (CompletionRequest.BestOf r <> 0 ->
     ("best_of", JNum (FormatInt (CompletionRequest.BestOf r))) ∈ ms) /\
  (elems (CompletionRequest.Stop r) <> [] ->
     ("stop", JArr (map (fun s => JStr (toValidUTF8 s)) (elems (CompletionRequest.Stop r))))
       ∈ ms) /\
  (is_zero (CompletionRequest.PresencePenalty r) = false ->
     ("presence_penalty", JNum (FormatFloat (CompletionRequest.PresencePenalty r) 32)) ∈ ms) /\
  (is_zero (CompletionRequest.FrequencyPenalty r) = false ->
     ("frequency_penalty", JNum (FormatFloat (CompletionRequest.FrequencyPenalty r) 32))
       ∈ ms) /\
  (forall m, CompletionRequest.LogitBias r = Some m -> m <> ∅ ->
     ("logit_bias",
      JObj (map (fun kv : string * Z => (toValidUTF8 kv.1, JNum (FormatInt kv.2)))
              (sorted_entries m))) ∈ ms).

(** The float fields of a request hold no NaN and no infinity. *)
Definition finite_floats (r : CompletionRequest T) : Prop :=
  (forall f, CompletionRequest.Temperature r = Some f -> is_finite f = true) /\
  (forall f, CompletionRequest.TopP r = Some f -> is_finite f = true) /\
  is_finite (CompletionRequest.PresencePenalty r) = true /\
  is_finite (CompletionRequest.FrequencyPenalty r) = true.

End Request.

(** The decoder stores [j] into any value of the type without an error. *)
Definition accepts {A : Type} (c : codec A) (j : json) : Prop :=
  forall v, (decode c j v).2 = None.

Section Response.
Context `{FloatText} `{Repo} {T : Type} `{ModelID T}.

(** Every field of [resp] is what the decoder makes of the members of the
    body that select it, stored in order into the zero value. *)
Definition populated (ms : list (string * json)) (resp : CompletionResponse T) : Prop :=
  let members_of := fun i => field_values CompletionResponse_keys i ms in
  CompletionResponse.ID resp = stores string_codec (members_of 0%nat) "" /\
  CompletionResponse.Object resp
    = stores object_codec (members_of 1%nat) (zero object_codec) /\
  CompletionResponse.Created resp = stores uint64_codec (members_of 2%nat) 0 /\
  CompletionResponse.Model resp = stores model_codec (members_of 3%nat) (zero model_codec) /\
  CompletionResponse.Choices resp
    = stores (slice_codec (ptr_codec CompletionChoice_codec)) (members_of 4%nat) None /\
  CompletionResponse.Usage resp = stores (ptr_codec usage_codec) (members_of 5%nat) None.

End Response.

(** *** What a body says

    The spec has the response "with all fields populated from the parsed JSON
    body".  The definitions below follow these words and not the decoder:
    they read the value of each field off the document itself, for a body in
    which no two keys select the same field. *)

(** The string that a document is; the empty string when it is none. *)
Definition read_string (j : json) : string :=
  match j with
  | JStr s => s
  | _ => ""
  end.

(** The unsigned integer that a document is the literal of; zero when it is
    none. *)
Definition read_uint64 (j : json) : Z :=
  match j with
  | JNum lit => default 0 (ParseUint lit 64)
  | _ => 0
  end.

(** The integer that a document is the literal of; zero when it is none. *)
Definition read_int (j : json) : Z :=
  match j with
  | JNum lit => default 0 (ParseInt lit 64)
  | _ => 0
  end.

(** The 32-bit float that a document is the literal of; zero when it is
    none. *)
Definition read_float32 `{FloatText} (j : json) : spec_float :=
  match j with
  | JNum lit => default (S754_zero false) (ParseFloat lit 32)
  | _ => S754_zero false
  end.

(** The entries of an array, each read by [read], in the order of the array;
    nil when the document is no array. *)
Definition read_array {A : Type} (read : json -> A) (j : json) : slice A :=
  match j with
  | JArr js => slice_of (map read js)
  | _ => None
  end.

(** The members of an object as a map, each value read by [read], a later
    member replacing an earlier one of the same key; nil when the document is
    no object. *)
Definition read_map {A : Type} (read : json -> A) (j : json) : option (gmap string A) :=
  match j with
  | JObj es =>
    Some (fold_left (fun m (kv : string * json) => <[kv.1 := read kv.2]> m) es ∅)
  | _ => None
  end.

(** The value of a field: that of its document when it has one, and [d]
    when no member selects the field. *)
Definition read_field {A : Type} (read : json -> A) (d : A) (js : list json) : A :=
  match js with
  | j :: _ => read j
  | [] => d
  end.

(** No two members of the object select the same field. *)
Definition once (names : list string) (ms : list (string * json)) : bool :=
  bool_decide (NoDup (omap (fun kv : string * json => fieldIndex names kv.1) ms)).

Section Reading.
Context `{FloatText}.

(** The log probabilities that an object says; nil for [null]. *)
Definition read_logprobs (j : json) : option LogprobResult :=
  match j with
  | JObj ms =>
    let members_of := fun i => field_values LogprobResult_keys i ms in
    Some {| LogprobResult.Tokens :=
              read_field (read_array read_string) None (members_of 0%nat);
            LogprobResult.TokenLogprobs :=
              read_field (read_array read_float32) None (members_of 1%nat);
            LogprobResult.TopLogprobs :=
              read_field (read_array (read_map read_float32)) None (members_of 2%nat);
            LogprobResult.TextOffset :=
              read_field (read_array read_int) None (members_of 3%nat) |}
  | _ => None
  end.

(** Log probabilities are [null] or an object with each key once. *)
Definition plain_logprobs (j : json) : bool :=
  match j with
  | JNull => true
  | JObj ms => once LogprobResult_keys ms
  | _ => false
  end.

(** The choice that an object says; nil for [null]. *)
Definition read_choice (j : json) : option CompletionChoice :=
  match j with
  | JObj ms =>
    let members_of := fun i => field_values CompletionChoice_keys i ms in
    Some {| CompletionChoice.Text := read_field read_string "" (members_of 0%nat);
            CompletionChoice.Index := read_field read_int 0 (members_of 1%nat);
            CompletionChoice.FinishReason := read_field read_string "" (members_of 2%nat);
            CompletionChoice.LogProbs := read_field read_logprobs None (members_of 3%nat) |}
  | _ => None
  end.

(** A choice is [null] or an object with each key once and plain log
    probabilities. *)
Definition plain_choice (j : json) : bool :=
  match j with
  | JNull => true
  | JObj ms =>
    once CompletionChoice_keys ms &&
    forallb plain_logprobs (field_values CompletionChoice_keys 3 ms)
  | _ => false
  end.

(** The choices are an array of plain choices, if they are an array. *)
Definition plain_choices (j : json) : bool :=
  match j with
  | JArr js => forallb plain_choice js
  | _ => true
  end.

(** The body has each key once, and plain choices. *)
Definition plain_body (ms : list (string * json)) : bool :=
  once CompletionResponse_keys ms &&
  forallb plain_choices (field_values CompletionResponse_keys 4 ms).

End Reading.

Section ReadResponse.
Context `{FloatText} `{Repo} {T : Type} `{ModelID T}.

(** Every field of [resp] holds what the body says for it: the identifier
    and the creation time as the body has them, the choices entry by entry in
    the order of the array, each with its text, index, finish reason and log
    probabilities; a field that no member selects is zero.  What the object
    tag, the model identifier and the usage make of their one document is for
    their packages to say. *)
Definition read_from (ms : list (string * json)) (resp : CompletionResponse T) : Prop :=
  let members_of := fun i => field_values CompletionResponse_keys i ms in
  CompletionResponse.ID resp = read_field read_string "" (members_of 0%nat) /\
  CompletionResponse.Object resp
    = read_field (fun j => (decode object_codec j (zero object_codec)).1)
        (zero object_codec) (members_of 1%nat) /\
  CompletionResponse.Created resp = read_field read_uint64 0 (members_of 2%nat) /\
  CompletionResponse.Model resp
    = read_field (fun j => (decode model_codec j (zero model_codec)).1)
        (zero model_codec) (members_of 3%nat) /\
  CompletionResponse.Choices resp
    = read_field (read_array read_choice) None (members_of 4%nat) /\
  CompletionResponse.Usage resp
    = read_field (fun j => (decode (ptr_codec usage_codec) j None).1) None
        (members_of 5%nat).

End ReadResponse.

(** Two responses that differ in the model identifier at most. *)
Definition same_but_model `{Packages} {T1 T2 : Type}
  (r1 : CompletionResponse T1) (r2 : CompletionResponse T2) : Prop :=
  CompletionResponse.ID r1 = CompletionResponse.ID r2 /\
  CompletionResponse.Object r1 = CompletionResponse.Object r2 /\
  CompletionResponse.Created r1 = CompletionResponse.Created r2 /\
  CompletionResponse.Choices r1 = CompletionResponse.Choices r2 /\
  CompletionResponse.Usage r1 = CompletionResponse.Usage r2.

(** Two results of the transport operation that differ in the model
    identifier at most, when both carry a response. *)
Definition same_result `{Packages} {T1 T2 : Type}
  (x : option (CompletionResponse T1) * option error)
  (y : option (CompletionResponse T2) * option error) : Prop :=
  match x, y with
  | (Some r1, None), (Some r2, None) => same_but_model r1 r2
  | (None, Some _), _ | _, (None, Some _) => True
  | _, _ => False
  end.

(** Ascending, as a sequence of indexes. *)
Definition ascending (l : list Z) : Prop :=
  forall i j a b, l !! i = Some a -> l !! j = Some b -> (i < j)%nat -> a < b.

(** The indexes of the choices of a slice; a nil pointer has none. *)
Definition indexes (cs : list (option CompletionChoice)) : list Z :=
  omap (fmap CompletionChoice.Index) cs.

End Props.

(** ** Sample values *)

Module Samples.
Import Bytes Strconv DecimalFloat JSON Codec openai Spec Props.

(** The request of the scenario: a model, the prompt "Say hi" and at most
    five tokens, everything else unset. *)
Definition say_hi {T : Type} (m : T) : CompletionRequest T :=
  {| CompletionRequest.Model := m;
     CompletionRequest.Prompt := "Say hi";
     CompletionRequest.Suffix := "";
     CompletionRequest.MaxTokens := 5;
     CompletionRequest.Temperature := None;
     CompletionRequest.TopP := None;
     CompletionRequest.N := 0;
     CompletionRequest.Stream := false;
     CompletionRequest.LogProbs := None;
     CompletionRequest.Echo := false;
     CompletionRequest.Stop := None;
     CompletionRequest.PresencePenalty := S754_zero false;
     CompletionRequest.FrequencyPenalty := S754_zero false;
     CompletionRequest.BestOf := 0;
     CompletionRequest.LogitBias := None;
     CompletionRequest.User := "" |}.

Definition davinci : Completion := StockModel "text-davinci-003".

(** The float 0.5 at 64 bits, and -0.5 and 2.5 at 32 bits. *)
Definition half : spec_float := S754_finite false 4503599627370496 (-53).

Definition minus_half32 : spec_float := S754_finite true 8388608 (-24).

Definition two_and_half32 : spec_float := S754_finite false 10485760 (-22).

(** A request with every field set: temperature and logprobs at an explicit
    zero, and values outside the documented ranges: five stop sequences, a
    frequency penalty of 2.5, a bias of -1000, and best_of below n. *)
Definition everything : CompletionRequest Completion :=
  {| CompletionRequest.Model := davinci;
     CompletionRequest.Prompt := "Say hi";
     CompletionRequest.Suffix := "!";
     CompletionRequest.MaxTokens := 5;
     CompletionRequest.Temperature := Some (S754_zero false);
     CompletionRequest.TopP := Some half;
     CompletionRequest.N := 3;
     CompletionRequest.Stream := true;
     CompletionRequest.LogProbs := Some 0;
     CompletionRequest.Echo := true;
     CompletionRequest.Stop := slice_of ["a"; "b"; "c"; "d"; "e"];
     CompletionRequest.PresencePenalty := minus_half32;
     CompletionRequest.FrequencyPenalty := two_and_half32;
     CompletionRequest.BestOf := 2;
     CompletionRequest.LogitBias := Some (<["50256" := -1000]> (<["11" := 7]> ∅));
     CompletionRequest.User := "u-1" |}.

(** The encoding of that request. *)
Definition everything_json : json :=
  JObj [("model", JStr "text-davinci-003");
        ("prompt", JStr "Say hi");
        ("suffix", JStr "!");
        ("max_tokens", JNum "5");
        ("temperature", JNum "0");
        ("top_p", JNum "0.5");
        ("n", JNum "3");
        ("stream", JBool true);
        ("logprobs", JNum "0");
        ("echo", JBool true);
        ("stop", JArr [JStr "a"; JStr "b"; JStr "c"; JStr "d"; JStr "e"]);
        ("presence_penalty", JNum "-0.5");
        ("frequency_penalty", JNum "2.5");
        ("best_of", JNum "2");
        ("logit_bias", JObj [("11", JNum "7"); ("50256", JNum "-1000")]);
        ("user", JStr "u-1")].

(** The encoding of a request with a model, a prompt and a token limit. *)
Definition say_hi_json : json :=
  JObj [("model", JStr "text-davinci-003"); ("prompt", JStr "Say hi");
        ("max_tokens", JNum "5")].

(** A prompt that is one byte, 0xFF: no valid UTF-8. *)
Definition latin1_prompt : CompletionRequest Completion :=
  CompletionRequest.set_Prompt (String (byte_of 255) "") (say_hi davinci).

(** A presence penalty that is NaN. *)
Definition nan_penalty : CompletionRequest Completion :=
  CompletionRequest.set_PresencePenalty S754_nan (say_hi davinci).

(** Stop sequences set to a slice that is empty and not nil. *)
Definition empty_stop : CompletionRequest Completion :=
  CompletionRequest.set_Stop (slice_of []) (say_hi davinci).

(** The response body of the scenario. *)
Definition hi_body : string :=
  text ("{'id':'cmpl-1','object':'text_completion','created':1600000000," +:+
        "'model':'text-davinci-003','choices':[{'text':'Hi!','index':0," +:+
        "'finish_reason':'stop','logprobs':null}],'usage':{'total_tokens':7}}").

(** What the decoder makes of that body. *)
Definition hi_response : CompletionResponse Completion :=
  {| CompletionResponse.ID := "cmpl-1";
     CompletionResponse.Object := ObjectTag "text_completion";
     CompletionResponse.Created := 1600000000;
     CompletionResponse.Model := davinci;
     CompletionResponse.Choices :=
       slice_of [Some {| CompletionChoice.Text := "Hi!";
                         CompletionChoice.Index := 0;
                         CompletionChoice.FinishReason := "stop";
                         CompletionChoice.LogProbs := None |}];
     CompletionResponse.Usage := Some UsageCounts |}.

(** A body that stops in the middle. *)
Definition truncated_body : string := text "{'id':'cmpl-1','choices':[{'text':'Hi".

(** A body whose choices come with index 1 before index 0. *)
Definition swapped_body : string :=
  text "{'id':'cmpl-2','choices':[{'text':'b','index':1},{'text':'a','index':0}]}".

(** What the decoder makes of that body: the choices as the body has
    them. *)
Definition swapped_response : CompletionResponse Completion :=
  {| CompletionResponse.ID := "cmpl-2";
     CompletionResponse.Object := ObjectTag "";
     CompletionResponse.Created := 0;
     CompletionResponse.Model := StockModel "";
     CompletionResponse.Choices :=
       slice_of [Some {| CompletionChoice.Text := "b";
                         CompletionChoice.Index := 1;
                         CompletionChoice.FinishReason := "";
                         CompletionChoice.LogProbs := None |};
                 Some {| CompletionChoice.Text := "a";
                         CompletionChoice.Index := 0;
                         CompletionChoice.FinishReason := "";
                         CompletionChoice.LogProbs := None |}];
     CompletionResponse.Usage := None |}.

(** Log probabilities with two tokens, three probabilities, one map of
    alternatives and no offset. *)
Definition uneven_logprobs : list (string * json) :=
  [("tokens", JArr [JStr "Hi"; JStr "!"]);
   ("token_logprobs", JArr [JNum "-0.5"; JNum "-0.25"; JNum "-2"]);
   ("top_logprobs", JArr [JObj [("Hi", JNum "-0.5")]]);
   ("text_offset", JArr [])].

(** A client whose [post] fails: connection refused. *)
Definition refused : Client := answering "" (Some (OtherError "connection refused")).

(** A response body with every field set: a choice with log probabilities
    and a choice that is [null]. *)
Definition full_body : string :=
  text ("{'id':'cmpl-7','object':'text_completion','created':1700000000," +:+
        "'model':'text-davinci-003','choices':[{'text':'Hi','index':1," +:+
        "'finish_reason':'length','logprobs':{'tokens':['Hi']," +:+
        "'token_logprobs':[-0.5],'top_logprobs':[{'Hi':-0.5}]," +:+
        "'text_offset':[3]}},null],'usage':{}}").

(** The document of that body. *)
Definition full_members : list (string * json) :=
  [("id", JStr "cmpl-7"); ("object", JStr "text_completion");
   ("created", JNum "1700000000"); ("model", JStr "text-davinci-003");
   ("choices",
    JArr [JObj [("text", JStr "Hi"); ("index", JNum "1");
                ("finish_reason", JStr "length");
                ("logprobs",
                 JObj [("tokens", JArr [JStr "Hi"]);
                       ("token_logprobs", JArr [JNum "-0.5"]);
                       ("top_logprobs", JArr [JObj [("Hi", JNum "-0.5")]]);
                       ("text_offset", JArr [JNum "3"])])];
          JNull]);
   ("usage", JObj [])].

(** What that body says. *)
Definition full_response : CompletionResponse Completion :=
  {| CompletionResponse.ID := "cmpl-7";
     CompletionResponse.Object := ObjectTag "text_completion";
     CompletionResponse.Created := 1700000000;
     CompletionResponse.Model := davinci;
     CompletionResponse.Choices :=
       slice_of [Some {| CompletionChoice.Text := "Hi";
                         CompletionChoice.Index := 1;
                         CompletionChoice.FinishReason := "length";
                         CompletionChoice.LogProbs :=
                           Some {| LogprobResult.Tokens := slice_of ["Hi"];
                                   LogprobResult.TokenLogprobs := slice_of [minus_half32];
                                   LogprobResult.TopLogprobs :=
                                     slice_of [Some {[ "Hi" := minus_half32 ]}];
                                   LogprobResult.TextOffset := slice_of [3] |} |};
                 None];
     CompletionResponse.Usage := Some UsageCounts |}.

(** The document of the body of the scenario. *)
Definition hi_members : list (string * json) :=
  [("id", JStr "cmpl-1"); ("object", JStr "text_completion");
   ("created", JNum "1600000000"); ("model", JStr "text-davinci-003");
   ("choices",
    JArr [JObj [("text", JStr "Hi!"); ("index", JNum "0");
                ("finish_reason", JStr "stop"); ("logprobs", JNull)]]);
   ("usage", JObj [("total_tokens", JNum "7")])].

(** The document of the body with the choices swapped. *)
Definition swapped_members : list (string * json) :=
  [("id", JStr "cmpl-2");
   ("choices",
    JArr [JObj [("text", JStr "b"); ("index", JNum "1")];
          JObj [("text", JStr "a"); ("index", JNum "0")]])].

End Samples.

(** ** More vocabulary: the shapes of bodies and of the values decoded *)

Module Shapes.
Import Bytes UTF8 Strconv JSON Codec openai Props.

(** The decoder stores [j] into no value of the type without an error. *)
Definition refuses {A : Type} (c : codec A) (j : json) : Prop :=
  forall v, (decode c j v).2 <> None.

(** The members of an object whose key selects a field of the struct. *)
Definition known (names : list string) (ms : list (string * json))
  : list (string * json) :=
  filter (fun kv : string * json => is_Some (fieldIndex names kv.1)) ms.

(** The key [k] selects the field that the struct tags name [name]. *)
Definition selects (names : list string) (k name : string) : Prop :=
  exists i, fieldIndex names k = Some i /\ names !! i = Some name.

(** A document that is neither [null] nor a string. *)
Definition not_a_string (j : json) : Prop :=
  match j with
  | JNull | JStr _ => False
  | _ => True
  end.

(** A document that is neither [null] nor the literal of a value of
    [uint64]: another kind of document, or a number with a sign, a fraction,
    an exponent or too many digits. *)
Definition not_a_uint64 (j : json) : Prop :=
  match j with
  | JNull => False
  | JNum lit => ParseUint lit 64 = None
  | _ => True
  end.

(** A document that is neither [null] nor the literal of a value of [int]. *)
Definition not_an_int (j : json) : Prop :=
  match j with
  | JNull => False
  | JNum lit => ParseInt lit 64 = None
  | _ => True
  end.

(** A document that is neither [null] nor an array. *)
Definition not_an_array (j : json) : Prop :=
  match j with
  | JNull | JArr _ => False
  | _ => True
  end.

(** A document that is neither [null] nor an object. *)
Definition not_an_object (j : json) : Prop :=
  match j with
  | JNull | JObj _ => False
  | _ => True
  end.

(** A member of the body of a response that selects [id], [created] or
    [choices] and is of a kind that the field does not take. *)
Definition misfit (k : string) (j : json) : Prop :=
  (selects CompletionResponse_keys k "id" /\ not_a_string j) \/
  (selects CompletionResponse_keys k "created" /\ not_a_uint64 j) \/
  (selects CompletionResponse_keys k "choices" /\ not_an_array j).

(** A member of the object of a choice that is of a kind that its field does
    not take. *)
Definition choice_misfit (k : string) (j : json) : Prop :=
  (selects CompletionChoice_keys k "text" /\ not_a_string j) \/
  (selects CompletionChoice_keys k "index" /\ not_an_int j) \/
  (selects CompletionChoice_keys k "finish_reason" /\ not_a_string j) \/
  (selects CompletionChoice_keys k "logprobs" /\ not_an_object j).

(** An entry of [choices] that is neither [null] nor an object, or an object
    with such a member. *)
Definition bad_choice (j : json) : Prop :=
  not_an_object j \/
  exists cms k j', j = JObj cms /\ (k, j') ∈ cms /\ choice_misfit k j'.

(** Every string of a document, the keys of its objects among them, is
    valid UTF-8. *)
Fixpoint valid_strings (j : json) : bool :=
  match j with
  | JStr s => ValidString s
  | JArr js => forallb valid_strings js
  | JObj ms => forallb (fun kv => let '(k, v) := kv in ValidString k && valid_strings v) ms
  | _ => true
  end.

(** A slice with no room to spare: nil, or as long as its backing array. *)
Definition tight {A : Type} (s : slice A) : Prop := backing s = elems s.

Section Values.
Context `{FloatText}.

(** The log-probabilities that come back from their encoding: slices with no
    room to spare, strings and keys in valid UTF-8, floats that are finite
    and come back from their text. *)
Record LogprobResult_ok (l : LogprobResult) : Prop := {
  ok_Tokens : tight (LogprobResult.Tokens l) /\
    Forall (fun s => ValidString s = true) (elems (LogprobResult.Tokens l));
  ok_TokenLogprobs : tight (LogprobResult.TokenLogprobs l) /\
    Forall (float_text_ok 32) (elems (LogprobResult.TokenLogprobs l));
  ok_TopLogprobs : tight (LogprobResult.TopLogprobs l) /\
    Forall (fun m : option (gmap string spec_float) =>
              forall k v, default ∅ m !! k = Some v ->
                          ValidString k = true /\ float_text_ok 32 v)
           (elems (LogprobResult.TopLogprobs l));
  ok_TextOffset : tight (LogprobResult.TextOffset l) /\
    Forall is_int (elems (LogprobResult.TextOffset l))
}.

Record CompletionChoice_ok (c : CompletionChoice) : Prop := {
  ok_Text : ValidString (CompletionChoice.Text c) = true;
  ok_Index : is_int (CompletionChoice.Index c);
  ok_FinishReason : ValidString (CompletionChoice.FinishReason c) = true;
  ok_LogProbs : forall l, CompletionChoice.LogProbs c = Some l -> LogprobResult_ok l
}.

End Values.

Section Response.
Context `{FloatText} `{Repo} {T : Type} `{ModelID T}.

(** The responses that come back from their encoding.  What makes the model
    identifier, the object tag and the usage come back is for their packages
    to say. *)
Record CompletionResponse_ok (r : CompletionResponse T) : Prop := {
  ok_ID : ValidString (CompletionResponse.ID r) = true;
  ok_Object : roundtrips object_codec (CompletionResponse.Object r);
  ok_Created : is_uint64 (CompletionResponse.Created r);
  ok_Model : roundtrips model_codec (CompletionResponse.Model r);
  ok_Choices : tight (CompletionResponse.Choices r) /\
    Forall (fun p : option CompletionChoice => forall c, p = Some c -> CompletionChoice_ok c)
           (elems (CompletionResponse.Choices r));
  ok_Usage : forall u, CompletionResponse.Usage r = Some u -> roundtrips usage_codec u
}.

End Response.

(** A choice with the log probabilities of two tokens; the second token has
    no map of alternatives. *)
Definition hi_choice : CompletionChoice :=
  {| CompletionChoice.Text := "Hi!";
     CompletionChoice.Index := 0;
     CompletionChoice.FinishReason := "stop";
     CompletionChoice.LogProbs :=
       Some {| LogprobResult.Tokens := slice_of ["Hi"; "!"];
               LogprobResult.TokenLogprobs :=
                 slice_of [Samples.minus_half32; S754_finite true 8388608 (-25)];
               LogprobResult.TopLogprobs :=
                 slice_of [Some {[ "Hi" := Samples.minus_half32 ]}; None];
               LogprobResult.TextOffset := slice_of [0; 2] |} |}.

End Shapes.

(** ** Facts about the scanner: the fuel is never what stops it *)

Module ScannerFacts.
Import Bytes UTF8 JSON.

(** Case analysis on the first test that a hypothesis is stuck on. *)
Ltac break H :=
  match type of H with
  | context [match ?x with _ => _ end] =>
    match x with
    | context [match _ with _ => _ end] => fail 1
    | _ => let E := fresh "E" in destruct x eqn:E; try discriminate H
    end
  end.

Lemma skip_ws_length (s : string) : (String.length (skip_ws s) <= String.length s)%nat.
Proof.
  induction s as [|c r IH]; simpl; [lia|]. destruct (isSpace c); simpl; lia.
Qed.

Lemma span_digits_length (s d rest : string) :
  span_digits s = (d, rest) -> (String.length rest <= String.length s)%nat.
Proof.
  revert d rest. induction s as [|c r IH]; simpl; intros d rest Hs.
  - injection Hs as <- <-. simpl. lia.
  - destruct (between 48 57 c).
    + destruct (span_digits r) as [d' rest'] eqn:E. injection Hs as <- <-.
      specialize (IH _ _ eq_refl). lia.
    + injection Hs as <- <-. simpl. lia.
Qed.

Lemma scan_string_length (s : string) : forall st body rest,
  scan_string st s = Some (body, rest) -> (String.length rest < String.length s)%nat.
Proof.
  induction s as [|c r IH]; intros st body rest Hs; [discriminate|].
  simpl in Hs.
  assert (forall st', match scan_string st' r with
                      | Some (body0, rest0) => Some (String c body0, rest0)
                      | None => None
                      end = Some (body, rest) ->
                      (String.length rest < String.length (String c r))%nat) as Hkeep.
  { intros st' Hk. destruct (scan_string st' r) as [[b0 r0]|] eqn:E; [|discriminate].
    injection Hk as <- <-. specialize (IH _ _ _ E). simpl. lia. }
  destruct st as [|[|n]];
    repeat first [ solve [eapply Hkeep; exact Hs] | break Hs ].
  injection Hs as <- <-. simpl. lia.
Qed.

Lemma string_at_length (s v rest : string) :
  string_at s = Some (v, rest) -> (String.length rest < String.length s)%nat.
Proof.
  unfold string_at. intros Hs. repeat break Hs. injection Hs as <- <-.
  match goal with E : scan_string _ _ = Some _ |- _ => apply scan_string_length in E end.
  simpl. lia.
Qed.

Lemma strip_prefix_length (p s rest : string) :
  strip_prefix p s = Some rest ->
  (String.length rest + String.length p = String.length s)%nat.
Proof.
  revert s. induction p as [|a p IH]; intros s Hs; simpl in *.
  - injection Hs as <-. lia.
  - destruct s as [|b s]; [discriminate|]. destruct (Ascii.eqb a b); [|discriminate].
    specialize (IH _ Hs). simpl. lia.
Qed.

Lemma scan_number_length (s lit rest : string) :
  scan_number s = Some (lit, rest) -> (String.length rest < String.length s)%nat.
Proof.
  unfold scan_number. intros Hs.
  repeat break Hs;
    repeat match goal with
    | E : (_, _) = (_, _) |- _ => injection E as <- <-
    | E : Some _ = Some _ |- _ => injection E as <- <-
    | E : span_digits _ = _ |- _ => apply span_digits_length in E
    end; simpl in *; try lia.
Qed.

Ltac reuse :=
  repeat match goal with
  | E : ?x = _ |- context [match ?x with _ => _ end] => rewrite E
  | E : ?x = _ |- context [if ?x then _ else _] => rewrite E
  end.

Ltac lengths IHv IHm IHe :=
  repeat match goal with
  | E : value _ _ _ = Some _ |- _ =>
    let L := fresh "L" in pose proof E as L; apply IHv in L; destruct L; revert E
  | E : members _ _ _ _ = Some _ |- _ =>
    let L := fresh "L" in pose proof E as L; apply IHm in L; destruct L; revert E
  | E : elements _ _ _ _ = Some _ |- _ =>
    let L := fresh "L" in pose proof E as L; apply IHe in L; destruct L; revert E
  | E : string_at _ = Some _ |- _ =>
    let L := fresh "L" in pose proof E as L; apply string_at_length in L; revert E
  | E : scan_number _ = Some _ |- _ =>
    let L := fresh "L" in pose proof E as L; apply scan_number_length in L; revert E
  | E : strip_prefix _ _ = Some _ |- _ =>
    let L := fresh "L" in pose proof E as L; apply strip_prefix_length in L; revert E
  | E : skip_ws ?x = _ |- _ =>
    let L := fresh "L" in pose proof (skip_ws_length x) as L; rewrite E in L; revert E
  | E : Some _ = Some _ |- _ => injection E as <- <-
  end; intros;
  repeat match goal with
  | H : context [skip_ws ?x] |- _ =>
    lazymatch goal with
    | _ : (String.length (skip_ws x) <= String.length x)%nat |- _ => fail
    | _ => pose proof (skip_ws_length x)
    end
  end.

Ltac enough_fuel unfold_one :=
  let f' := fresh "f'" in
  let Hf' := fresh "Hf'" in
  split;
  [ simpl in *; lia
  | intros f' Hf'; destruct f' as [|f']; [simpl in *; lia|];
    unfold_one; reuse;
    repeat match goal with
    | Hfuel : forall f, _ -> ?g f _ _ = Some _ |- context [?g f' _ _] =>
      rewrite (Hfuel f') by (simpl in *; lia); reuse
    | Hfuel : forall f, _ -> ?g f _ _ _ = Some _ |- context [?g f' _ _ _] =>
      rewrite (Hfuel f') by (simpl in *; lia); reuse
    end;
    reflexivity ].

(** A value that is read with some fuel is read with any fuel that is at
    least the number of bytes the value takes. *)
Lemma fuel_enough (f : nat) :
  (forall d s j rest, value f d s = Some (j, rest) ->
     (String.length rest < String.length s)%nat /\
     forall f', (String.length s - String.length rest <= f')%nat ->
                value f' d s = Some (j, rest)) /\
  (forall d s acc j rest, members f d s acc = Some (j, rest) ->
     (String.length rest < String.length s)%nat /\
     forall f', (String.length s - String.length rest <= f')%nat ->
                members f' d s acc = Some (j, rest)) /\
  (forall d s acc j rest, elements f d s acc = Some (j, rest) ->
     (String.length rest < String.length s)%nat /\
     forall f', (String.length s - String.length rest <= f')%nat ->
                elements f' d s acc = Some (j, rest)).
Proof.
  induction f as [|f (IHv & IHm & IHe)]; [repeat split; discriminate|].
  split; [|split].
  - intros d s j rest Hv. destruct s as [|c r]; [discriminate|].
    cbn [value] in Hv. pose proof (skip_ws_length r) as Hws.
    repeat break Hv; lengths IHv IHm IHe; enough_fuel ltac:(cbn [value]).
  - intros d s acc j rest Hm. cbn [members] in Hm.
    repeat break Hm; lengths IHv IHm IHe; enough_fuel ltac:(cbn [members]).
  - intros d s acc j rest He. cbn [elements] in He.
    repeat break He; lengths IHv IHm IHe; enough_fuel ltac:(cbn [elements]).
Qed.

(** The fuel that [parse] gives [value] is enough for every text. *)
Lemma parse_fuel (data : string) (f : nat) (j : json) (rest : string) :
  value f 0 (skip_ws data) = Some (j, rest) ->
  value (S (String.length data)) 0 (skip_ws data) = Some (j, rest).
Proof.
  intros Hv. destruct (fuel_enough f) as (IHv & _ & _).
  destruct (IHv _ _ _ _ Hv) as [_ Hf]. apply Hf.
  pose proof (skip_ws_length data). lia.
Qed.

Lemma sdrop_length (n : nat) (s : string) :
  String.length (sdrop n s) = (String.length s - n)%nat.
Proof.
  revert s. induction n as [|n IH]; intros [|c r]; simpl; try lia. apply IH.
Qed.

(** The fuel that [unquote] gives [unescape] is enough for every body. *)
Lemma unescape_fuel (f : nat) :
  forall s v, unescape f s = Some v ->
  forall f', (String.length s < f')%nat -> unescape f' s = Some v.
Proof.
  induction f as [|f IH]; [discriminate|].
  intros s v Hu f' Hf'. destruct f' as [|f']; [lia|].
  cbn [unescape] in *.
  repeat break Hu;
    repeat match goal with
    | H : _ <$> unescape f ?x = Some _ |- _ =>
      let E := fresh "E" in
      destruct (unescape f x) eqn:E; [|discriminate H];
      rewrite (IH _ _ E f') by (rewrite ?sdrop_length; simpl in *; lia)
    end; try exact Hu.
Qed.

End ScannerFacts.

(** ** Facts about unicode/utf8 and strconv *)

Module UTF8Facts.
Import Bytes UTF8.

Lemma coerce_valid (s : string) : forall k, valid_from k s = true -> coerce k s = s.
Proof.
  induction s as [|c r IH]; intros k Hv; [reflexivity|].
  destruct k as [|k]; cbn [coerce valid_from] in *.
  - destruct (runeLen (String c r)) as [|n]; [discriminate|].
    f_equal. now apply IH.
  - f_equal. now apply IH.
Qed.

Lemma toValidUTF8_valid (s : string) : ValidString s = true -> toValidUTF8 s = s.
Proof. apply coerce_valid. Qed.

End UTF8Facts.

Module StrconvFacts.
Import Bytes Strconv.

Lemma digits_from_acc (d : uint) : forall acc : positive,
  digits_from (Zpos acc) (NilEmpty.string_of_uint d) = Some (Zpos (Pos.of_uint_acc d acc)).
Proof.
  induction d; intros acc; simpl; try reflexivity;
    unfold digit; simpl; rewrite <- IHd; f_equal; unfold byte_val; simpl N_of_ascii; lia.
Qed.

Lemma digits_from_uint (d : uint) :
  digits_from 0 (NilEmpty.string_of_uint d) = Some (Z.of_N (Pos.of_uint d)).
Proof.
  induction d; simpl; try reflexivity; try exact IHd;
    unfold digit; simpl; apply digits_from_acc.
Qed.

Lemma digits_pos (p : positive) :
  digits (NilEmpty.string_of_uint (Pos.to_uint p)) = Some (Zpos p).
Proof.
  unfold digits.
  destruct (NilEmpty.string_of_uint (Pos.to_uint p)) eqn:E.
  - exfalso. pose proof (digits_from_uint (Pos.to_uint p)) as H.
    rewrite E in H. simpl in H. rewrite DecimalPos.Unsigned.of_to in H. discriminate.
  - rewrite <- E, digits_from_uint, DecimalPos.Unsigned.of_to. reflexivity.
Qed.

Lemma to_uint_nonnil (p : positive) : Pos.to_uint p <> Nil.
Proof.
  intros E. pose proof (DecimalPos.Unsigned.of_to p) as H. rewrite E in H. discriminate.
Qed.

Lemma FormatInt_pos (p : positive) :
  FormatInt (Zpos p) = NilEmpty.string_of_uint (Pos.to_uint p).
Proof.
  unfold FormatInt. simpl. unfold NilZero.string_of_uint.
  pose proof (to_uint_nonnil p). destruct (Pos.to_uint p); congruence.
Qed.

Lemma FormatInt_neg (p : positive) :
  FormatInt (Zneg p) = String "-" (NilEmpty.string_of_uint (Pos.to_uint p)).
Proof.
  unfold FormatInt. simpl. unfold NilZero.string_of_uint.
  pose proof (to_uint_nonnil p). destruct (Pos.to_uint p); congruence.
Qed.

(** A string of digits starts with neither sign. *)
Lemma digits_head (c : ascii) (r : string) (n : Z) :
  digits (String c r) = Some n -> Ascii.eqb c "+" = false /\ Ascii.eqb c "-" = false.
Proof.
  unfold digits. simpl. unfold digit.
  destruct (between 48 57 c) eqn:B; [|discriminate]. intros _.
  split; apply Ascii.eqb_neq; intros ->; discriminate.
Qed.

Lemma ParseInt_FormatInt (i : Z) : is_int i -> ParseInt (FormatInt i) 64 = Some i.
Proof.
  intros [Hlo Hhi]. destruct i as [|p|p].
  - reflexivity.
  - rewrite FormatInt_pos. pose proof (digits_pos p) as D.
    destruct (NilEmpty.string_of_uint (Pos.to_uint p)) as [|c r] eqn:E; [discriminate|].
    destruct (digits_head _ _ _ D) as [Hp Hm].
    unfold ParseInt. rewrite Hp, Hm. simpl orb. cbv iota. rewrite D.
    destruct (Z.ltb_spec (Zpos p) (2 ^ (64 - 1))); [reflexivity|lia].
  - rewrite FormatInt_neg. unfold ParseInt. simpl Ascii.eqb. simpl orb. cbv iota.
    rewrite digits_pos.
    destruct (Z.leb_spec (Zpos p) (2 ^ (64 - 1))); [reflexivity|lia].
Qed.

Lemma ParseUint_FormatInt (i : Z) : is_uint64 i -> ParseUint (FormatInt i) 64 = Some i.
Proof.
  intros [Hlo Hhi]. destruct i as [|p|p]; [reflexivity| |lia].
  rewrite FormatInt_pos. unfold ParseUint. rewrite digits_pos.
  destruct (Z.ltb_spec (Zpos p) (2 ^ 64)); [reflexivity|lia].
Qed.

End StrconvFacts.

Module CodecFacts.
Import Bytes UTF8 Strconv JSON Codec Props UTF8Facts StrconvFacts.

Lemma saveError_None_r (e : option error) : saveError e None = e.
Proof. now destruct e. Qed.

Lemma roundtrips_string (s : string) :
  ValidString s = true -> roundtrips string_codec s.
Proof.
  intros Hv. exists (JStr s). simpl. rewrite toValidUTF8_valid by assumption.
  repeat split; discriminate.
Qed.

Lemma roundtrips_bool (b : bool) : roundtrips bool_codec b.
Proof. exists (JBool b). repeat split; discriminate. Qed.

Lemma roundtrips_int (i : Z) : is_int i -> roundtrips int_codec i.
Proof.
  intros Hi. exists (JNum (FormatInt i)). simpl.
  rewrite ParseInt_FormatInt by assumption. repeat split; discriminate.
Qed.

Lemma roundtrips_float `{FloatText} (bitSize : Z) (f : spec_float) :
  float_text_ok bitSize f -> roundtrips (float_codec bitSize) f.
Proof.
  intros [Hf Hp]. exists (JNum (FormatFloat f bitSize)). simpl. rewrite Hp.
  destruct f; try discriminate; repeat split; discriminate.
Qed.

Lemma roundtrips_ptr {A : Type} (c : codec A) (v : A) :
  roundtrips c v -> roundtrips (ptr_codec c) (Some v).
Proof.
  intros (j & He & Hn & Hd). exists j. simpl. rewrite Hd.
  repeat split; try assumption. now destruct j.
Qed.

Lemma roundtrips_elems {A : Type} (c : codec A) (l : list A) :
  Forall (roundtrips c) l ->
  exists js, collect (map (encode c) l) = Ok js /\ decode_elems c js [] = (l, None).
Proof.
  induction 1 as [|v l (j & He & Hn & Hd) _ (js & Hc & Hds)].
  - now exists [].
  - exists (j :: js). simpl. rewrite He, Hc. simpl. rewrite Hd, Hds. now split.
Qed.

Lemma roundtrips_slice {A : Type} (c : codec A) (l : list A) :
  Forall (roundtrips c) l -> roundtrips (slice_codec c) (slice_of l).
Proof.
  intros Hl. destruct (roundtrips_elems c l Hl) as (js & Hc & Hd).
  exists (JArr js). simpl. rewrite Hc. simpl. split; [reflexivity|]. split; [discriminate|].
  destruct js as [|j js].
  - simpl in Hd. now injection Hd as <-.
  - rewrite Hd. now rewrite drop_nil.
Qed.

(** The members written for the entries of a map, decoded again. *)
Lemma roundtrips_entries {A : Type} (c : codec A) (l : list (string * A)) :
  Forall (fun kv => ValidString kv.1 = true /\ roundtrips c kv.2) l ->
  exists ms,
    collect (map (fun kv : string * A => j <-! encode c kv.2; Ok (toValidUTF8 kv.1, j)) l)
      = Ok ms /\
    forall m, decode_entries c ms m
      = (fold_left (fun m' (kv : string * A) => <[kv.1 := kv.2]> m') l m, None).
Proof.
  induction 1 as [|[k v] l [Hk (j & He & Hn & Hd)] _ (ms & Hc & Hds)].
  - now exists [].
  - exists ((k, j) :: ms). simpl in *. rewrite He. simpl. rewrite Hc. simpl.
    rewrite toValidUTF8_valid by assumption. split; [reflexivity|].
    intros m. rewrite Hd, Hds. reflexivity.
Qed.

Lemma fold_left_insert {A : Type} (l : list (string * A)) :
  fold_left (fun (m' : gmap string A) (kv : string * A) => <[kv.1 := kv.2]> m') l ∅
  = list_to_map (rev l).
Proof.
  rewrite <- fold_left_rev_right. reflexivity.
Qed.

Lemma sorted_entries_to_map {A : Type} (m : gmap string A) :
  list_to_map (rev (sorted_entries m)) = m.
Proof.
  symmetry. apply list_to_map_flip. rewrite <- Permutation_rev.
  unfold sorted_entries. now rewrite merge_sort_Permutation.
Qed.

Lemma roundtrips_map {A : Type} (c : codec A) (m : gmap string A) :
  (forall k v, m !! k = Some v -> ValidString k = true /\ roundtrips c v) ->
  roundtrips (map_codec c) (Some m).
Proof.
  intros Hm.
  destruct (roundtrips_entries c (sorted_entries m)) as (ms & Hc & Hd).
  { apply Forall_forall. intros [k v] Hin. apply Hm.
    apply elem_of_map_to_list. unfold sorted_entries in Hin.
    now rewrite merge_sort_Permutation in Hin. }
  exists (JObj ms). simpl. rewrite Hc. simpl. rewrite Hd, fold_left_insert.
  rewrite sorted_entries_to_map. repeat split; discriminate.
Qed.

End CodecFacts.

Module StructFacts.
Import Bytes UTF8 Strconv JSON Codec Props UTF8Facts StrconvFacts CodecFacts.

Lemma decode_members_app {S : Type} names store (ms1 ms2 : list (string * json)) (s : S) :
  decode_members names store (ms1 ++ ms2) s =
  let '(s1, e1) := decode_members names store ms1 s in
  let '(s2, e2) := decode_members names store ms2 s1 in
  (s2, saveError e1 e2).
Proof.
  revert s. induction ms1 as [|[k j] ms1 IH]; intros s; simpl.
  - now destruct (decode_members names store ms2 s).
  - destruct (match fieldIndex names k with Some i => store i j s | None => (s, None) end)
      as [s1 e]. rewrite IH.
    destruct (decode_members names store ms1 s1) as [s2 e2].
    destruct (decode_members names store ms2 s2) as [s3 e3].
    now destruct e, e2.
Qed.

(** [v] is encoded, and the encoding decodes into a zero value as [w]. *)
Definition kept {A : Type} (c : codec A) (v w : A) : Prop :=
  exists j, encode c v = Ok j /\ decode c j (zero c) = (w, None).

Lemma roundtrips_kept {A : Type} (c : codec A) (v : A) : roundtrips c v -> kept c v v.
Proof. intros (j & He & _ & Hd). now exists j. Qed.

(** What a field contributes to the encoding of its struct, and what the
    decoder makes of that contribution when the field is still zero. *)
Lemma member_decode {S A : Type} (c : codec A) names
  (store : nat -> json -> S -> S * option error) (k : string) (om : bool) (v : A)
  (i : nat) (get : S -> A) (set : A -> S -> S) (w : A) :
  fieldIndex names k = Some i ->
  (forall j s, store i j s = let '(x, e) := decode c j (get s) in (set x s, e)) ->
  (forall s, set (get s) s = s) ->
  (om && isEmptyValue c v = true -> w = zero c) ->
  (om && isEmptyValue c v = false -> kept c v w) ->
  exists m, member c k om v = Ok m /\
    forall s, get s = zero c -> decode_members names store m s = (set w s, None).
Proof.
  intros Hi Hstore Heta Hempty Hkept. unfold member.
  destruct (om && isEmptyValue c v) eqn:E.
  - exists []. split; [reflexivity|]. intros s Hz. simpl.
    rewrite (Hempty eq_refl), <- Hz, Heta. reflexivity.
  - destruct (Hkept eq_refl) as (j & He & Hd).
    exists [(k, j)]. rewrite He. split; [reflexivity|]. intros s Hz. simpl.
    rewrite Hi, Hstore, Hz, Hd. reflexivity.
Qed.

End StructFacts.


Module RequestFacts.
Import Bytes UTF8 Strconv JSON Codec openai Props.
Import UTF8Facts StrconvFacts CodecFacts StructFacts.

Section Request.
Context `{FloatText} {T : Type} `{ModelID T}.

Ltac field c k om v i get set w :=
  let m := fresh "m" in
  let E := fresh "E" in
  let D := fresh "D" in
  destruct (member_decode c CompletionRequest_keys CompletionRequest_store
              k om v i get set w) as (m & E & D);
  [ reflexivity | reflexivity | (intros []; reflexivity) | | | ].

Lemma roundtrips_strings (l : list string) :
  Forall (fun s => ValidString s = true) l -> Forall (roundtrips string_codec) l.
Proof. intros Hl. eapply Forall_impl; [exact Hl|]. intros s. apply roundtrips_string. Qed.

(** The decoder rebuilds the canonical form of a well-formed request from
    its encoding. *)
Lemma request_decode_encode (r : CompletionRequest T) :
  well_formed r ->
  exists j, Marshal CompletionRequest_codec r = Ok j /\
    decode CompletionRequest_codec j CompletionRequest_zero = (canon r, None).
Proof.
  intros [wModel wPrompt wSuffix wMaxTokens wTemperature wTopP wN wLogProbs wStop
           wPresence wFrequency wBestOf wLogitBias wUser].
  field (@model_codec T _) "model" false (CompletionRequest.Model r) 0%nat
    (@CompletionRequest.Model T) (@CompletionRequest.set_Model T) (CompletionRequest.Model r).
  { discriminate. } { intros _. now apply roundtrips_kept. }
  field string_codec "prompt" true (CompletionRequest.Prompt r) 1%nat
    (@CompletionRequest.Prompt T) (@CompletionRequest.set_Prompt T) (CompletionRequest.Prompt r).
  { simpl. now destruct (CompletionRequest.Prompt r). }
  { intros _. now apply roundtrips_kept, roundtrips_string. }
  field string_codec "suffix" true (CompletionRequest.Suffix r) 2%nat
    (@CompletionRequest.Suffix T) (@CompletionRequest.set_Suffix T) (CompletionRequest.Suffix r).
  { simpl. now destruct (CompletionRequest.Suffix r). }
  { intros _. now apply roundtrips_kept, roundtrips_string. }
  field int_codec "max_tokens" true (CompletionRequest.MaxTokens r) 3%nat
    (@CompletionRequest.MaxTokens T) (@CompletionRequest.set_MaxTokens T)
    (CompletionRequest.MaxTokens r).
  { simpl. intros Hz. now apply Z.eqb_eq in Hz. }
  { intros _. now apply roundtrips_kept, roundtrips_int. }
  field (ptr_codec (float_codec 64)) "temperature" true (CompletionRequest.Temperature r) 4%nat
    (@CompletionRequest.Temperature T) (@CompletionRequest.set_Temperature T)
    (CompletionRequest.Temperature r).
  { simpl. now destruct (CompletionRequest.Temperature r). }
  { simpl. destruct (CompletionRequest.Temperature r) as [f|] eqn:Ef; [|discriminate].
    intros _. apply roundtrips_kept, roundtrips_ptr, roundtrips_float.
    now apply wTemperature. }
  field (ptr_codec (float_codec 64)) "top_p" true (CompletionRequest.TopP r) 5%nat
    (@CompletionRequest.TopP T) (@CompletionRequest.set_TopP T) (CompletionRequest.TopP r).
  { simpl. now destruct (CompletionRequest.TopP r). }
  { simpl. destruct (CompletionRequest.TopP r) as [f|] eqn:Ef; [|discriminate].
    intros _. apply roundtrips_kept, roundtrips_ptr, roundtrips_float. now apply wTopP. }
  field int_codec "n" true (CompletionRequest.N r) 6%nat
    (@CompletionRequest.N T) (@CompletionRequest.set_N T) (CompletionRequest.N r).
  { simpl. intros Hz. now apply Z.eqb_eq in Hz. }
  { intros _. now apply roundtrips_kept, roundtrips_int. }
  field bool_codec "stream" true (CompletionRequest.Stream r) 7%nat
    (@CompletionRequest.Stream T) (@CompletionRequest.set_Stream T) (CompletionRequest.Stream r).
  { simpl. now destruct (CompletionRequest.Stream r). }
  { intros _. apply roundtrips_kept, roundtrips_bool. }
  field (ptr_codec int_codec) "logprobs" true (CompletionRequest.LogProbs r) 8%nat
    (@CompletionRequest.LogProbs T) (@CompletionRequest.set_LogProbs T)
    (CompletionRequest.LogProbs r).
  { simpl. now destruct (CompletionRequest.LogProbs r). }
  { simpl. destruct (CompletionRequest.LogProbs r) as [n|] eqn:En; [|discriminate].
    intros _. apply roundtrips_kept, roundtrips_ptr, roundtrips_int. now apply wLogProbs. }
  field bool_codec "echo" true (CompletionRequest.Echo r) 9%nat
    (@CompletionRequest.Echo T) (@CompletionRequest.set_Echo T) (CompletionRequest.Echo r).
  { simpl. now destruct (CompletionRequest.Echo r). }
  { intros _. apply roundtrips_kept, roundtrips_bool. }
  field (slice_codec string_codec) "stop" true (CompletionRequest.Stop r) 10%nat
    (@CompletionRequest.Stop T) (@CompletionRequest.set_Stop T)
    (match elems (CompletionRequest.Stop r) with
     | [] => None
     | l => slice_of l
     end).
  { simpl. now destruct (elems (CompletionRequest.Stop r)). }
  { simpl. destruct (elems (CompletionRequest.Stop r)) as [|s l] eqn:El; [discriminate|].
    intros _. destruct (roundtrips_slice string_codec (s :: l)) as (j & He & _ & Hd).
    { now apply roundtrips_strings. }
    exists j. split; [|exact Hd].
    destruct (CompletionRequest.Stop r) as [[within beyond]|]; [|discriminate].
    simpl in El. subst within. exact He. }
  field (float_codec 32) "presence_penalty" true (CompletionRequest.PresencePenalty r) 11%nat
    (@CompletionRequest.PresencePenalty T) (@CompletionRequest.set_PresencePenalty T)
    (if is_zero (CompletionRequest.PresencePenalty r) then S754_zero false
     else CompletionRequest.PresencePenalty r).
  { simpl. now intros ->. }
  { simpl. intros ->. now apply roundtrips_kept, roundtrips_float. }
  field (float_codec 32) "frequency_penalty" true (CompletionRequest.FrequencyPenalty r) 12%nat
    (@CompletionRequest.FrequencyPenalty T) (@CompletionRequest.set_FrequencyPenalty T)
    (if is_zero (CompletionRequest.FrequencyPenalty r) then S754_zero false
     else CompletionRequest.FrequencyPenalty r).
  { simpl. now intros ->. }
  { simpl. intros ->. now apply roundtrips_kept, roundtrips_float. }
  field int_codec "best_of" true (CompletionRequest.BestOf r) 13%nat
    (@CompletionRequest.BestOf T) (@CompletionRequest.set_BestOf T) (CompletionRequest.BestOf r).
  { simpl. intros Hz. now apply Z.eqb_eq in Hz. }
  { intros _. now apply roundtrips_kept, roundtrips_int. }
  field (map_codec int_codec) "logit_bias" true (CompletionRequest.LogitBias r) 14%nat
    (@CompletionRequest.LogitBias T) (@CompletionRequest.set_LogitBias T)
    (if bool_decide (default ∅ (CompletionRequest.LogitBias r) = ∅) then None
     else CompletionRequest.LogitBias r).
  { simpl. destruct (CompletionRequest.LogitBias r) as [lb|]; simpl; [|reflexivity].
    intros Hb%bool_decide_eq_true. now rewrite bool_decide_eq_true_2. }
  { simpl. destruct (CompletionRequest.LogitBias r) as [lb|] eqn:Em; simpl; [|discriminate].
    intros Hb%bool_decide_eq_false. rewrite bool_decide_eq_false_2 by assumption.
    apply roundtrips_kept, roundtrips_map. intros k n Hk.
    destruct (wLogitBias k n) as [Hv Hn]; [exact Hk|].
    split; [assumption|now apply roundtrips_int]. }
  field string_codec "user" true (CompletionRequest.User r) 15%nat
    (@CompletionRequest.User T) (@CompletionRequest.set_User T) (CompletionRequest.User r).
  { simpl. now destruct (CompletionRequest.User r). }
  { intros _. now apply roundtrips_kept, roundtrips_string. }
  exists (JObj (concat [m; m0; m1; m2; m3; m4; m5; m6; m7; m8; m9; m10; m11; m12; m13; m14])).
  split.
  - unfold Marshal. simpl. unfold CompletionRequest_encode, encode_struct. simpl.
    rewrite E, E0, E1, E2, E3, E4, E5, E6, E7, E8, E9, E10, E11, E12, E13, E14.
    reflexivity.
  - simpl decode. unfold decode_struct. simpl concat.
    rewrite decode_members_app, D by reflexivity; cbv beta iota.
    rewrite decode_members_app, D0 by reflexivity; cbv beta iota.
    rewrite decode_members_app, D1 by reflexivity; cbv beta iota.
    rewrite decode_members_app, D2 by reflexivity; cbv beta iota.
    rewrite decode_members_app, D3 by reflexivity; cbv beta iota.
    rewrite decode_members_app, D4 by reflexivity; cbv beta iota.
    rewrite decode_members_app, D5 by reflexivity; cbv beta iota.
    rewrite decode_members_app, D6 by reflexivity; cbv beta iota.
    rewrite decode_members_app, D7 by reflexivity; cbv beta iota.
    rewrite decode_members_app, D8 by reflexivity; cbv beta iota.
    rewrite decode_members_app, D9 by reflexivity; cbv beta iota.
    rewrite decode_members_app, D10 by reflexivity; cbv beta iota.
    rewrite decode_members_app, D11 by reflexivity; cbv beta iota.
    rewrite decode_members_app, D12 by reflexivity; cbv beta iota.
    rewrite decode_members_app, D13 by reflexivity; cbv beta iota.
    rewrite decode_members_app, D14 by reflexivity; cbv beta iota.
    reflexivity.
Qed.

End Request.

End RequestFacts.


Module KeyFacts.
Import Bytes UTF8 Strconv JSON Codec openai Props.
Import UTF8Facts StrconvFacts CodecFacts StructFacts.

Lemma member_keys {A : Type} (c : codec A) (k : string) (om : bool) (v : A) m :
  member c k om v = Ok m ->
  map fst m = if om && isEmptyValue c v then [] else [k].
Proof.
  unfold member. destruct (om && isEmptyValue c v).
  - now intros [= <-].
  - destruct (encode c v); simpl; [|discriminate]. now intros [= <-].
Qed.

Lemma empty_string (s : string) : isEmptyValue string_codec s = bool_decide (s = "").
Proof. now destruct s. Qed.

Lemma empty_int (i : Z) : isEmptyValue int_codec i = bool_decide (i = 0).
Proof.
  simpl. destruct (Z.eqb_spec i 0) as [->|Hne]; [reflexivity|].
  now rewrite bool_decide_eq_false_2.
Qed.

Lemma empty_ptr {A : Type} (c : codec A) (p : option A) :
  isEmptyValue (ptr_codec c) p = bool_decide (p = None).
Proof. now destruct p. Qed.

Lemma empty_slice (s : slice string) :
  isEmptyValue (slice_codec string_codec) s = bool_decide (elems s = []).
Proof. simpl. now destruct (elems s). Qed.

Lemma empty_map (m : option (gmap string Z)) :
  isEmptyValue (map_codec int_codec) m = bool_decide (default ∅ m = ∅).
Proof.
  destruct m as [m|]; simpl.
  - apply bool_decide_ext. reflexivity.
  - now rewrite bool_decide_eq_true_2.
Qed.

Section Request.
Context `{FloatText} {T : Type} `{ModelID T}.

(** The keys of the encoding of a request. *)
Lemma request_encode_keys (r : CompletionRequest T) (j : json) :
  Marshal CompletionRequest_codec r = Ok j -> keys_of j = request_keys r.
Proof.
  unfold Marshal. simpl. unfold CompletionRequest_encode, encode_struct. simpl.
  repeat match goal with
  | |- context [bind (member ?c ?k ?om ?v) _] =>
    let E := fresh "E" in
    destruct (member c k om v) eqn:E; simpl; [apply member_keys in E|discriminate]
  end.
  intros [= <-]. cbn [keys_of concat]. rewrite !map_app.
  repeat match goal with
  | E : map fst _ = _ |- _ => rewrite E; clear E
  end.
  unfold request_keys. cbn [optional_fields flat_map fst snd andb].
  rewrite !empty_string, !empty_int, !empty_ptr, empty_slice, empty_map.
  reflexivity.
Qed.

End Request.

End KeyFacts.


Module EncodeFacts.
Import Bytes UTF8 Strconv JSON Codec openai Props.

Lemma ok_bind {A B : Type} (r : result A) (k : A -> result B) :
  ok r -> (forall a, ok (k a)) -> ok (bind r k).
Proof. intros [a ->] Hk. apply Hk. Qed.

Lemma ok_collect {A : Type} (rs : list (result A)) : Forall ok rs -> ok (collect rs).
Proof.
  induction 1 as [|r rs Hr _ IH]; simpl.
  - now exists [].
  - apply ok_bind; [assumption|]. intros a. apply ok_bind; [assumption|].
    intros l. now eexists.
Qed.

Lemma ok_member {A : Type} (c : codec A) (k : string) (om : bool) (v : A) :
  ok (encode c v) -> ok (member c k om v).
Proof.
  intros Hv. unfold member. destruct (om && isEmptyValue c v); [now eexists|].
  apply ok_bind; [assumption|]. intros j. now eexists.
Qed.

Lemma ok_string (s : string) : ok (encode string_codec s).
Proof. now eexists. Qed.

Lemma ok_int (i : Z) : ok (encode int_codec i).
Proof. now eexists. Qed.

Lemma ok_bool (b : bool) : ok (encode bool_codec b).
Proof. now eexists. Qed.

Lemma ok_float `{FloatText} (bitSize : Z) (f : spec_float) :
  is_finite f = true -> ok (encode (float_codec bitSize) f).
Proof. destruct f; try discriminate; intros _; now eexists. Qed.

Lemma ok_ptr {A : Type} (c : codec A) (p : option A) :
  (forall v, p = Some v -> ok (encode c v)) -> ok (encode (ptr_codec c) p).
Proof. destruct p as [v|]; intros Hp; [now apply Hp|now eexists]. Qed.

Lemma ok_slice {A : Type} (c : codec A) (s : slice A) :
  (forall v, ok (encode c v)) -> ok (encode (slice_codec c) s).
Proof.
  intros Hc. destruct s as [[l beyond]|]; simpl; [|now eexists].
  apply ok_bind; [|intros; now eexists].
  apply ok_collect, Forall_forall. intros r Hr.
  apply list_elem_of_In, in_map_iff in Hr. destruct Hr as (v & <- & _). apply Hc.
Qed.

Lemma ok_map {A : Type} (c : codec A) (m : option (gmap string A)) :
  (forall v, ok (encode c v)) -> ok (encode (map_codec c) m).
Proof.
  intros Hc. destruct m as [m|]; simpl; [|now eexists].
  apply ok_bind; [|intros; now eexists].
  apply ok_collect, Forall_forall. intros r Hr.
  apply list_elem_of_In, in_map_iff in Hr. destruct Hr as (kv & <- & _).
  apply ok_bind; [apply Hc|]. intros; now eexists.
Qed.

Section Request.
Context `{FloatText} {T : Type} `{ModelID T}.

(** The encoder fails on a request only through its model identifier or a
    float that is not finite. *)
Lemma request_encode_ok (r : CompletionRequest T) :
  ok (encode model_codec (CompletionRequest.Model r)) -> finite_floats r ->
  ok (Marshal CompletionRequest_codec r).
Proof.
  intros Hm (Ht & Hp & Hpp & Hfp).
  unfold Marshal. simpl. unfold CompletionRequest_encode, encode_struct.
  apply ok_bind; [|intros; now eexists].
  apply ok_collect.
  repeat (apply List.Forall_cons; [apply ok_member|]); [..|apply List.Forall_nil].
  all: try apply ok_string; try apply ok_int; try apply ok_bool.
  - assumption.
  - apply ok_ptr. intros f Hf. apply ok_float. now apply Ht.
  - apply ok_ptr. intros f Hf. apply ok_float. now apply Hp.
  - apply ok_ptr. intros n _. apply ok_int.
  - apply ok_slice, ok_string.
  - now apply ok_float.
  - now apply ok_float.
  - apply ok_map, ok_int.
Qed.

End Request.

End EncodeFacts.

Module DecodeFacts.
Import Bytes UTF8 Strconv JSON Codec openai Props.
Import CodecFacts.

Lemma decode_elems_fresh {A : Type} (c : codec A) (js : list json) :
  (decode_elems c js []).1 = map (fun j => (decode c j (zero c)).1) js.
Proof.
  induction js as [|j js IH]; simpl; [reflexivity|].
  destruct (decode c j (zero c)) as [v e].
  destruct (decode_elems c js []) as [vs e']. simpl in *. now rewrite IH.
Qed.

Lemma decode_elems_length {A : Type} (c : codec A) (js : list json) (old : list A) :
  length (decode_elems c js old).1 = length js.
Proof.
  revert old. induction js as [|j js IH]; intros old; simpl; [reflexivity|].
  destruct (decode c j (hd (zero c) old)) as [v e]. specialize (IH (tl old)).
  destruct (decode_elems c js (tl old)) as [vs e']. simpl in *. now rewrite IH.
Qed.

(** No element is refused: the decoder of the slice saves no error. *)
Lemma decode_elems_accepted {A : Type} (c : codec A) (js : list json) (old : list A) :
  Forall (fun j => forall v, (decode c j v).2 = None) js ->
  (decode_elems c js old).2 = None.
Proof.
  intros Hjs. revert old. induction Hjs as [|j js Hj _ IH]; intros old; simpl; [reflexivity|].
  specialize (Hj (hd (zero c) old)). destruct (decode c j (hd (zero c) old)) as [v e].
  specialize (IH (tl old)). destruct (decode_elems c js (tl old)) as [vs e'].
  simpl in *. now subst.
Qed.

(** A field of a struct after the members of an object were stored: it has
    seen the documents of the members that select it, in order, and no
    other. *)
Lemma decode_members_field {S A : Type} (names : list string)
  (store : nat -> json -> S -> S * option error) (get : S -> A) (c : codec A) (i : nat) :
  (forall j s, get (store i j s).1 = (decode c j (get s)).1) ->
  (forall i' j s, i' <> i -> get (store i' j s).1 = get s) ->
  forall ms s,
    get (decode_members names store ms s).1 = stores c (field_values names i ms) (get s).
Proof.
  intros Hi Hother ms. induction ms as [|[k j] ms IH]; intros s; [reflexivity|].
  unfold field_values in *. rewrite filter_cons. cbn [decode_members fst].
  destruct (decide (fieldIndex names k = Some i)) as [Ek|Ek].
  - rewrite Ek. specialize (Hi j s). destruct (store i j s) as [s1 e].
    specialize (IH s1). destruct (decode_members names store ms s1) as [s2 e'].
    simpl in *. now rewrite IH, Hi.
  - destruct (fieldIndex names k) as [i'|].
    + assert (i' <> i) as Hne by congruence.
      specialize (Hother i' j s Hne). destruct (store i' j s) as [s1 e].
      specialize (IH s1). destruct (decode_members names store ms s1) as [s2 e'].
      simpl in *. now rewrite IH, Hother.
    + specialize (IH s). destruct (decode_members names store ms s) as [s2 e'].
      simpl in *. now rewrite IH.
Qed.

(** No member is refused: the decoder of the struct saves no error. *)
Lemma decode_members_accepted {S : Type} (names : list string)
  (store : nat -> json -> S -> S * option error) (ms : list (string * json)) :
  (forall k j i, (k, j) ∈ ms -> fieldIndex names k = Some i ->
     forall s, (store i j s).2 = None) ->
  forall s, (decode_members names store ms s).2 = None.
Proof.
  induction ms as [|[k j] ms IH]; intros Hms s; [reflexivity|]. simpl.
  destruct (fieldIndex names k) as [i|] eqn:Ek.
  - pose proof (Hms k j i (list_elem_of_here _ _) Ek s) as Hs.
    destruct (store i j s) as [s1 e]. simpl in Hs. subst e.
    specialize (IH (fun k' j' i' Hin => Hms k' j' i' (list_elem_of_further _ _ _ Hin)) s1).
    now destruct (decode_members names store ms s1).
  - specialize (IH (fun k' j' i' Hin => Hms k' j' i' (list_elem_of_further _ _ _ Hin)) s).
    now destruct (decode_members names store ms s).
Qed.

Lemma slice_accepts {A : Type} (c : codec A) (js : list json) :
  Forall (accepts c) js -> accepts (slice_codec c) (JArr js).
Proof.
  intros Hjs old. destruct js as [|j js]; [reflexivity|].
  cbn [decode slice_codec].
  pose proof (decode_elems_accepted c (j :: js) (backing old) Hjs) as He.
  now destruct (decode_elems c (j :: js) (backing old)).
Qed.

(** An array stored into a nil slice: one element for each entry, in
    order. *)
Lemma slice_fresh {A : Type} (c : codec A) (js : list json) :
  stores (slice_codec c) [JArr js] None = slice_of (map (fun j => (decode c j (zero c)).1) js).
Proof.
  unfold stores. destruct js as [|j js]; [reflexivity|].
  cbn [fold_left decode slice_codec backing].
  pose proof (decode_elems_fresh c (j :: js)) as Hf.
  destruct (decode_elems c (j :: js) []) as [vs e]. simpl in Hf. subst vs.
  reflexivity.
Qed.

Lemma field_values_elem (names : list string) (i : nat) (ms : list (string * json)) k j :
  (k, j) ∈ ms -> fieldIndex names k = Some i -> j ∈ field_values names i ms.
Proof.
  intros Hin Hk. unfold field_values. apply list_elem_of_fmap. exists (k, j).
  split; [reflexivity|]. apply list_elem_of_filter. now split.
Qed.

End DecodeFacts.


(** ** The transport operation *)

Module TransportFacts.
Import Bytes UTF8 Strconv JSON Codec openai Props Samples.
Import DecodeFacts.

Section Transport.
Context `{FloatText} `{Repo}.

Lemma CreateCompletion_unfold (c : Client) ctx cr :
  CreateCompletion c ctx cr = transport c ctx cr.
Proof.
  unfold CreateCompletion, transport.
  destruct (post c models_Completion ctx routes_Completions cr) as [b [e|]]; [reflexivity|].
  now destruct (Unmarshal CompletionResponse_codec b CompletionResponse_zero) as [resp [e|]].
Qed.

Lemma CreateFineTunedCompletion_unfold (c : Client) ctx cr :
  CreateFineTunedCompletion c ctx cr = transport c ctx cr.
Proof.
  unfold CreateFineTunedCompletion, transport.
  destruct (post c models_FineTunedModel ctx routes_Completions cr) as [b [e|]];
    [reflexivity|].
  now destruct (Unmarshal CompletionResponse_codec b CompletionResponse_zero) as [resp [e|]].
Qed.

Section Variant.
Context {T : Type} `{ModelID T}.

Lemma transport_post_error (c : Client) ctx (cr : option (CompletionRequest T)) b e :
  post c T ctx routes_Completions cr = (b, Some e) -> transport c ctx cr = (None, Some e).
Proof. unfold transport. now intros ->. Qed.

Lemma transport_unmarshal_error (c : Client) ctx (cr : option (CompletionRequest T))
  body resp e :
  post c T ctx routes_Completions cr = (body, None) ->
  Unmarshal CompletionResponse_codec body CompletionResponse_zero = (resp, Some e) ->
  transport c ctx cr = (None, Some e).
Proof. unfold transport. now intros -> ->. Qed.

Lemma transport_success (c : Client) ctx (cr : option (CompletionRequest T)) body resp :
  post c T ctx routes_Completions cr = (body, None) ->
  Unmarshal CompletionResponse_codec body CompletionResponse_zero = (resp, None) ->
  transport c ctx cr = (Some resp, None).
Proof. unfold transport. now intros -> ->. Qed.

Lemma Unmarshal_syntax_error {A : Type} (cd : codec A) (body : string) (v : A) :
  JSON.parse body = None -> Unmarshal cd body v = (v, Some SyntaxError).
Proof. unfold Unmarshal. now intros ->. Qed.

Ltac unfold_store :=
  try unfold CompletionResponse_store; try unfold LogprobResult_store;
  try unfold CompletionChoice_store.

Ltac other_fields :=
  let i := fresh "i" in
  let j := fresh "j" in
  let Hne := fresh "Hne" in
  intros i j ? Hne;
  do 7 (destruct i as [|i];
        [first [congruence | reflexivity
               | unfold_store; destruct (decode _ j _); reflexivity]|]);
  reflexivity.

Ltac this_field :=
  let j := fresh "j" in
  intros j ?; unfold_store; destruct (decode _ j _); reflexivity.

(** Each field of a decoded response has seen the members that select it,
    and no other. *)
Lemma response_populated (ms : list (string * json)) :
  populated ms
    (decode_members CompletionResponse_keys (CompletionResponse_store (T := T)) ms
       CompletionResponse_zero).1.
Proof.
  unfold populated. repeat split.
  - apply (decode_members_field _ _ (@CompletionResponse.ID _ T) string_codec 0);
      [this_field|other_fields].
  - apply (decode_members_field _ _ (@CompletionResponse.Object _ T) object_codec 1);
      [this_field|other_fields].
  - apply (decode_members_field _ _ (@CompletionResponse.Created _ T) uint64_codec 2);
      [this_field|other_fields].
  - apply (decode_members_field _ _ (@CompletionResponse.Model _ T) model_codec 3);
      [this_field|other_fields].
  - apply (decode_members_field _ _ (@CompletionResponse.Choices _ T)
             (slice_codec (ptr_codec CompletionChoice_codec)) 4);
      [this_field|other_fields].
  - apply (decode_members_field _ _ (@CompletionResponse.Usage _ T)
             (ptr_codec usage_codec) 5);
      [this_field|other_fields].
Qed.

Lemma Unmarshal_populated (body : string) (ms : list (string * json)) resp err :
  JSON.parse body = Some (JObj ms) ->
  Unmarshal CompletionResponse_codec body (CompletionResponse_zero (T := T)) = (resp, err) ->
  populated ms resp.
Proof.
  unfold Unmarshal. intros ->. simpl. intros E.
  pose proof (response_populated ms) as P. now rewrite E in P.
Qed.

End Variant.

(** The fields of a response outside the model identifier do not depend on
    the variant. *)
Lemma Unmarshal_same_but_model {T1 T2 : Type} `{ModelID T1} `{ModelID T2} (body : string) :
  same_but_model
    (Unmarshal CompletionResponse_codec body (CompletionResponse_zero (T := T1))).1
    (Unmarshal CompletionResponse_codec body (CompletionResponse_zero (T := T2))).1.
Proof.
  unfold Unmarshal. destruct (JSON.parse body) as [j|]; [|now repeat split].
  destruct j as [| | | | |ms]; try now repeat split.
  simpl. pose proof (response_populated (T := T1) ms) as (A1 & A2 & A3 & _ & A5 & A6).
  pose proof (response_populated (T := T2) ms) as (B1 & B2 & B3 & _ & B5 & B6).
  unfold same_but_model. now rewrite A1, A2, A3, A5, A6, B1, B2, B3, B5, B6.
Qed.

End Transport.

End TransportFacts.


(** ** The decoder against what the body says *)

Module ReadingFacts.
Import Bytes UTF8 Strconv JSON Codec openai Props.
Import CodecFacts DecodeFacts.

Lemma field_values_cons (names : list string) (i : nat) k j (ms : list (string * json)) :
  field_values names i ((k, j) :: ms)
  = if decide (fieldIndex names k = Some i) then j :: field_values names i ms
    else field_values names i ms.
Proof.
  unfold field_values. rewrite filter_cons. simpl.
  now destruct (decide (fieldIndex names k = Some i)).
Qed.

Lemma field_values_absent (names : list string) (i : nat) (ms : list (string * json)) :
  i ∉ omap (fun kv : string * json => fieldIndex names kv.1) ms ->
  field_values names i ms = [].
Proof.
  induction ms as [|[k j] ms IH]; intros Hi; [reflexivity|].
  rewrite field_values_cons. simpl in Hi.
  destruct (fieldIndex names k) as [i'|] eqn:Ek.
  - apply not_elem_of_cons in Hi as [Hne Hi].
    rewrite decide_False by congruence. now apply IH.
  - rewrite decide_False by discriminate. now apply IH.
Qed.

(** In an object with each key once, a field has one document or none. *)
Lemma once_field_values (names : list string) (ms : list (string * json)) (i : nat) :
  once names ms = true -> (length (field_values names i ms) <= 1)%nat.
Proof.
  unfold once. intros Hnd%bool_decide_eq_true.
  induction ms as [|[k j] ms IH]; [simpl; lia|].
  rewrite field_values_cons. simpl in Hnd.
  destruct (fieldIndex names k) as [i'|] eqn:Ek.
  - apply NoDup_cons in Hnd as [Hin Hnd].
    destruct (decide (Some i' = Some i)) as [[= ->]|Hne].
    + rewrite (field_values_absent names i ms Hin). simpl. lia.
    + now apply IH.
  - rewrite decide_False by discriminate. now apply IH.
Qed.

(** One document or none stored into a zero value: the field is read off
    that document. *)
Lemma stores_read {A : Type} (c : codec A) (read : json -> A) (d : A) (js : list json) :
  (length js <= 1)%nat ->
  (forall j, j ∈ js -> (decode c j d).1 = read j) ->
  stores c js d = read_field read d js.
Proof.
  destruct js as [|j [|j' js]]; simpl; intros Hlen Hread; [reflexivity| |lia].
  apply Hread, list_elem_of_here.
Qed.

Lemma decode_read_string (j : json) : (decode string_codec j "").1 = read_string j.
Proof. now destruct j. Qed.

Lemma decode_read_uint64 (j : json) : (decode uint64_codec j 0).1 = read_uint64 j.
Proof. destruct j; try reflexivity. simpl. now destruct (ParseUint lit 64). Qed.

Lemma decode_read_int (j : json) : (decode int_codec j 0).1 = read_int j.
Proof. destruct j; try reflexivity. simpl. now destruct (ParseInt lit 64). Qed.

Lemma decode_read_float32 `{FloatText} (j : json) :
  (decode (float_codec 32) j (S754_zero false)).1 = read_float32 j.
Proof. destruct j; try reflexivity. simpl. now destruct (ParseFloat lit 32). Qed.

Lemma decode_read_array {A : Type} (c : codec A) (read : json -> A) (j : json) :
  (forall js j', j = JArr js -> j' ∈ js -> (decode c j' (zero c)).1 = read j') ->
  (decode (slice_codec c) j None).1 = read_array read j.
Proof.
  intros Hread. destruct j as [| | | |js|]; try reflexivity.
  destruct js as [|j0 js]; [reflexivity|].
  cbn [decode slice_codec backing read_array].
  pose proof (decode_elems_fresh c (j0 :: js)) as Hf.
  destruct (decode_elems c (j0 :: js) []) as [vs e]. cbn [fst] in *. subst vs.
  unfold slice_of. f_equal. f_equal.
  apply map_ext_in. intros j' Hj'. apply (Hread (j0 :: js)); [reflexivity|].
  now apply list_elem_of_In.
Qed.

Lemma decode_entries_read {A : Type} (c : codec A) (read : json -> A)
  (es : list (string * json)) :
  (forall j, (decode c j (zero c)).1 = read j) ->
  forall m, (decode_entries c es m).1
            = fold_left (fun m' (kv : string * json) => <[kv.1 := read kv.2]> m') es m.
Proof.
  intros Hread. induction es as [|[k j] es IH]; intros m; [reflexivity|].
  cbn [decode_entries fold_left]. specialize (Hread j).
  destruct (decode c j (zero c)) as [v e]. cbn [fst] in Hread. subst v.
  specialize (IH (<[k := read j]> m)).
  now destruct (decode_entries c es (<[k := read j]> m)).
Qed.

Lemma decode_read_map {A : Type} (c : codec A) (read : json -> A) (j : json) :
  (forall j', (decode c j' (zero c)).1 = read j') ->
  (decode (map_codec c) j None).1 = read_map read j.
Proof.
  intros Hread. destruct j as [| | | | |es]; try reflexivity.
  cbn [decode map_codec read_map default].
  pose proof (decode_entries_read c read es Hread ∅) as He.
  destruct (decode_entries c es ∅) as [m e]. cbn [fst] in *. now subst m.
Qed.

Ltac unfold_store :=
  cbn [CompletionResponse_store LogprobResult_store CompletionChoice_store].

(** The field that [store] writes at its index is the field that the getter
    reads. *)
Ltac this_field :=
  let j := fresh "j" in
  intros j ?; unfold_store; destruct (decode _ j _); reflexivity.

(** At any other index, [store] leaves the field as it is. *)
Ltac other_fields :=
  let i := fresh "i" in
  let j := fresh "j" in
  let Hne := fresh "Hne" in
  intros i j ? Hne;
  do 7 (destruct i as [|i];
        [first [congruence | reflexivity
               | unfold_store; destruct (decode _ j _); reflexivity]|]);
  reflexivity.

(** A field of a struct decoded from an object with each key once: it is read
    off the one document that selects it. *)
Lemma field_read {S A : Type} (names : list string)
  (store : nat -> json -> S -> S * option error) (get : S -> A) (c : codec A) (i : nat)
  (read : json -> A) (d : A) (ms : list (string * json)) (z : S) :
  (forall j s, get (store i j s).1 = (decode c j (get s)).1) ->
  (forall i' j s, i' <> i -> get (store i' j s).1 = get s) ->
  once names ms = true -> get z = d ->
  (forall j, j ∈ field_values names i ms -> (decode c j d).1 = read j) ->
  get (decode_members names store ms z).1 = read_field read d (field_values names i ms).
Proof.
  intros Hthis Hother Honce Hz Hread.
  rewrite (decode_members_field names store get c i Hthis Hother), Hz.
  apply stores_read; [now apply once_field_values|exact Hread].
Qed.

Lemma LogprobResult_eta (r : LogprobResult) a b c d :
  LogprobResult.Tokens r = a -> LogprobResult.TokenLogprobs r = b ->
  LogprobResult.TopLogprobs r = c -> LogprobResult.TextOffset r = d ->
  r = LogprobResult.mk a b c d.
Proof. destruct r. simpl. now intros -> -> -> ->. Qed.

Lemma CompletionChoice_eta (r : CompletionChoice) a b c d :
  CompletionChoice.Text r = a -> CompletionChoice.Index r = b ->
  CompletionChoice.FinishReason r = c -> CompletionChoice.LogProbs r = d ->
  r = CompletionChoice.mk a b c d.
Proof. destruct r. simpl. now intros -> -> -> ->. Qed.

Section Reading.
Context `{FloatText}.

(** The decoder of log probabilities against what the object says. *)
Lemma decode_read_logprobs (j : json) :
  plain_logprobs j = true ->
  (decode (ptr_codec LogprobResult_codec) j None).1 = read_logprobs j.
Proof.
  destruct j as [| | | | |ms]; try discriminate; [reflexivity|].
  cbn [plain_logprobs]. intros Honce.
  cbn [decode ptr_codec LogprobResult_codec decode_struct default zero read_logprobs].
  destruct (decode_members LogprobResult_keys LogprobResult_store ms LogprobResult_zero)
    as [r e] eqn:E.
  cbn [fst]. f_equal. replace r with (r, e).1 by reflexivity. rewrite <- E.
  apply LogprobResult_eta.
  - apply (field_read _ _ LogprobResult.Tokens (slice_codec string_codec) 0);
      [this_field|other_fields|assumption|reflexivity|].
    intros j _. apply decode_read_array. intros. apply decode_read_string.
  - apply (field_read _ _ LogprobResult.TokenLogprobs (slice_codec (float_codec 32)) 1);
      [this_field|other_fields|assumption|reflexivity|].
    intros j _. apply decode_read_array. intros. apply decode_read_float32.
  - apply (field_read _ _ LogprobResult.TopLogprobs
             (slice_codec (map_codec (float_codec 32))) 2);
      [this_field|other_fields|assumption|reflexivity|].
    intros j _. apply decode_read_array. intros. apply decode_read_map.
    apply decode_read_float32.
  - apply (field_read _ _ LogprobResult.TextOffset (slice_codec int_codec) 3);
      [this_field|other_fields|assumption|reflexivity|].
    intros j _. apply decode_read_array. intros. apply decode_read_int.
Qed.

(** The decoder of a choice against what the object says. *)
Lemma decode_read_choice (j : json) :
  plain_choice j = true ->
  (decode (ptr_codec CompletionChoice_codec) j None).1 = read_choice j.
Proof.
  destruct j as [| | | | |ms]; try discriminate; [reflexivity|].
  cbn [plain_choice]. intros [Honce Hlp]%andb_true_iff.
  cbn [decode ptr_codec CompletionChoice_codec decode_struct default zero read_choice].
  destruct (decode_members CompletionChoice_keys CompletionChoice_store ms
              CompletionChoice_zero) as [r e] eqn:E.
  cbn [fst]. f_equal. replace r with (r, e).1 by reflexivity. rewrite <- E.
  apply CompletionChoice_eta.
  - apply (field_read _ _ CompletionChoice.Text string_codec 0);
      [this_field|other_fields|assumption|reflexivity|].
    intros j _. apply decode_read_string.
  - apply (field_read _ _ CompletionChoice.Index int_codec 1);
      [this_field|other_fields|assumption|reflexivity|].
    intros j _. apply decode_read_int.
  - apply (field_read _ _ CompletionChoice.FinishReason string_codec 2);
      [this_field|other_fields|assumption|reflexivity|].
    intros j _. apply decode_read_string.
  - apply (field_read _ _ CompletionChoice.LogProbs (ptr_codec LogprobResult_codec) 3);
      [this_field|other_fields|assumption|reflexivity|].
    intros j Hj. apply decode_read_logprobs.
    rewrite forallb_forall in Hlp. now apply Hlp, list_elem_of_In.
Qed.

End Reading.

Section Response.
Context `{FloatText} `{Repo} {T : Type} `{ModelID T}.

(** A response that holds what the decoder stored, from a plain body, holds
    what the body says. *)
Lemma populated_read_from (ms : list (string * json)) (resp : CompletionResponse T) :
  plain_body ms = true -> populated ms resp -> read_from ms resp.
Proof.
  intros [Honce Hcs]%andb_true_iff (P0 & P1 & P2 & P3 & P4 & P5).
  unfold read_from. rewrite P0, P1, P2, P3, P4, P5.
  repeat split; apply stores_read; try (now apply once_field_values).
  - intros j _. apply decode_read_string.
  - reflexivity.
  - intros j _. apply decode_read_uint64.
  - reflexivity.
  - intros j Hj. apply decode_read_array. intros js j' -> Hj'.
    apply decode_read_choice.
    rewrite forallb_forall in Hcs. apply list_elem_of_In in Hj. specialize (Hcs _ Hj).
    cbn [plain_choices] in Hcs. rewrite forallb_forall in Hcs.
    now apply Hcs, list_elem_of_In.
  - reflexivity.
Qed.

End Response.

End ReadingFacts.


(** ** The claims about the transport operation *)

Module TransportClaims.
Import Bytes UTF8 Strconv JSON Codec openai Props.
Import DecodeFacts TransportFacts ReadingFacts.

Section Transport.
Context `{FloatText} `{Repo}.

(** C3: when the POST step fails, whatever the reason the collaborator
    reports, [CreateCompletion] and [CreateFineTunedCompletion] return that
    very error and a nil response. *)
Theorem post_error_returned_unchanged (c : Client) (ctx : context_Context) (e : error) :
  (forall cr b, post c models_Completion ctx routes_Completions cr = (b, Some e) ->
     CreateCompletion c ctx cr = (None, Some e)) /\
  (forall cr b, post c models_FineTunedModel ctx routes_Completions cr = (b, Some e) ->
     CreateFineTunedCompletion c ctx cr = (None, Some e)).
Proof.
  split; intros cr b Hpost.
  - rewrite CreateCompletion_unfold. exact (transport_post_error c ctx cr b e Hpost).
  - rewrite CreateFineTunedCompletion_unfold. exact (transport_post_error c ctx cr b e Hpost).
Qed.

(** C4: when the body of the response is no well-formed JSON, both
    functions return the syntax error of the decoder and a nil response; and
    whenever the decoder reports an error, the response it had begun to fill
    is dropped and only the error is returned. *)
Theorem malformed_body_returns_error_only (c : Client) (ctx : context_Context)
  (body : string) :
  (JSON.parse body = None ->
   (forall cr, post c models_Completion ctx routes_Completions cr = (body, None) ->
      CreateCompletion c ctx cr = (None, Some SyntaxError)) /\
   (forall cr, post c models_FineTunedModel ctx routes_Completions cr = (body, None) ->
      CreateFineTunedCompletion c ctx cr = (None, Some SyntaxError))) /\
  (forall cr (resp : CompletionResponse models_Completion) e,
     post c models_Completion ctx routes_Completions cr = (body, None) ->
     Unmarshal CompletionResponse_codec body CompletionResponse_zero = (resp, Some e) ->
     CreateCompletion c ctx cr = (None, Some e)) /\
  (forall cr (resp : CompletionResponse models_FineTunedModel) e,
     post c models_FineTunedModel ctx routes_Completions cr = (body, None) ->
     Unmarshal CompletionResponse_codec body CompletionResponse_zero = (resp, Some e) ->
     CreateFineTunedCompletion c ctx cr = (None, Some e)).
Proof.
  repeat split.
  - intros cr Hpost. rewrite CreateCompletion_unfold.
    eapply transport_unmarshal_error; [exact Hpost|].
    now apply Unmarshal_syntax_error.
  - intros cr Hpost. rewrite CreateFineTunedCompletion_unfold.
    eapply transport_unmarshal_error; [exact Hpost|].
    now apply Unmarshal_syntax_error.
  - intros cr resp e Hpost Hun. rewrite CreateCompletion_unfold.
    exact (transport_unmarshal_error c ctx cr body resp e Hpost Hun).
  - intros cr resp e Hpost Hun. rewrite CreateFineTunedCompletion_unfold.
    exact (transport_unmarshal_error c ctx cr body resp e Hpost Hun).
Qed.

(** C6: on success both functions return a response of the variant of the
    request, and it is the response the decoder filled from the body: when
    the body is an object, every field holds what the members that select it
    decode to; and when no two keys select the same field, every field holds
    what the body says, read off the document itself: the identifier, the
    creation time, and the choices entry by entry in the order of the array,
    each with its text, index, finish reason and log probabilities; a field
    that no member selects is zero. *)
Theorem success_returns_decoded_body (c : Client) (ctx : context_Context)
  (body : string) :
  (forall (cr : option (CompletionRequest models_Completion))
          (resp : CompletionResponse models_Completion),
     post c models_Completion ctx routes_Completions cr = (body, None) ->
     Unmarshal CompletionResponse_codec body CompletionResponse_zero = (resp, None) ->
     CreateCompletion c ctx cr = (Some resp, None) /\
     forall ms, JSON.parse body = Some (JObj ms) ->
       populated ms resp /\ (plain_body ms = true -> read_from ms resp)) /\
  (forall (cr : option (CompletionRequest models_FineTunedModel))
          (resp : CompletionResponse models_FineTunedModel),
     post c models_FineTunedModel ctx routes_Completions cr = (body, None) ->
     Unmarshal CompletionResponse_codec body CompletionResponse_zero = (resp, None) ->
     CreateFineTunedCompletion c ctx cr = (Some resp, None) /\
     forall ms, JSON.parse body = Some (JObj ms) ->
       populated ms resp /\ (plain_body ms = true -> read_from ms resp)).
Proof.
  split; intros cr resp Hpost Hun; split.
  - rewrite CreateCompletion_unfold. exact (transport_success c ctx cr body resp Hpost Hun).
  - intros ms Hms. pose proof (Unmarshal_populated body ms resp None Hms Hun) as Hp.
    split; [exact Hp|]. intros Hplain. now apply populated_read_from.
  - rewrite CreateFineTunedCompletion_unfold.
    exact (transport_success c ctx cr body resp Hpost Hun).
  - intros ms Hms. pose proof (Unmarshal_populated body ms resp None Hms Hun) as Hp.
    split; [exact Hp|]. intros Hplain. now apply populated_read_from.
Qed.

(** C9: the two functions are the one operation of the spec at the two
    variants of the model identifier: each equals [transport] at its variant,
    that is the POST to the completions route followed by the decoding of the
    bytes; and when the POST step gives both the same bytes and error, the
    two results differ in the model identifier at most. *)
Theorem entry_points_are_one_operation (c : Client) (ctx : context_Context) :
  (forall cr, CreateCompletion c ctx cr = transport c ctx cr) /\
  (forall cr, CreateFineTunedCompletion c ctx cr = transport c ctx cr) /\
  (forall cr1 cr2,
     post c models_Completion ctx routes_Completions cr1
       = post c models_FineTunedModel ctx routes_Completions cr2 ->
     same_result (CreateCompletion c ctx cr1) (CreateFineTunedCompletion c ctx cr2)).
Proof.
  split; [exact (CreateCompletion_unfold c ctx)|].
  split; [exact (CreateFineTunedCompletion_unfold c ctx)|].
  intros cr1 cr2 Hpost. unfold CreateCompletion, CreateFineTunedCompletion.
  rewrite Hpost.
  destruct (post c models_FineTunedModel ctx routes_Completions cr2) as [b [e|]];
    [exact I|].
  pose proof (Unmarshal_same_but_model (T1 := models_Completion)
                (T2 := models_FineTunedModel) b) as Hsame.
  destruct (Unmarshal CompletionResponse_codec b
              (CompletionResponse_zero (T := models_Completion))) as [r1 [e1|]];
    [exact I|].
  destruct (Unmarshal CompletionResponse_codec b
              (CompletionResponse_zero (T := models_FineTunedModel))) as [r2 [e2|]];
    [exact I|].
  exact Hsame.
Qed.

End Transport.

Import DecimalFloat Spec Samples.

(** The POST is refused: both functions return the error of [post]. *)
Lemma connection_refused_witness :
  CreateCompletion refused () (Some (say_hi davinci))
    = (None, Some (OtherError "connection refused")) /\
  CreateFineTunedCompletion refused () None
    = (None, Some (OtherError "connection refused")).
Proof.
  split.
  - apply (proj1 (post_error_returned_unchanged refused () _) _ ""). reflexivity.
  - apply (proj2 (post_error_returned_unchanged refused () _) _ ""). reflexivity.
Defined.

(** The body stops in the middle of a string. *)
Lemma truncated_body_witness :
  JSON.parse truncated_body = None /\
  CreateCompletion (answering truncated_body None) () (Some (say_hi davinci))
    = (None, Some SyntaxError).
Proof.
  assert (JSON.parse truncated_body = None) as Hp by (vm_compute; reflexivity).
  split; [exact Hp|].
  apply (proj1 (proj1 (malformed_body_returns_error_only
                         (answering truncated_body None) () truncated_body) Hp)).
  reflexivity.
Defined.

(** The scenario of the spec: the call returns the response with one choice,
    the text "Hi!" and nil log probabilities, and every field of it is what
    the body says; and so for a body with every field set, log probabilities
    and a [null] choice among them. *)
Lemma hi_body_witness :
  CreateCompletion (answering hi_body None) () (Some (say_hi davinci))
    = (Some hi_response, None) /\
  read_from hi_members hi_response /\
  CreateCompletion (answering full_body None) () (Some (say_hi davinci))
    = (Some full_response, None) /\
  read_from full_members full_response.
Proof.
  assert (JSON.parse hi_body = Some (JObj hi_members)) as Hp by (vm_compute; reflexivity).
  assert (Unmarshal CompletionResponse_codec hi_body CompletionResponse_zero
          = (hi_response, None)) as Hun by (vm_compute; reflexivity).
  assert (plain_body hi_members = true) as Hplain by (vm_compute; reflexivity).
  assert (JSON.parse full_body = Some (JObj full_members)) as Hp'
    by (vm_compute; reflexivity).
  assert (Unmarshal CompletionResponse_codec full_body CompletionResponse_zero
          = (full_response, None)) as Hun' by (vm_compute; reflexivity).
  assert (plain_body full_members = true) as Hplain' by (vm_compute; reflexivity).
  destruct (proj1 (success_returns_decoded_body (answering hi_body None) () hi_body)
              (Some (say_hi davinci)) hi_response eq_refl Hun) as [Hc Hms].
  destruct (proj1 (success_returns_decoded_body (answering full_body None) () full_body)
              (Some (say_hi davinci)) full_response eq_refl Hun') as [Hc' Hms'].
  split; [exact Hc|]. split; [exact (proj2 (Hms hi_members Hp) Hplain)|].
  split; [exact Hc'|]. exact (proj2 (Hms' full_members Hp') Hplain').
Defined.

(** The same body through both functions. *)
Lemma one_operation_witness :
  same_result
    (CreateCompletion (answering hi_body None) () (Some (say_hi davinci)))
    (CreateFineTunedCompletion (answering hi_body None) () None).
Proof.
  apply (proj2 (proj2 (entry_points_are_one_operation (answering hi_body None) ()))).
  reflexivity.
Defined.

End TransportClaims.


(** ** The claims about decoded responses *)

Module DecodeClaims.
Import Bytes UTF8 Strconv JSON Codec openai Props.
Import DecodeFacts TransportFacts.

Section Response.
Context `{FloatText} `{Repo} {T : Type} `{ModelID T}.

(** C5, as amended: when the body is an object with one [choices] member,
    an array of k entries, the decoded response has exactly k choices and the
    i-th choice is what the i-th entry of the array decodes to: the order is
    that of the array, whatever the indexes say. *)
Theorem choices_follow_source_array (body : string) (ms : list (string * json))
  (js : list json) (resp : CompletionResponse T) (err : option error) :
  JSON.parse body = Some (JObj ms) ->
  field_values CompletionResponse_keys 4 ms = [JArr js] ->
  Unmarshal CompletionResponse_codec body CompletionResponse_zero = (resp, err) ->
  length (elems (CompletionResponse.Choices resp)) = length js /\
  elems (CompletionResponse.Choices resp)
    = map (fun j => (decode (ptr_codec CompletionChoice_codec) j None).1) js.
Proof.
  intros Hparse Hchoices Hun.
  destruct (Unmarshal_populated body ms resp err Hparse Hun) as (_ & _ & _ & _ & Hc & _).
  rewrite Hchoices, slice_fresh in Hc. rewrite Hc. simpl. now rewrite length_map.
Qed.

End Response.

Section Logprobs.
Context `{FloatText}.

Ltac unfold_store := try unfold LogprobResult_store.

Ltac other_fields :=
  let i := fresh "i" in
  let j := fresh "j" in
  let Hne := fresh "Hne" in
  intros i j ? Hne;
  do 5 (destruct i as [|i];
        [first [congruence | reflexivity
               | unfold_store; destruct (decode _ j _); reflexivity]|]);
  reflexivity.

Ltac this_field :=
  let j := fresh "j" in
  intros j ?; unfold_store; destruct (decode _ j _); reflexivity.

(** C7: log probabilities whose four arrays are given with any lengths,
    equal or not, are taken as they are: when every element is of the type of
    its array, the decoder reports no error, and each array of the result has
    the elements of the array of the same key, one for one and in order,
    neither cut nor padded to the length of another. *)
Theorem logprobs_kept_as_given (ms : list (string * json)) (ts ls ps os : list json) :
  field_values LogprobResult_keys 0 ms = [JArr ts] ->
  field_values LogprobResult_keys 1 ms = [JArr ls] ->
  field_values LogprobResult_keys 2 ms = [JArr ps] ->
  field_values LogprobResult_keys 3 ms = [JArr os] ->
  Forall (accepts string_codec) ts ->
  Forall (accepts (float_codec 32)) ls ->
  Forall (accepts (map_codec (float_codec 32))) ps ->
  Forall (accepts int_codec) os ->
  exists r,
    decode LogprobResult_codec (JObj ms) LogprobResult_zero = (r, None) /\
    elems (LogprobResult.Tokens r) = map (fun j => (decode string_codec j "").1) ts /\
    elems (LogprobResult.TokenLogprobs r)
      = map (fun j => (decode (float_codec 32) j (S754_zero false)).1) ls /\
    elems (LogprobResult.TopLogprobs r)
      = map (fun j => (decode (map_codec (float_codec 32)) j None).1) ps /\
    elems (LogprobResult.TextOffset r) = map (fun j => (decode int_codec j 0).1) os /\
    length (elems (LogprobResult.Tokens r)) = length ts /\
    length (elems (LogprobResult.TokenLogprobs r)) = length ls /\
    length (elems (LogprobResult.TopLogprobs r)) = length ps /\
    length (elems (LogprobResult.TextOffset r)) = length os.
Proof.
  intros Ht Hl Hp Ho At Al Ap Ao.
  exists (decode_members LogprobResult_keys LogprobResult_store ms LogprobResult_zero).1.
  assert (LogprobResult.Tokens
            (decode_members LogprobResult_keys LogprobResult_store ms LogprobResult_zero).1
          = slice_of (map (fun j => (decode string_codec j "").1) ts)) as E0.
  { rewrite (decode_members_field _ _ LogprobResult.Tokens (slice_codec string_codec) 0);
      [|this_field|other_fields]. rewrite Ht. apply slice_fresh. }
  assert (LogprobResult.TokenLogprobs
            (decode_members LogprobResult_keys LogprobResult_store ms LogprobResult_zero).1
          = slice_of (map (fun j => (decode (float_codec 32) j (S754_zero false)).1) ls))
    as E1.
  { rewrite (decode_members_field _ _ LogprobResult.TokenLogprobs
               (slice_codec (float_codec 32)) 1); [|this_field|other_fields].
    rewrite Hl. apply slice_fresh. }
  assert (LogprobResult.TopLogprobs
            (decode_members LogprobResult_keys LogprobResult_store ms LogprobResult_zero).1
          = slice_of (map (fun j => (decode (map_codec (float_codec 32)) j None).1) ps))
    as E2.
  { rewrite (decode_members_field _ _ LogprobResult.TopLogprobs
               (slice_codec (map_codec (float_codec 32))) 2); [|this_field|other_fields].
    rewrite Hp. apply slice_fresh. }
  assert (LogprobResult.TextOffset
            (decode_members LogprobResult_keys LogprobResult_store ms LogprobResult_zero).1
          = slice_of (map (fun j => (decode int_codec j 0).1) os)) as E3.
  { rewrite (decode_members_field _ _ LogprobResult.TextOffset (slice_codec int_codec) 3);
      [|this_field|other_fields]. rewrite Ho. apply slice_fresh. }
  split.
  - change (decode LogprobResult_codec (JObj ms) LogprobResult_zero)
      with (decode_members LogprobResult_keys LogprobResult_store ms LogprobResult_zero).
    rewrite (surjective_pairing
               (decode_members LogprobResult_keys LogprobResult_store ms LogprobResult_zero))
      at 1.
    f_equal. apply decode_members_accepted.
    intros k j i Hin Hk s.
    pose proof (field_values_elem _ _ _ _ _ Hin Hk) as Hj.
    destruct i as [|[|[|[|i]]]].
    + rewrite Ht in Hj. apply list_elem_of_singleton in Hj. subst j.
      pose proof (slice_accepts string_codec ts At (LogprobResult.Tokens s)) as Hs.
      unfold LogprobResult_store. now destruct (decode _ (JArr ts) _).
    + rewrite Hl in Hj. apply list_elem_of_singleton in Hj. subst j.
      pose proof (slice_accepts (float_codec 32) ls Al (LogprobResult.TokenLogprobs s)) as Hs.
      unfold LogprobResult_store. now destruct (decode _ (JArr ls) _).
    + rewrite Hp in Hj. apply list_elem_of_singleton in Hj. subst j.
      pose proof (slice_accepts (map_codec (float_codec 32)) ps Ap
                    (LogprobResult.TopLogprobs s)) as Hs.
      unfold LogprobResult_store. now destruct (decode _ (JArr ps) _).
    + rewrite Ho in Hj. apply list_elem_of_singleton in Hj. subst j.
      pose proof (slice_accepts int_codec os Ao (LogprobResult.TextOffset s)) as Hs.
      unfold LogprobResult_store. now destruct (decode _ (JArr os) _).
    + reflexivity.
  - rewrite E0, E1, E2, E3. simpl. rewrite !length_map. repeat split; reflexivity.
Qed.

End Logprobs.

Import DecimalFloat Spec Samples.

(** C5, as stated, fails: a body that lists the choice of index 1 before the
    choice of index 0 decodes without error to two choices in that order,
    which is not ascending. *)
Lemma choices_not_sorted_by_index :
  Unmarshal CompletionResponse_codec swapped_body CompletionResponse_zero
    = (swapped_response, None) /\
  length (elems (CompletionResponse.Choices swapped_response)) = 2%nat /\
  indexes (elems (CompletionResponse.Choices swapped_response)) = [1; 0] /\
  ~ ascending (indexes (elems (CompletionResponse.Choices swapped_response))).
Proof.
  split; [vm_compute; reflexivity|]. split; [reflexivity|]. split; [reflexivity|].
  intros Hasc. specialize (Hasc 0%nat 1%nat 1 0 eq_refl eq_refl). lia.
Qed.

(** A body with two entries yields two choices, the first from the first
    entry and the second from the second, though the indexes are 1 and 0. *)
Lemma two_choices_witness :
  exists resp : CompletionResponse Completion,
    Unmarshal CompletionResponse_codec swapped_body CompletionResponse_zero = (resp, None) /\
    length (elems (CompletionResponse.Choices resp)) = 2%nat /\
    elems (CompletionResponse.Choices resp)
      = [Some {| CompletionChoice.Text := "b"; CompletionChoice.Index := 1;
                 CompletionChoice.FinishReason := "";
                 CompletionChoice.LogProbs := None |};
         Some {| CompletionChoice.Text := "a"; CompletionChoice.Index := 0;
                 CompletionChoice.FinishReason := "";
                 CompletionChoice.LogProbs := None |}].
Proof.
  assert (JSON.parse swapped_body = Some (JObj swapped_members)) as Hp
    by (vm_compute; reflexivity).
  assert (Unmarshal CompletionResponse_codec swapped_body CompletionResponse_zero
          = (swapped_response, None)) as Hun by (vm_compute; reflexivity).
  exists swapped_response. split; [exact Hun|].
  exact (choices_follow_source_array swapped_body swapped_members _ swapped_response None
           Hp eq_refl Hun).
Defined.

(** Two tokens, three probabilities, one map of alternatives, no offset: all
    four arrays are kept with the lengths they came with. *)
Lemma uneven_logprobs_witness :
  exists r,
    decode LogprobResult_codec (JObj uneven_logprobs) LogprobResult_zero = (r, None) /\
    length (elems (LogprobResult.Tokens r)) = 2%nat /\
    length (elems (LogprobResult.TokenLogprobs r)) = 3%nat /\
    length (elems (LogprobResult.TopLogprobs r)) = 1%nat /\
    length (elems (LogprobResult.TextOffset r)) = 0%nat.
Proof.
  destruct (logprobs_kept_as_given uneven_logprobs
              [JStr "Hi"; JStr "!"] [JNum "-0.5"; JNum "-0.25"; JNum "-2"]
              [JObj [("Hi", JNum "-0.5")]] [])
    as (r & Hd & _ & _ & _ & _ & L0 & L1 & L2 & L3);
    try reflexivity.
  - repeat constructor; intros v; reflexivity.
  - repeat constructor; intros v; vm_compute; reflexivity.
  - repeat constructor; intros v; vm_compute; reflexivity.
  - constructor.
  - exists r. repeat split; assumption.
Defined.

End DecodeClaims.


(** ** The claims about the request *)

Module RequestClaims.
Import Bytes UTF8 Strconv JSON Codec openai Props.
Import UTF8Facts StrconvFacts CodecFacts StructFacts RequestFacts KeyFacts EncodeFacts.
Import TransportFacts.

Lemma same_key_same_flag (table : list (string * bool)) (k : string) (e e' : bool) :
  NoDup (table.*1) -> (k, e) ∈ table -> (k, e') ∈ table -> e = e'.
Proof.
  induction table as [|[k0 e0] table IH]; simpl; intros Hnd Hin Hin'.
  - now apply elem_of_nil in Hin.
  - apply NoDup_cons in Hnd as [Hk0 Hnd].
    apply elem_of_cons in Hin as [Heq|Hin]; apply elem_of_cons in Hin' as [Heq'|Hin'].
    + congruence.
    + exfalso. apply Hk0. apply list_elem_of_fmap. exists (k, e'). split; [|assumption].
      simpl. congruence.
    + exfalso. apply Hk0. apply list_elem_of_fmap. exists (k, e). split; [|assumption].
      simpl. congruence.
    + now apply IH.
Qed.

(** In a table with no repeated key, the keys that are kept are those whose
    flag is off. *)
Lemma kept_keys (table : list (string * bool)) (k : string) (e : bool) :
  NoDup (table.*1) -> (k, e) ∈ table ->
  k ∈ flat_map (fun kv : string * bool => if kv.2 then [] else [kv.1]) table <-> e = false.
Proof.
  intros Hnd Hin. rewrite list_elem_of_In, in_flat_map. split.
  - intros ([k' e'] & Hin' & Hk). apply list_elem_of_In in Hin'. simpl in Hk.
    destruct e'; [contradiction|]. destruct Hk as [->|[]].
    exact (same_key_same_flag table k e false Hnd Hin Hin').
  - intros ->. exists (k, false). split; [now apply list_elem_of_In|now left].
Qed.

Section Request.
Context `{FloatText} {T : Type} `{ModelID T}.

Lemma optional_keys_NoDup (r : CompletionRequest T) : NoDup ((optional_fields r).*1).
Proof.
  simpl.
  repeat (apply NoDup_cons_2;
          [rewrite ?elem_of_cons, elem_of_nil; intuition discriminate|]).
  apply NoDup_nil_2.
Qed.

Lemma optional_keys_not_model (r : CompletionRequest T) : "model" ∉ (optional_fields r).*1.
Proof. simpl. rewrite !elem_of_cons, elem_of_nil. intuition discriminate. Qed.

(** C2, as amended: the keys of the encoding of a request are [model]
    followed by the keys of the optional fields that are not empty, in the
    order of the struct; so an optional field has its key exactly when it is
    not empty, where an empty slice or map that is not nil counts as empty
    like nil; and temperature, top-p and the log-probability count, which are
    pointers, have their key whenever they are not nil, at zero too. *)
Theorem keys_are_the_nonempty_fields (r : CompletionRequest T) (j : json) :
  Marshal CompletionRequest_codec r = Ok j ->
  keys_of j = request_keys r /\
  "model" ∈ keys_of j /\
  (forall k empty, (k, empty) ∈ optional_fields r -> (k ∈ keys_of j <-> empty = false)) /\
  (forall f, CompletionRequest.Temperature r = Some f -> "temperature" ∈ keys_of j) /\
  (forall f, CompletionRequest.TopP r = Some f -> "top_p" ∈ keys_of j) /\
  (forall n, CompletionRequest.LogProbs r = Some n -> "logprobs" ∈ keys_of j).
Proof.
  intros Hj. pose proof (request_encode_keys r j Hj) as Hkeys.
  assert (forall k empty, (k, empty) ∈ optional_fields r ->
            (k ∈ keys_of j <-> empty = false)) as Hopt.
  { intros k e Hin. rewrite Hkeys. unfold request_keys. rewrite elem_of_cons.
    rewrite <- (kept_keys _ k e (optional_keys_NoDup r) Hin). split; [|now right].
    intros [->|Hk]; [|exact Hk]. exfalso. apply (optional_keys_not_model r).
    apply list_elem_of_fmap. now exists ("model", e). }
  split; [exact Hkeys|]. split; [rewrite Hkeys; apply list_elem_of_here|].
  split; [exact Hopt|]. repeat split.
  - intros f Hf. apply (Hopt "temperature" false); [|reflexivity].
    unfold optional_fields. rewrite Hf. do 3 apply list_elem_of_further. apply list_elem_of_here.
  - intros f Hf. apply (Hopt "top_p" false); [|reflexivity].
    unfold optional_fields. rewrite Hf. do 4 apply list_elem_of_further. apply list_elem_of_here.
  - intros n Hn. apply (Hopt "logprobs" false); [|reflexivity].
    unfold optional_fields. rewrite Hn. do 7 apply list_elem_of_further. apply list_elem_of_here.
Qed.

Lemma canon_agrees (r : CompletionRequest T) : agree_on_set r (canon r).
Proof.
  constructor; simpl; try reflexivity; try (intros _; reflexivity).
  - intros Hne. now destruct (elems (CompletionRequest.Stop r)).
  - now intros ->.
  - now intros ->.
  - intros Hne. now rewrite bool_decide_eq_false_2.
Qed.

Lemma canon_zero_on_empty (r : CompletionRequest T) : zero_on_empty r (canon r).
Proof.
  constructor; simpl; try (intros Hz; exact Hz).
  - now intros ->.
  - now intros ->.
  - now intros ->.
  - intros Hz. now rewrite bool_decide_eq_true_2.
Qed.

(** C1, as amended: a request whose strings are valid UTF-8, whose integers
    are values of [int] and whose floats are finite and come back from their
    text is encoded without error, and the encoding is decoded without error
    to the request with every empty optional field at its zero value: the
    request decoded has the value of the original in every field of the
    original that is not empty, and the zero value in every optional field
    of the original that is empty. *)
Theorem round_trip_on_set_fields (r : CompletionRequest T) :
  well_formed r ->
  exists j,
    Marshal CompletionRequest_codec r = Ok j /\
    decode CompletionRequest_codec j CompletionRequest_zero = (canon r, None) /\
    agree_on_set r (canon r) /\
    zero_on_empty r (canon r).
Proof.
  intros Hwf. destruct (request_decode_encode r Hwf) as (j & Hm & Hd).
  exists j. split; [exact Hm|]. split; [exact Hd|].
  split; [apply canon_agrees|apply canon_zero_on_empty].
Qed.

(** C8: the request with a model, the prompt "Say hi", five tokens at most
    and every other field unset is encoded as an object with the three
    members [model], [prompt] and [max_tokens] and no other key. *)
Theorem say_hi_has_three_keys (m : T) (jm : json) :
  encode model_codec m = Ok jm ->
  Marshal CompletionRequest_codec (Samples.say_hi m)
    = Ok (JObj [("model", jm); ("prompt", JStr "Say hi"); ("max_tokens", JNum "5")]) /\
  keys_of (JObj [("model", jm); ("prompt", JStr "Say hi"); ("max_tokens", JNum "5")])
    = ["model"; "prompt"; "max_tokens"].
Proof.
  intros Hm. split; [|reflexivity].
  unfold Marshal. simpl. unfold CompletionRequest_encode, encode_struct, member. simpl.
  rewrite Hm. reflexivity.
Qed.

Lemma collect_Ok {A B : Type} (f : A -> B) (l : list A) :
  collect (map (fun x => Ok (f x)) l) = Ok (map f l).
Proof. induction l as [|x l IH]; simpl; [reflexivity|]. now rewrite IH. Qed.

Lemma encode_strings (s : slice string) :
  s <> None ->
  encode (slice_codec string_codec) s
  = Ok (JArr (map (fun s => JStr (toValidUTF8 s)) (elems s))).
Proof.
  destruct s as [[l beyond]|]; [intros _|congruence]. simpl.
  now rewrite (collect_Ok (fun s => JStr (toValidUTF8 s))).
Qed.

Lemma encode_biases (m : gmap string Z) :
  encode (map_codec int_codec) (Some m)
  = Ok (JObj (map (fun kv : string * Z => (toValidUTF8 kv.1, JNum (FormatInt kv.2)))
                (sorted_entries m))).
Proof.
  simpl.
  now rewrite (collect_Ok (fun kv : string * Z => (toValidUTF8 kv.1, JNum (FormatInt kv.2)))).
Qed.

Ltac found :=
  cbn [concat];
  repeat (apply elem_of_app;
          first [left; apply list_elem_of_singleton; reflexivity | right]).

(** The encoding of a request whose model identifier is encoded and whose
    floats are finite: it exists whatever the other fields hold, and carries
    them as they are. *)
Lemma request_encode_as_is (r : CompletionRequest T) :
  ok (encode model_codec (CompletionRequest.Model r)) -> finite_floats r ->
  exists ms,
    Marshal CompletionRequest_codec r = Ok (JObj ms) /\
    map fst ms = request_keys r /\
    written_as_is r ms.
Proof.
  intros Hm Hfin. destruct (request_encode_ok r Hm Hfin) as [j Hj].
  pose proof (request_encode_keys r j Hj) as Hkeys.
  revert Hj Hkeys. unfold Marshal. simpl. unfold CompletionRequest_encode, encode_struct.
  simpl.
  repeat match goal with
  | |- context [bind (member ?c ?k ?om ?v) _] =>
    let E := fresh "E" in
    destruct (member c k om v) eqn:E; simpl; [|discriminate]
  end.
  intros [= <-] Hkeys. eexists. split; [reflexivity|]. split; [exact Hkeys|].
  destruct Hfin as (_ & _ & Hpp & Hfp).
  unfold written_as_is. repeat split.
  - intros n Hn. rewrite Hn in *. injection E7 as <-. found.
  - intros Hn. unfold member in E5. simpl in E5.
    destruct (Z.eqb_spec (CompletionRequest.N r) 0); [contradiction|].
    injection E5 as <-. found.
  - intros Hn. unfold member in E12. simpl in E12.
    destruct (Z.eqb_spec (CompletionRequest.BestOf r) 0); [contradiction|].
    injection E12 as <-. found.
  - intros Hn. unfold member in E9. cbn [isEmptyValue slice_codec andb] in E9.
    rewrite encode_strings in E9 by (intros Hnil; now rewrite Hnil in Hn).
    destruct (elems (CompletionRequest.Stop r)) as [|s l] eqn:El; [contradiction|].
    injection E9 as <-. found.
  - intros Hz. unfold member in E10. cbn [isEmptyValue float_codec andb] in E10.
    rewrite Hz in E10.
    destruct (CompletionRequest.PresencePenalty r); try discriminate;
      injection E10 as <-; found.
  - intros Hz. unfold member in E11. cbn [isEmptyValue float_codec andb] in E11.
    rewrite Hz in E11.
    destruct (CompletionRequest.FrequencyPenalty r); try discriminate;
      injection E11 as <-; found.
  - intros m Hlb Hne. rewrite Hlb in E13. unfold member in E13.
    cbn [isEmptyValue map_codec andb] in E13.
    rewrite bool_decide_eq_false_2 in E13 by assumption.
    rewrite encode_biases in E13. injection E13 as <-. found.
Qed.

End Request.

Section Transport.
Context `{FloatText} `{Repo}.

(** C10, as amended: nothing checks a documented range.  Whatever the
    log-probability count, the penalties, the number of stop sequences, the
    biases, n and best_of are, a request whose model identifier is encoded
    and whose floats are finite is encoded without error, with these values
    written as they are; and the two functions hand the request to [post]
    without reading it. *)
Theorem field_ranges_are_not_validated (c : Client) (ctx : context_Context) :
  (forall (T : Type) (MT : ModelID T) (r : CompletionRequest T),
     ok (encode model_codec (CompletionRequest.Model r)) -> finite_floats r ->
     exists ms,
       Marshal CompletionRequest_codec r = Ok (JObj ms) /\
       map fst ms = request_keys r /\
       written_as_is r ms) /\
  (forall cr cr',
     post c models_Completion ctx routes_Completions cr
       = post c models_Completion ctx routes_Completions cr' ->
     CreateCompletion c ctx cr = CreateCompletion c ctx cr') /\
  (forall cr cr',
     post c models_FineTunedModel ctx routes_Completions cr
       = post c models_FineTunedModel ctx routes_Completions cr' ->
     CreateFineTunedCompletion c ctx cr = CreateFineTunedCompletion c ctx cr').
Proof.
  split; [intros T MT r; apply request_encode_as_is|].
  split; intros cr cr' Hpost.
  - unfold CreateCompletion. now rewrite Hpost.
  - unfold CreateFineTunedCompletion. now rewrite Hpost.
Qed.

End Transport.

Import DecimalFloat Spec Samples.

Lemma everything_well_formed : well_formed everything.
Proof.
  constructor; simpl.
  - exists (JStr "text-davinci-003"). repeat split; [discriminate].
  - reflexivity.
  - reflexivity.
  - unfold is_int. lia.
  - intros f [= <-]. split; vm_compute; reflexivity.
  - intros f [= <-]. split; vm_compute; reflexivity.
  - unfold is_int. lia.
  - intros n [= <-]. unfold is_int. lia.
  - repeat constructor.
  - split; vm_compute; reflexivity.
  - split; vm_compute; reflexivity.
  - unfold is_int. lia.
  - intros k n Hk.
    apply lookup_insert_Some in Hk as [[<- <-]|[_ Hk]]; [split; [reflexivity|unfold is_int; lia]|].
    apply lookup_insert_Some in Hk as [[<- <-]|[_ Hk]]; [split; [reflexivity|unfold is_int; lia]|].
    now rewrite lookup_empty in Hk.
  - reflexivity.
Qed.

Lemma empty_stop_well_formed : well_formed empty_stop.
Proof.
  constructor; simpl.
  - exists (JStr "text-davinci-003"). repeat split; [discriminate].
  - reflexivity.
  - reflexivity.
  - unfold is_int. lia.
  - discriminate.
  - discriminate.
  - unfold is_int. lia.
  - discriminate.
  - constructor.
  - split; vm_compute; reflexivity.
  - split; vm_compute; reflexivity.
  - unfold is_int. lia.
  - intros k n Hk. now rewrite lookup_empty in Hk.
  - reflexivity.
Qed.

(** A request with every field set comes back whole; and a request with a
    prompt, a token limit and stop sequences set to an empty slice comes back
    with its prompt and its token limit, with nil stop sequences, and with
    every other optional field at its zero value, as it was. *)
Lemma everything_round_trip_witness :
  (exists j,
     Marshal CompletionRequest_codec everything = Ok j /\
     decode CompletionRequest_codec j CompletionRequest_zero = (everything, None)) /\
  (exists j,
     Marshal CompletionRequest_codec empty_stop = Ok j /\
     decode CompletionRequest_codec j CompletionRequest_zero = (say_hi davinci, None) /\
     CompletionRequest.Stop empty_stop = slice_of [] /\
     CompletionRequest.Stop (say_hi davinci) = None /\
     zero_on_empty empty_stop (say_hi davinci)).
Proof.
  assert (canon everything = everything) as Hc by (vm_compute; reflexivity).
  assert (canon empty_stop = say_hi davinci) as Hc' by (vm_compute; reflexivity).
  destruct (round_trip_on_set_fields everything everything_well_formed)
    as (j & Hm & Hd & _ & _).
  destruct (round_trip_on_set_fields empty_stop empty_stop_well_formed)
    as (j' & Hm' & Hd' & _ & Hz).
  rewrite Hc in Hd. rewrite Hc' in Hd', Hz. split.
  - exists j. split; [exact Hm|exact Hd].
  - exists j'. split; [exact Hm'|]. split; [exact Hd'|]. split; [reflexivity|].
    split; [reflexivity|exact Hz].
Defined.

(** C1, as stated, fails: a prompt that is no valid UTF-8 comes back as the
    replacement rune; a penalty that is NaN has no encoding at all; and stop
    sequences set to an empty slice come back as the nil slice. *)
Lemma round_trip_counterexample :
  (exists j (r' : CompletionRequest Completion),
     Marshal CompletionRequest_codec latin1_prompt = Ok j /\
     decode CompletionRequest_codec j CompletionRequest_zero = (r', None) /\
     CompletionRequest.Prompt latin1_prompt <> "" /\
     CompletionRequest.Prompt r' = UTF8.replacement /\
     CompletionRequest.Prompt r' <> CompletionRequest.Prompt latin1_prompt) /\
  Marshal CompletionRequest_codec nan_penalty = Err (UnsupportedValueError "NaN") /\
  (exists j (r' : CompletionRequest Completion),
     Marshal CompletionRequest_codec empty_stop = Ok j /\
     decode CompletionRequest_codec j CompletionRequest_zero = (r', None) /\
     CompletionRequest.Stop empty_stop = slice_of [] /\
     CompletionRequest.Stop r' = None).
Proof.
  split; [|split].
  - exists (JObj [("model", JStr "text-davinci-003"); ("prompt", JStr UTF8.replacement);
                  ("max_tokens", JNum "5")]).
    exists (CompletionRequest.set_Prompt UTF8.replacement (say_hi davinci)).
    split; [vm_compute; reflexivity|]. split; [vm_compute; reflexivity|].
    repeat split; discriminate.
  - vm_compute. reflexivity.
  - exists say_hi_json, (say_hi davinci).
    split; [vm_compute; reflexivity|]. split; [vm_compute; reflexivity|].
    split; reflexivity.
Qed.

(** The request with every field set has every key. *)
Lemma everything_keys_witness :
  Marshal CompletionRequest_codec everything = Ok everything_json /\
  keys_of everything_json = request_keys everything /\
  "temperature" ∈ keys_of everything_json /\
  "logprobs" ∈ keys_of everything_json.
Proof.
  assert (Marshal CompletionRequest_codec everything = Ok everything_json) as Hm
    by (vm_compute; reflexivity).
  destruct (keys_are_the_nonempty_fields everything everything_json Hm)
    as (Hk & _ & _ & Ht & _ & Hl).
  split; [exact Hm|]. split; [exact Hk|]. split.
  - exact (Ht (S754_zero false) eq_refl).
  - exact (Hl 0 eq_refl).
Defined.

(** C2, as stated, fails: stop sequences set to an empty slice, which is not
    the zero value of the field, are written with no key. *)
Lemma empty_stop_has_no_key :
  CompletionRequest.Stop empty_stop = slice_of [] /\
  CompletionRequest.Stop empty_stop <> zero (slice_codec string_codec) /\
  Marshal CompletionRequest_codec empty_stop = Ok say_hi_json /\
  "stop" ∉ keys_of say_hi_json.
Proof.
  split; [reflexivity|]. split; [discriminate|]. split; [vm_compute; reflexivity|].
  simpl. rewrite !elem_of_cons, elem_of_nil. intuition discriminate.
Qed.

(** The scenario at the model text-davinci-003. *)
Lemma say_hi_davinci_witness :
  Marshal CompletionRequest_codec (say_hi davinci) = Ok say_hi_json /\
  keys_of say_hi_json = ["model"; "prompt"; "max_tokens"].
Proof.
  assert (encode model_codec davinci = Ok (JStr "text-davinci-003")) as Hm
    by (vm_compute; reflexivity).
  exact (say_hi_has_three_keys davinci (JStr "text-davinci-003") Hm).
Defined.

(** Five stop sequences, a penalty of 2.5, a bias of -1000 and best_of below
    n are all written. *)
Lemma out_of_range_witness :
  exists ms,
    Marshal CompletionRequest_codec everything = Ok (JObj ms) /\
    map fst ms = request_keys everything /\
    written_as_is everything ms.
Proof.
  apply (proj1 (field_ranges_are_not_validated refused ()) Completion _ everything).
  - exists (JStr "text-davinci-003"). vm_compute. reflexivity.
  - repeat split; try reflexivity; intros f [= <-]; reflexivity.
Defined.

(** C10, as stated, fails: a presence penalty that is NaN makes the encoder
    return an error, for the value of a field. *)
Lemma nan_penalty_is_refused :
  is_finite (CompletionRequest.PresencePenalty nan_penalty) = false /\
  Marshal CompletionRequest_codec nan_penalty = Err (UnsupportedValueError "NaN").
Proof. split; [reflexivity|vm_compute; reflexivity]. Qed.

End RequestClaims.


(** ** More facts about the decoder *)

Module RefusalFacts.
Import Bytes UTF8 Strconv JSON Codec openai Props Shapes.
Import CodecFacts StructFacts DecodeFacts.

Lemma saveError_Some (e : error) (e' : option error) : saveError (Some e) e' = Some e.
Proof. reflexivity. Qed.

Lemma saveError_refused (e e' : option error) :
  e <> None \/ e' <> None -> saveError e e' <> None.
Proof. destruct e, e'; simpl; intros [?|?]; congruence. Qed.

(** A member that its field refuses makes the decoder of the struct save an
    error, wherever the member stands. *)
Lemma decode_members_refused {S : Type} (names : list string)
  (store : nat -> json -> S -> S * option error) (ms : list (string * json)) k j i :
  (k, j) ∈ ms -> fieldIndex names k = Some i ->
  (forall s, (store i j s).2 <> None) ->
  forall s, (decode_members names store ms s).2 <> None.
Proof.
  intros Hin Hk Hstore. induction ms as [|[k' j'] ms IH]; intros s.
  - now apply elem_of_nil in Hin.
  - cbn [decode_members].
    destruct (match fieldIndex names k' with
              | Some i' => store i' j' s
              | None => (s, None)
              end) as [s1 e] eqn:E1.
    destruct (decode_members names store ms s1) as [s2 e'] eqn:E2.
    apply saveError_refused. apply elem_of_cons in Hin as [[= <- <-]|Hin].
    + left. rewrite Hk in E1. specialize (Hstore s). now rewrite E1 in Hstore.
    + right. specialize (IH Hin s1). now rewrite E2 in IH.
Qed.

Lemma decode_members_misfit {S : Type} (names : list string)
  (store : nat -> json -> S -> S * option error) (ms : list (string * json)) k j name :
  (k, j) ∈ ms -> selects names k name ->
  (forall i s, names !! i = Some name -> (store i j s).2 <> None) ->
  forall s, (decode_members names store ms s).2 <> None.
Proof.
  intros Hin (i & Hk & Hi) Hstore.
  apply (decode_members_refused names store ms k j i Hin Hk). intros s. now apply Hstore.
Qed.

(** An element that the decoder of the elements refuses makes the decoder of
    the slice save an error. *)
Lemma decode_elems_refused {A : Type} (c : codec A) (js : list json) (j : json) :
  j ∈ js -> refuses c j -> forall old, (decode_elems c js old).2 <> None.
Proof.
  intros Hin Hj. induction js as [|j' js IH]; intros old.
  - now apply elem_of_nil in Hin.
  - cbn [decode_elems].
    destruct (decode c j' (hd (zero c) old)) as [v e] eqn:E1.
    destruct (decode_elems c js (tl old)) as [vs e'] eqn:E2.
    apply saveError_refused. apply elem_of_cons in Hin as [<-|Hin].
    + left. specialize (Hj (hd (zero c) old)). now rewrite E1 in Hj.
    + right. specialize (IH Hin (tl old)). now rewrite E2 in IH.
Qed.

Lemma slice_refuses {A : Type} (c : codec A) (js : list json) (j : json) :
  j ∈ js -> refuses c j -> refuses (slice_codec c) (JArr js).
Proof.
  intros Hin Hj old. destruct js as [|j0 js]; [now apply elem_of_nil in Hin|].
  cbn [decode slice_codec].
  pose proof (decode_elems_refused c (j0 :: js) j Hin Hj (backing old)) as He.
  now destruct (decode_elems c (j0 :: js) (backing old)).
Qed.

Lemma ptr_refuses {A : Type} (c : codec A) (j : json) :
  j <> JNull -> refuses c j -> refuses (ptr_codec c) j.
Proof.
  intros Hn Hj p. cbn [decode ptr_codec]. specialize (Hj (default (zero c) p)).
  destruct j; try congruence; now destruct (decode c _ (default (zero c) p)).
Qed.

Lemma string_refuses (j : json) : not_a_string j -> refuses string_codec j.
Proof. intros Hj v. destruct j; simpl in *; try contradiction; discriminate. Qed.

Lemma uint64_refuses (j : json) : not_a_uint64 j -> refuses uint64_codec j.
Proof.
  intros Hj v. destruct j; simpl in *; try contradiction; try discriminate.
  rewrite Hj. discriminate.
Qed.

Lemma int_refuses (j : json) : not_an_int j -> refuses int_codec j.
Proof.
  intros Hj v. destruct j; simpl in *; try contradiction; try discriminate.
  rewrite Hj. discriminate.
Qed.

Lemma slice_refuses_kind {A : Type} (c : codec A) (j : json) :
  not_an_array j -> refuses (slice_codec c) j.
Proof. intros Hj v. destruct j; simpl in *; try contradiction; discriminate. Qed.

Lemma struct_refuses_kind {S : Type} type names
  (store : nat -> json -> S -> S * option error) (j : json) (s : S) :
  not_an_object j -> (decode_struct type names store j s).2 <> None.
Proof. intros Hj. destruct j; simpl in *; try contradiction; discriminate. Qed.

(** The members whose key selects no field are passed over. *)
Lemma decode_members_known {S : Type} (names : list string)
  (store : nat -> json -> S -> S * option error) (ms : list (string * json)) (s : S) :
  decode_members names store ms s = decode_members names store (known names ms) s.
Proof.
  revert s. induction ms as [|[k j] ms IH]; intros s; [reflexivity|].
  unfold known in *. rewrite filter_cons. cbn [decode_members fst].
  destruct (fieldIndex names k) as [i|] eqn:Ek.
  - rewrite decide_True by (now eexists). cbn [decode_members]. rewrite Ek.
    destruct (store i j s) as [s1 e]. now rewrite IH.
  - rewrite decide_False by (intros [x Hx]; discriminate). rewrite <- IH.
    now destruct (decode_members names store ms s).
Qed.

End RefusalFacts.


(** ** More about the transport operation: what a body makes of a call *)

Module TransportProperties.
Import Bytes UTF8 Strconv JSON Codec openai Props Shapes.
Import DecodeFacts TransportFacts RefusalFacts.

Section Transport.
Context `{FloatText} `{Repo}.

Section Variant.
Context {T : Type} `{ModelID T}.

Lemma transport_cases (c : Client) ctx (cr : option (CompletionRequest T)) :
  (exists resp, transport c ctx cr = (Some resp, None)) \/
  (exists e, transport c ctx cr = (None, Some e)).
Proof.
  unfold transport. destruct (post c T ctx routes_Completions cr) as [b [e|]].
  - right. now exists e.
  - destruct (Unmarshal CompletionResponse_codec b CompletionResponse_zero) as [resp [e|]].
    + right. now exists e.
    + left. now exists resp.
Qed.

Lemma transport_decode (c : Client) ctx (cr : option (CompletionRequest T)) body j :
  post c T ctx routes_Completions cr = (body, None) ->
  JSON.parse body = Some j ->
  transport c ctx cr =
  match decode CompletionResponse_codec j CompletionResponse_zero with
  | (_, Some e) => (None, Some e)
  | (resp, None) => (Some resp, None)
  end.
Proof. unfold transport, Unmarshal. now intros -> ->. Qed.

Lemma transport_refused (c : Client) ctx (cr : option (CompletionRequest T)) body j :
  post c T ctx routes_Completions cr = (body, None) ->
  JSON.parse body = Some j ->
  (decode CompletionResponse_codec j CompletionResponse_zero).2 <> None ->
  exists e, transport c ctx cr = (None, Some e).
Proof.
  intros Hpost Hparse Hr. rewrite (transport_decode c ctx cr body j Hpost Hparse).
  destruct (decode CompletionResponse_codec j CompletionResponse_zero) as [resp [e|]].
  - now exists e.
  - now contradiction Hr.
Qed.

Lemma transport_other_kind (c : Client) ctx (cr : option (CompletionRequest T)) body j :
  post c T ctx routes_Completions cr = (body, None) ->
  JSON.parse body = Some j -> not_an_object j ->
  exists type, transport c ctx cr = (None, Some (UnmarshalTypeError (describe j) type)).
Proof.
  intros Hpost Hparse Hj. rewrite (transport_decode c ctx cr body j Hpost Hparse).
  exists CompletionResponse_type. now destruct j.
Qed.

Lemma transport_nothing_known (c : Client) ctx (cr : option (CompletionRequest T)) body :
  post c T ctx routes_Completions cr = (body, None) ->
  JSON.parse body = Some JNull \/
  (exists ms, JSON.parse body = Some (JObj ms) /\ known CompletionResponse_keys ms = []) ->
  transport c ctx cr = (Some CompletionResponse_zero, None).
Proof.
  intros Hpost [Hparse|(ms & Hparse & Hms)];
    rewrite (transport_decode c ctx cr body _ Hpost Hparse); [reflexivity|].
  cbn [decode CompletionResponse_codec decode_struct].
  now rewrite decode_members_known, Hms.
Qed.

Lemma transport_known (c c' : Client) ctx ctx' (cr cr' : option (CompletionRequest T))
  body body' ms ms' :
  post c T ctx routes_Completions cr = (body, None) ->
  post c' T ctx' routes_Completions cr' = (body', None) ->
  JSON.parse body = Some (JObj ms) -> JSON.parse body' = Some (JObj ms') ->
  known CompletionResponse_keys ms = known CompletionResponse_keys ms' ->
  transport c ctx cr = transport c' ctx' cr'.
Proof.
  intros Hpost Hpost' Hparse Hparse' Hms.
  rewrite (transport_decode c ctx cr body _ Hpost Hparse).
  rewrite (transport_decode c' ctx' cr' body' _ Hpost' Hparse').
  cbn [decode CompletionResponse_codec decode_struct].
  now rewrite (decode_members_known _ _ ms), (decode_members_known _ _ ms'), Hms.
Qed.

Lemma transport_misfit (c : Client) ctx (cr : option (CompletionRequest T)) body ms k j :
  post c T ctx routes_Completions cr = (body, None) ->
  JSON.parse body = Some (JObj ms) -> (k, j) ∈ ms -> misfit k j ->
  exists e, transport c ctx cr = (None, Some e).
Proof.
  intros Hpost Hparse Hin Hbad. apply (transport_refused c ctx cr body _ Hpost Hparse).
  cbn [decode CompletionResponse_codec decode_struct].
  destruct Hbad as [[Hk Hj]|[[Hk Hj]|[Hk Hj]]];
    apply (decode_members_misfit _ _ ms k j _ Hin Hk); intros i s Hi;
    repeat (destruct i as [|i]; simpl in Hi; try discriminate Hi);
    cbn [CompletionResponse_store].
  - pose proof (string_refuses j Hj (CompletionResponse.ID s)) as Hr.
    now destruct (decode string_codec j (CompletionResponse.ID s)).
  - pose proof (uint64_refuses j Hj (CompletionResponse.Created s)) as Hr.
    now destruct (decode uint64_codec j (CompletionResponse.Created s)).
  - pose proof (slice_refuses_kind (ptr_codec CompletionChoice_codec) j Hj
                  (CompletionResponse.Choices s)) as Hr.
    now destruct (decode (slice_codec (ptr_codec CompletionChoice_codec)) j
                    (CompletionResponse.Choices s)).
Qed.

Lemma choice_refused (j : json) :
  bad_choice j -> refuses (ptr_codec CompletionChoice_codec) j.
Proof.
  intros [Hj|(cms & k & j' & -> & Hin & Hbad)].
  - apply ptr_refuses; [now destruct j|]. intros v.
    now apply struct_refuses_kind.
  - apply ptr_refuses; [discriminate|]. intros v.
    cbn [decode CompletionChoice_codec decode_struct].
    destruct Hbad as [[Hk Hj]|[[Hk Hj]|[[Hk Hj]|[Hk Hj]]]];
      apply (decode_members_misfit _ _ cms k j' _ Hin Hk); intros i s Hi;
      repeat (destruct i as [|i]; simpl in Hi; try discriminate Hi);
      cbn [CompletionChoice_store].
    + pose proof (string_refuses j' Hj (CompletionChoice.Text s)) as Hr.
      now destruct (decode string_codec j' (CompletionChoice.Text s)).
    + pose proof (int_refuses j' Hj (CompletionChoice.Index s)) as Hr.
      now destruct (decode int_codec j' (CompletionChoice.Index s)).
    + pose proof (string_refuses j' Hj (CompletionChoice.FinishReason s)) as Hr.
      now destruct (decode string_codec j' (CompletionChoice.FinishReason s)).
    + assert (refuses (ptr_codec LogprobResult_codec) j') as Hr.
      { apply ptr_refuses; [now destruct j'|]. intros v'. now apply struct_refuses_kind. }
      specialize (Hr (CompletionChoice.LogProbs s)).
      now destruct (decode (ptr_codec LogprobResult_codec) j' (CompletionChoice.LogProbs s)).
Qed.

Lemma transport_bad_choice (c : Client) ctx (cr : option (CompletionRequest T))
  body ms k js j :
  post c T ctx routes_Completions cr = (body, None) ->
  JSON.parse body = Some (JObj ms) ->
  (k, JArr js) ∈ ms -> selects CompletionResponse_keys k "choices" ->
  j ∈ js -> bad_choice j ->
  exists e, transport c ctx cr = (None, Some e).
Proof.
  intros Hpost Hparse Hin Hk Hj Hbad.
  apply (transport_refused c ctx cr body _ Hpost Hparse).
  cbn [decode CompletionResponse_codec decode_struct].
  apply (decode_members_misfit _ _ ms k (JArr js) _ Hin Hk). intros i s Hi.
  repeat (destruct i as [|i]; simpl in Hi; try discriminate Hi).
  cbn [CompletionResponse_store].
  pose proof (slice_refuses (ptr_codec CompletionChoice_codec) js j Hj
                (choice_refused j Hbad) (CompletionResponse.Choices s)) as Hr.
  now destruct (decode (slice_codec (ptr_codec CompletionChoice_codec)) (JArr js)
                  (CompletionResponse.Choices s)).
Qed.

End Variant.

(** Each call returns a response or an error, never both and never
    neither: the response is nil exactly when the error is not. *)
Theorem response_or_error_never_both (c : Client) (ctx : context_Context) :
  (forall cr,
     (exists resp, CreateCompletion c ctx cr = (Some resp, None)) \/
     (exists e, CreateCompletion c ctx cr = (None, Some e))) /\
  (forall cr,
     (exists resp, CreateFineTunedCompletion c ctx cr = (Some resp, None)) \/
     (exists e, CreateFineTunedCompletion c ctx cr = (None, Some e))).
Proof.
  split; intros cr.
  - rewrite CreateCompletion_unfold. apply transport_cases.
  - rewrite CreateFineTunedCompletion_unfold. apply transport_cases.
Qed.

(** A body that is well-formed JSON of another kind than an object or
    [null] (an array, a string, a number, true or false) makes both
    functions return an [UnmarshalTypeError] that names this kind, and no
    response. *)
Theorem body_of_another_kind_is_refused (c : Client) (ctx : context_Context)
  (body : string) (j : json) :
  JSON.parse body = Some j -> not_an_object j ->
  (forall cr, post c models_Completion ctx routes_Completions cr = (body, None) ->
     exists type,
       CreateCompletion c ctx cr = (None, Some (UnmarshalTypeError (describe j) type))) /\
  (forall cr, post c models_FineTunedModel ctx routes_Completions cr = (body, None) ->
     exists type,
       CreateFineTunedCompletion c ctx cr
         = (None, Some (UnmarshalTypeError (describe j) type))).
Proof.
  intros Hparse Hj. split; intros cr Hpost.
  - rewrite CreateCompletion_unfold. exact (transport_other_kind c ctx cr body j Hpost Hparse Hj).
  - rewrite CreateFineTunedCompletion_unfold.
    exact (transport_other_kind c ctx cr body j Hpost Hparse Hj).
Qed.

(** A body that is [null], or an object none of whose keys selects a field
    of the response (the empty object among them), is no error: both
    functions return the zero response and a nil error. *)
Theorem body_with_no_field_gives_zero_response (c : Client) (ctx : context_Context)
  (body : string) :
  JSON.parse body = Some JNull \/
  (exists ms, JSON.parse body = Some (JObj ms) /\ known CompletionResponse_keys ms = []) ->
  (forall cr, post c models_Completion ctx routes_Completions cr = (body, None) ->
     CreateCompletion c ctx cr = (Some CompletionResponse_zero, None)) /\
  (forall cr, post c models_FineTunedModel ctx routes_Completions cr = (body, None) ->
     CreateFineTunedCompletion c ctx cr = (Some CompletionResponse_zero, None)).
Proof.
  intros Hbody. split; intros cr Hpost.
  - rewrite CreateCompletion_unfold. exact (transport_nothing_known c ctx cr body Hpost Hbody).
  - rewrite CreateFineTunedCompletion_unfold.
    exact (transport_nothing_known c ctx cr body Hpost Hbody).
Qed.

(** The members of the body whose key selects no field of the response are
    ignored, whatever their values: two bodies that are objects with the same
    members selecting a field, in the same order, give the same result. *)
Theorem unknown_members_are_ignored (c c' : Client) (ctx ctx' : context_Context)
  (body body' : string) (ms ms' : list (string * json)) :
  JSON.parse body = Some (JObj ms) -> JSON.parse body' = Some (JObj ms') ->
  known CompletionResponse_keys ms = known CompletionResponse_keys ms' ->
  (forall cr cr',
     post c models_Completion ctx routes_Completions cr = (body, None) ->
     post c' models_Completion ctx' routes_Completions cr' = (body', None) ->
     CreateCompletion c ctx cr = CreateCompletion c' ctx' cr') /\
  (forall cr cr',
     post c models_FineTunedModel ctx routes_Completions cr = (body, None) ->
     post c' models_FineTunedModel ctx' routes_Completions cr' = (body', None) ->
     CreateFineTunedCompletion c ctx cr = CreateFineTunedCompletion c' ctx' cr').
Proof.
  intros Hparse Hparse' Hms. split; intros cr cr' Hpost Hpost'.
  - rewrite !CreateCompletion_unfold.
    exact (transport_known c c' ctx ctx' cr cr' body body' ms ms' Hpost Hpost'
             Hparse Hparse' Hms).
  - rewrite !CreateFineTunedCompletion_unfold.
    exact (transport_known c c' ctx ctx' cr cr' body body' ms ms' Hpost Hpost'
             Hparse Hparse' Hms).
Qed.

(** One member of the body that its field does not take is enough for the
    call to fail: when a member selects [id] and is not a string, or selects
    [created] and is not the literal of a [uint64], or selects [choices] and
    is not an array ([null] apart), both functions return an error and no
    response, whatever the other members are. *)
Theorem misfit_member_fails_the_call (c : Client) (ctx : context_Context)
  (body : string) (ms : list (string * json)) (k : string) (j : json) :
  JSON.parse body = Some (JObj ms) -> (k, j) ∈ ms -> misfit k j ->
  (forall cr, post c models_Completion ctx routes_Completions cr = (body, None) ->
     exists e, CreateCompletion c ctx cr = (None, Some e)) /\
  (forall cr, post c models_FineTunedModel ctx routes_Completions cr = (body, None) ->
     exists e, CreateFineTunedCompletion c ctx cr = (None, Some e)).
Proof.
  intros Hparse Hin Hbad. split; intros cr Hpost.
  - rewrite CreateCompletion_unfold.
    exact (transport_misfit c ctx cr body ms k j Hpost Hparse Hin Hbad).
  - rewrite CreateFineTunedCompletion_unfold.
    exact (transport_misfit c ctx cr body ms k j Hpost Hparse Hin Hbad).
Qed.

(** One entry of [choices] that is refused is enough for the call to fail:
    when an entry is neither [null] nor an object, or is an object with a
    text or finish reason that is not a string, an index that is not the
    literal of an [int], or log probabilities that are not an object, both
    functions return an error and no response, not the other choices. *)
Theorem bad_choice_fails_the_call (c : Client) (ctx : context_Context)
  (body : string) (ms : list (string * json)) (k : string) (js : list json) (j : json) :
  JSON.parse body = Some (JObj ms) ->
  (k, JArr js) ∈ ms -> selects CompletionResponse_keys k "choices" ->
  j ∈ js -> bad_choice j ->
  (forall cr, post c models_Completion ctx routes_Completions cr = (body, None) ->
     exists e, CreateCompletion c ctx cr = (None, Some e)) /\
  (forall cr, post c models_FineTunedModel ctx routes_Completions cr = (body, None) ->
     exists e, CreateFineTunedCompletion c ctx cr = (None, Some e)).
Proof.
  intros Hparse Hin Hk Hj Hbad. split; intros cr Hpost.
  - rewrite CreateCompletion_unfold.
    exact (transport_bad_choice c ctx cr body ms k js j Hpost Hparse Hin Hk Hj Hbad).
  - rewrite CreateFineTunedCompletion_unfold.
    exact (transport_bad_choice c ctx cr body ms k js j Hpost Hparse Hin Hk Hj Hbad).
Qed.

End Transport.

Import DecimalFloat Spec Samples.

(** The body is an array. *)
Lemma array_body_witness :
  JSON.parse "[]" = Some (JArr []) /\
  exists type,
    CreateCompletion (answering "[]" None) () None
      = (None, Some (UnmarshalTypeError "array" type)).
Proof.
  assert (JSON.parse "[]" = Some (JArr [])) as Hp by (vm_compute; reflexivity).
  split; [exact Hp|].
  apply (proj1 (body_of_another_kind_is_refused (answering "[]" None) () "[]" (JArr []) Hp I)
           None).
  reflexivity.
Defined.

(** The body is an object with the one key [error]. *)
Lemma error_body_witness :
  JSON.parse (text "{'error':{'message':'overloaded'}}")
    = Some (JObj [("error", JObj [("message", JStr "overloaded")])]) /\
  CreateCompletion (answering (text "{'error':{'message':'overloaded'}}") None) ()
    (Some (say_hi davinci))
  = (Some CompletionResponse_zero, None).
Proof.
  assert (JSON.parse (text "{'error':{'message':'overloaded'}}")
          = Some (JObj [("error", JObj [("message", JStr "overloaded")])])) as Hp
    by (vm_compute; reflexivity).
  split; [exact Hp|].
  exact (proj1 (body_with_no_field_gives_zero_response
                  (answering (text "{'error':{'message':'overloaded'}}") None) () _
                  (or_intror (ex_intro _ _ (conj Hp eq_refl))))
           (Some (say_hi davinci)) eq_refl).
Defined.

(** A body with two keys that select no field, and the same body without
    them. *)
Lemma added_keys_witness :
  CreateCompletion
    (answering (text "{'system_fingerprint':7,'id':'cmpl-3','warnings':[null]}") None) ()
    None
  = CreateCompletion (answering (text "{'id':'cmpl-3'}") None) () (Some (say_hi davinci)).
Proof.
  assert (JSON.parse (text "{'system_fingerprint':7,'id':'cmpl-3','warnings':[null]}")
          = Some (JObj [("system_fingerprint", JNum "7"); ("id", JStr "cmpl-3");
                        ("warnings", JArr [JNull])])) as Hp
    by (vm_compute; reflexivity).
  assert (JSON.parse (text "{'id':'cmpl-3'}") = Some (JObj [("id", JStr "cmpl-3")])) as Hp'
    by (vm_compute; reflexivity).
  apply (proj1 (unknown_members_are_ignored
                  (answering (text "{'system_fingerprint':7,'id':'cmpl-3','warnings':[null]}")
                     None)
                  (answering (text "{'id':'cmpl-3'}") None) () () _ _ _ _ Hp Hp' eq_refl));
    reflexivity.
Defined.

(** The creation time is negative. *)
Lemma negative_created_witness :
  JSON.parse (text "{'id':'cmpl-4','created':-1}")
    = Some (JObj [("id", JStr "cmpl-4"); ("created", JNum "-1")]) /\
  exists e,
    CreateCompletion (answering (text "{'id':'cmpl-4','created':-1}") None) () None
      = (None, Some e).
Proof.
  assert (JSON.parse (text "{'id':'cmpl-4','created':-1}")
          = Some (JObj [("id", JStr "cmpl-4"); ("created", JNum "-1")])) as Hp
    by (vm_compute; reflexivity).
  split; [exact Hp|].
  apply (proj1 (misfit_member_fails_the_call
                  (answering (text "{'id':'cmpl-4','created':-1}") None) () _ _
                  "created" (JNum "-1") Hp
                  (list_elem_of_further _ _ _ (list_elem_of_here _ _))
                  (or_intror (or_introl
                     (conj (ex_intro _ 2%nat (conj eq_refl eq_refl)) eq_refl))))
           None).
  reflexivity.
Defined.

(** The second choice has an index with a fraction. *)
Lemma fractional_index_witness :
  JSON.parse (text "{'choices':[{'text':'a','index':0},{'text':'b','index':1.5}]}")
    = Some (JObj [("choices",
                   JArr [JObj [("text", JStr "a"); ("index", JNum "0")];
                         JObj [("text", JStr "b"); ("index", JNum "1.5")]])]) /\
  exists e,
    CreateCompletion
      (answering (text "{'choices':[{'text':'a','index':0},{'text':'b','index':1.5}]}") None)
      () None
    = (None, Some e).
Proof.
  assert (JSON.parse (text "{'choices':[{'text':'a','index':0},{'text':'b','index':1.5}]}")
          = Some (JObj [("choices",
                         JArr [JObj [("text", JStr "a"); ("index", JNum "0")];
                               JObj [("text", JStr "b"); ("index", JNum "1.5")]])])) as Hp
    by (vm_compute; reflexivity).
  split; [exact Hp|].
  apply (proj1 (bad_choice_fails_the_call
                  (answering
                     (text "{'choices':[{'text':'a','index':0},{'text':'b','index':1.5}]}")
                     None) () _ _ "choices" _
                  (JObj [("text", JStr "b"); ("index", JNum "1.5")]) Hp
                  (list_elem_of_here _ _)
                  (ex_intro _ 4%nat (conj eq_refl eq_refl))
                  (list_elem_of_further _ _ _ (list_elem_of_here _ _))
                  (or_intror (ex_intro _ _ (ex_intro _ "index" (ex_intro _ (JNum "1.5")
                     (conj eq_refl
                        (conj (list_elem_of_further _ _ _ (list_elem_of_here _ _))
                              (or_intror (or_introl
                                 (conj (ex_intro _ 1%nat (conj eq_refl eq_refl))
                                       eq_refl)))))))))) None).
  reflexivity.
Defined.

End TransportProperties.


(** ** How a key of a body selects a field *)

Module KeyProperties.
Import Bytes UTF8 Strconv JSON Codec openai Props Shapes.

Lemma index_where_lookup (p : string -> bool) (names : list string) (i : nat) :
  index_where p names = Some i -> exists n, names !! i = Some n /\ p n = true.
Proof.
  revert i. induction names as [|n names IH]; intros i; simpl; [discriminate|].
  destruct (p n) eqn:Ep.
  - intros [= <-]. now exists n.
  - destruct (index_where p names) as [i'|]; [|discriminate].
    intros [= <-]. exact (IH i' eq_refl).
Qed.

Lemma index_where_None (p : string -> bool) (names : list string) (i : nat) (n : string) :
  index_where p names = None -> names !! i = Some n -> p n = false.
Proof.
  revert i. induction names as [|n' names IH]; intros i; simpl; [discriminate|].
  destruct (p n') eqn:Ep; [discriminate|].
  destruct (index_where p names) as [i'|]; [discriminate|]. intros _.
  destruct i as [|i]; simpl.
  - now intros [= <-].
  - now apply IH.
Qed.

(** Among names that stay distinct when case is folded, a key selects the
    name it equals up to case, and only that one. *)
Lemma fieldIndex_fold (names : list string) (k : string) (i : nat) :
  NoDup (fold_key <$> names) ->
  fieldIndex names k = Some i <-> (fold_key <$> names) !! i = Some (fold_key k).
Proof.
  intros Hnd. unfold fieldIndex. rewrite list_lookup_fmap. split.
  - destruct (index_where (String.eqb k) names) as [i0|] eqn:Ex.
    + intros [= <-]. apply index_where_lookup in Ex as (n & -> & Hn).
      apply String.eqb_eq in Hn. now subst.
    + intros Hf. apply index_where_lookup in Hf as (n & -> & Hn).
      apply String.eqb_eq in Hn. simpl. now rewrite Hn.
  - intros Hi. destruct (names !! i) as [n|] eqn:En; [|discriminate].
    injection Hi as Hi.
    assert (forall i' n', names !! i' = Some n' -> fold_key n' = fold_key k -> i' = i)
      as Huniq.
    { intros i' n' En' Hn'. apply (NoDup_lookup _ i' i (fold_key k) Hnd).
      - rewrite list_lookup_fmap, En'. simpl. now rewrite Hn'.
      - rewrite list_lookup_fmap, En. simpl. now rewrite Hi. }
    destruct (index_where (String.eqb k) names) as [i0|] eqn:Ex.
    + apply index_where_lookup in Ex as (n0 & En0 & Hn0).
      apply String.eqb_eq in Hn0. subst n0. f_equal. now apply (Huniq i0 k).
    + destruct (index_where (fun n0 => String.eqb (fold_key n0) (fold_key k)) names)
        as [i1|] eqn:Ef.
      * apply index_where_lookup in Ef as (n1 & En1 & Hn1).
        apply String.eqb_eq in Hn1. f_equal. now apply (Huniq i1 n1).
      * pose proof (index_where_None _ names i n Ef En) as Hn. simpl in Hn.
        apply String.eqb_neq in Hn. contradiction.
Qed.

(** A key of a body selects a field exactly when it is the name of the field
    up to the folding of case, for each of the four structs: the letters of
    the key may be in either case, and U+017F and U+212A stand for s and k. *)
Theorem keys_are_matched_up_to_case (k : string) (i : nat) :
  (fieldIndex CompletionRequest_keys k = Some i <->
   (fold_key <$> CompletionRequest_keys) !! i = Some (fold_key k)) /\
  (fieldIndex CompletionResponse_keys k = Some i <->
   (fold_key <$> CompletionResponse_keys) !! i = Some (fold_key k)) /\
  (fieldIndex CompletionChoice_keys k = Some i <->
   (fold_key <$> CompletionChoice_keys) !! i = Some (fold_key k)) /\
  (fieldIndex LogprobResult_keys k = Some i <->
   (fold_key <$> LogprobResult_keys) !! i = Some (fold_key k)).
Proof.
  split; [|split; [|split]];
    apply fieldIndex_fold; apply (bool_decide_unpack _); vm_compute; exact I.
Qed.

(** The key [Choices], and the key [choiceſ] with U+017F for its last
    letter, select the field of [choices]; the key [choice] selects none. *)
Lemma capital_and_long_s_witness :
  fieldIndex CompletionResponse_keys "Choices" = Some 4%nat /\
  fieldIndex CompletionResponse_keys ("choice" +:+ EncodeRune 383) = Some 4%nat /\
  fieldIndex CompletionResponse_keys "choice" = None.
Proof.
  split; [|split].
  - apply (proj1 (proj2 (keys_are_matched_up_to_case "Choices" 4))).
    vm_compute. reflexivity.
  - apply (proj1 (proj2 (keys_are_matched_up_to_case ("choice" +:+ EncodeRune 383) 4))).
    vm_compute. reflexivity.
  - destruct (fieldIndex CompletionResponse_keys "choice") as [i|] eqn:E; [|reflexivity].
    apply (proj1 (proj2 (keys_are_matched_up_to_case "choice" i))) in E.
    do 6 (destruct i as [|i]; [vm_compute in E; discriminate E|]).
    vm_compute in E. discriminate E.
Defined.

End KeyProperties.


(** ** The types of a response, encoded and decoded again *)

Module ResponseFacts.
Import Bytes UTF8 Strconv JSON Codec openai Props Shapes.
Import UTF8Facts StrconvFacts CodecFacts StructFacts.

Lemma roundtrips_uint64 (i : Z) : is_uint64 i -> roundtrips uint64_codec i.
Proof.
  intros Hi. exists (JNum (FormatInt i)). simpl.
  rewrite ParseUint_FormatInt by assumption. repeat split; discriminate.
Qed.

Lemma kept_ptr {A : Type} (c : codec A) (p : option A) :
  (forall v, p = Some v -> roundtrips c v) -> kept (ptr_codec c) p p.
Proof.
  destruct p as [v|]; intros Hp.
  - apply roundtrips_kept, roundtrips_ptr. now apply Hp.
  - now exists JNull.
Qed.

Lemma kept_elems {A : Type} (c : codec A) (l : list A) :
  Forall (fun v => kept c v v) l ->
  exists js, collect (map (encode c) l) = Ok js /\ length js = length l /\
             decode_elems c js [] = (l, None).
Proof.
  induction 1 as [|v l (j & He & Hd) _ (js & Hc & Hlen & Hds)].
  - now exists [].
  - exists (j :: js). simpl. rewrite He, Hc. simpl. rewrite Hd, Hds, Hlen. now repeat split.
Qed.

(** A slice with no room to spare comes back as it is, nil as nil and empty
    as empty. *)
Lemma kept_slice {A : Type} (c : codec A) (s : slice A) :
  tight s -> Forall (fun v => kept c v v) (elems s) -> kept (slice_codec c) s s.
Proof.
  destruct s as [[l beyond]|]; [|intros _ _; now exists JNull].
  unfold tight. simpl. intros Ht Hl.
  assert (beyond = []) as -> by (apply (app_inv_head l); now rewrite app_nil_r).
  destruct (kept_elems c l Hl) as (js & Hc & Hlen & Hd).
  exists (JArr js). simpl. rewrite Hc. simpl. split; [reflexivity|].
  destruct js as [|j js].
  - destruct l; [reflexivity|discriminate].
  - rewrite Hd. now rewrite drop_nil.
Qed.

Lemma kept_map {A : Type} (c : codec A) (m : option (gmap string A)) :
  (forall k v, default ∅ m !! k = Some v -> ValidString k = true /\ roundtrips c v) ->
  kept (map_codec c) m m.
Proof.
  destruct m as [m|]; intros Hm.
  - now apply roundtrips_kept, roundtrips_map.
  - now exists JNull.
Qed.

Lemma kept_roundtrips {A : Type} (c : codec A) (v : A) :
  Forall (fun v => roundtrips c v) [v] -> kept c v v.
Proof. intros Hv. apply roundtrips_kept. now inversion Hv. Qed.

Lemma Forall_kept {A : Type} (P : A -> Prop) (c : codec A) (l : list A) :
  (forall v, P v -> kept c v v) -> Forall P l -> Forall (fun v => kept c v v) l.
Proof. intros HP Hl. eapply Forall_impl; [exact Hl|exact HP]. Qed.

(** Reads the fields of a struct that the decoder has stored into so far. *)
Ltac fields :=
  cbn [zero slice_codec ptr_codec string_codec int_codec uint64_codec
       LogprobResult_zero LogprobResult.Tokens LogprobResult.TokenLogprobs
       LogprobResult.TopLogprobs LogprobResult.TextOffset LogprobResult.set_Tokens
       LogprobResult.set_TokenLogprobs LogprobResult.set_TopLogprobs
       LogprobResult.set_TextOffset
       CompletionChoice_zero CompletionChoice.Text CompletionChoice.Index
       CompletionChoice.FinishReason CompletionChoice.LogProbs CompletionChoice.set_Text
       CompletionChoice.set_Index CompletionChoice.set_FinishReason
       CompletionChoice.set_LogProbs
       CompletionResponse_zero CompletionResponse.ID CompletionResponse.Object
       CompletionResponse.Created CompletionResponse.Model CompletionResponse.Choices
       CompletionResponse.Usage CompletionResponse.set_ID CompletionResponse.set_Object
       CompletionResponse.set_Created CompletionResponse.set_Model
       CompletionResponse.set_Choices CompletionResponse.set_Usage] in *.

Section Values.
Context `{FloatText}.

(** Log probabilities come back from their encoding as they are. *)
Lemma roundtrips_LogprobResult (l : LogprobResult) :
  LogprobResult_ok l -> roundtrips LogprobResult_codec l.
Proof.
  intros [[tT fT] [tL fL] [tP fP] [tO fO]].
  destruct (kept_slice string_codec (LogprobResult.Tokens l) tT) as (j1 & E1 & D1).
  { eapply Forall_kept; [|exact fT]. intros s Hs. now apply roundtrips_kept, roundtrips_string. }
  destruct (kept_slice (float_codec 32) (LogprobResult.TokenLogprobs l) tL) as (j2 & E2 & D2).
  { eapply Forall_kept; [|exact fL]. intros f Hf. now apply roundtrips_kept, roundtrips_float. }
  destruct (kept_slice (map_codec (float_codec 32)) (LogprobResult.TopLogprobs l) tP)
    as (j3 & E3 & D3).
  { eapply Forall_kept; [|exact fP]. intros m Hm. apply kept_map. intros k v Hk.
    destruct (Hm k v Hk) as [Hv Hf]. split; [exact Hv|now apply roundtrips_float]. }
  destruct (kept_slice int_codec (LogprobResult.TextOffset l) tO) as (j4 & E4 & D4).
  { eapply Forall_kept; [|exact fO]. intros i Hi. now apply roundtrips_kept, roundtrips_int. }
  exists (JObj [("tokens", j1); ("token_logprobs", j2); ("top_logprobs", j3);
                ("text_offset", j4)]).
  split; [|split; [discriminate|]].
  - cbn [encode LogprobResult_codec]. unfold LogprobResult_encode, encode_struct, member.
    cbn [andb]. rewrite E1, E2, E3, E4. reflexivity.
  - cbn [decode LogprobResult_codec decode_struct zero decode_members].
    change (fieldIndex LogprobResult_keys "tokens") with (Some 0%nat).
    change (fieldIndex LogprobResult_keys "token_logprobs") with (Some 1%nat).
    change (fieldIndex LogprobResult_keys "top_logprobs") with (Some 2%nat).
    change (fieldIndex LogprobResult_keys "text_offset") with (Some 3%nat).
    cbn [LogprobResult_store].
    fields. rewrite D1. fields. rewrite D2. fields. rewrite D3. fields. rewrite D4.
    fields. cbn [saveError].
    now destruct l.
Qed.

(** A choice comes back from its encoding as it is. *)
Lemma roundtrips_CompletionChoice (c : CompletionChoice) :
  CompletionChoice_ok c -> roundtrips CompletionChoice_codec c.
Proof.
  intros [vT vI vF vL].
  destruct (roundtrips_string _ vT) as (j1 & E1 & _ & D1).
  destruct (roundtrips_int _ vI) as (j2 & E2 & _ & D2).
  destruct (roundtrips_string _ vF) as (j3 & E3 & _ & D3).
  destruct (kept_ptr LogprobResult_codec (CompletionChoice.LogProbs c)) as (j4 & E4 & D4).
  { intros l Hl. now apply roundtrips_LogprobResult, vL. }
  exists (JObj [("text", j1); ("index", j2); ("finish_reason", j3); ("logprobs", j4)]).
  split; [|split; [discriminate|]].
  - cbn [encode CompletionChoice_codec]. unfold CompletionChoice_encode, encode_struct, member.
    cbn [andb]. rewrite E1, E2, E3, E4. reflexivity.
  - cbn [decode CompletionChoice_codec decode_struct zero decode_members].
    change (fieldIndex CompletionChoice_keys "text") with (Some 0%nat).
    change (fieldIndex CompletionChoice_keys "index") with (Some 1%nat).
    change (fieldIndex CompletionChoice_keys "finish_reason") with (Some 2%nat).
    change (fieldIndex CompletionChoice_keys "logprobs") with (Some 3%nat).
    cbn [CompletionChoice_store].
    fields. rewrite D1. fields. rewrite D2. fields. rewrite D3. fields. rewrite D4.
    fields. cbn [saveError].
    now destruct c.
Qed.

End Values.

Section Response.
Context `{FloatText} `{Repo} {T : Type} `{ModelID T}.

(** A response comes back from its encoding as it is. *)
Lemma roundtrips_CompletionResponse (r : CompletionResponse T) :
  CompletionResponse_ok r -> roundtrips CompletionResponse_codec r.
Proof.
  intros [vID (j2 & E2 & _ & D2) vC (j4 & E4 & _ & D4) [tC fC] vU].
  destruct (roundtrips_string _ vID) as (j1 & E1 & _ & D1).
  destruct (roundtrips_uint64 _ vC) as (j3 & E3 & _ & D3).
  destruct (kept_slice (ptr_codec CompletionChoice_codec) (CompletionResponse.Choices r) tC)
    as (j5 & E5 & D5).
  { eapply Forall_kept; [|exact fC]. intros p Hp. apply kept_ptr.
    intros c Hc. now apply roundtrips_CompletionChoice, Hp. }
  destruct (kept_ptr usage_codec (CompletionResponse.Usage r) vU) as (j6 & E6 & D6).
  exists (JObj [("id", j1); ("object", j2); ("created", j3); ("model", j4);
                ("choices", j5); ("usage", j6)]).
  split; [|split; [discriminate|]].
  - cbn [encode CompletionResponse_codec].
    unfold CompletionResponse_encode, encode_struct, member.
    cbn [andb]. rewrite E1, E2, E3, E4, E5, E6. reflexivity.
  - cbn [decode CompletionResponse_codec decode_struct zero decode_members].
    change (fieldIndex CompletionResponse_keys "id") with (Some 0%nat).
    change (fieldIndex CompletionResponse_keys "object") with (Some 1%nat).
    change (fieldIndex CompletionResponse_keys "created") with (Some 2%nat).
    change (fieldIndex CompletionResponse_keys "model") with (Some 3%nat).
    change (fieldIndex CompletionResponse_keys "choices") with (Some 4%nat).
    change (fieldIndex CompletionResponse_keys "usage") with (Some 5%nat).
    cbn [CompletionResponse_store].
    fields. rewrite D1. fields. rewrite D2. fields. rewrite D3. fields. rewrite D4.
    fields. rewrite D5. fields. rewrite D6. fields. cbn [saveError].
    now destruct r.
Qed.

End Response.

End ResponseFacts.

Module ResponseProperties.
Import Bytes UTF8 Strconv JSON Codec openai Props Shapes.
Import UTF8Facts StrconvFacts CodecFacts StructFacts KeyFacts ResponseFacts.

Section Values.
Context `{FloatText}.

(** A choice, with its log probabilities, is encoded without error and the
    encoding decodes to that very choice: when its strings and the keys of
    its maps are valid UTF-8, its floats are finite and come back from their
    text, and its slices have no room to spare.  Nothing is lost, a nil slice
    or pointer comes back nil and an empty slice comes back empty, since no
    field of these types is tagged [omitempty]. *)
Theorem choice_round_trip (c : CompletionChoice) :
  CompletionChoice_ok c ->
  exists j,
    Marshal CompletionChoice_codec c = Ok j /\
    decode CompletionChoice_codec j CompletionChoice_zero = (c, None).
Proof.
  intros Hc. destruct (roundtrips_CompletionChoice c Hc) as (j & He & _ & Hd).
  now exists j.
Qed.

End Values.

Section Response.
Context `{FloatText} `{Repo} {T : Type} `{ModelID T}.

(** A response is encoded without error and the encoding decodes to that
    very response, for either variant of the model identifier: when its
    identifier is valid UTF-8, its creation time a [uint64], its choices as
    above in a slice with no room to spare, and its model identifier, object
    tag and usage come back from their own encodings. *)
Theorem response_round_trip (r : CompletionResponse T) :
  CompletionResponse_ok r ->
  exists j,
    Marshal CompletionResponse_codec r = Ok j /\
    decode CompletionResponse_codec j CompletionResponse_zero = (r, None).
Proof.
  intros Hr. destruct (roundtrips_CompletionResponse r Hr) as (j & He & _ & Hd).
  now exists j.
Qed.

(** The types of a response are written with all their keys, in the order of
    the fields, whatever the values are: whenever a response, a choice or log
    probabilities are encoded, the object has exactly the keys of the struct
    tags, and a choice with nil log probabilities has [null] under
    [logprobs]. *)
Theorem response_keys_are_always_written :
  (forall (r : CompletionResponse T) j,
     Marshal CompletionResponse_codec r = Ok j -> keys_of j = CompletionResponse_keys) /\
  (forall (c : CompletionChoice) j,
     Marshal CompletionChoice_codec c = Ok j ->
     keys_of j = CompletionChoice_keys /\
     (CompletionChoice.LogProbs c = None ->
      exists ms, j = JObj ms /\ ("logprobs", JNull) ∈ ms)) /\
  (forall (l : LogprobResult) j,
     Marshal LogprobResult_codec l = Ok j -> keys_of j = LogprobResult_keys).
Proof.
  split; [|split].
  - intros r j. unfold Marshal. cbn [encode CompletionResponse_codec].
    unfold CompletionResponse_encode, encode_struct. cbn [collect].
    repeat match goal with
    | |- context [bind (member ?c ?k ?om ?v) _] =>
      let E := fresh "E" in
      destruct (member c k om v) eqn:E; cbn [bind]; [apply member_keys in E|discriminate]
    end.
    intros [= <-]. cbn [keys_of concat]. rewrite !map_app.
    repeat match goal with
    | E : map fst _ = _ |- _ => rewrite E; clear E
    end.
    reflexivity.
  - intros c j. unfold Marshal. cbn [encode CompletionChoice_codec].
    unfold CompletionChoice_encode, encode_struct. cbn [collect].
    repeat match goal with
    | |- context [bind (member ?c ?k ?om ?v) _] =>
      let E := fresh "E" in
      destruct (member c k om v) eqn:E; cbn [bind]; [|discriminate]
    end.
    intros [= <-]. split.
    + cbn [keys_of concat]. rewrite !map_app.
      repeat match goal with
      | E : member _ _ _ _ = Ok _ |- _ => apply member_keys in E; rewrite E; clear E
      end.
      reflexivity.
    + intros Hn. eexists. split; [reflexivity|]. rewrite Hn in *.
      unfold member in E2. cbn in E2. injection E2 as <-.
      cbn [concat]. rewrite !elem_of_app. do 3 right. left. apply list_elem_of_here.
  - intros l j. unfold Marshal. cbn [encode LogprobResult_codec].
    unfold LogprobResult_encode, encode_struct. cbn [collect].
    repeat match goal with
    | |- context [bind (member ?c ?k ?om ?v) _] =>
      let E := fresh "E" in
      destruct (member c k om v) eqn:E; cbn [bind]; [apply member_keys in E|discriminate]
    end.
    intros [= <-]. cbn [keys_of concat]. rewrite !map_app.
    repeat match goal with
    | E : map fst _ = _ |- _ => rewrite E; clear E
    end.
    reflexivity.
Qed.

End Response.

Import DecimalFloat Spec Samples.

Lemma hi_choice_ok : CompletionChoice_ok hi_choice.
Proof.
  constructor; simpl.
  - reflexivity.
  - unfold is_int. lia.
  - reflexivity.
  - intros l [= <-]. constructor; simpl; (split; [reflexivity|]).
    + repeat constructor.
    + repeat (apply List.Forall_cons; [split; vm_compute; reflexivity|]).
      apply List.Forall_nil.
    + apply List.Forall_cons; [|apply List.Forall_cons; [|apply List.Forall_nil]].
      * simpl. intros k v Hk. apply lookup_singleton_Some in Hk as [<- <-].
        split; [reflexivity|split; vm_compute; reflexivity].
      * simpl. intros k v Hk. now rewrite lookup_empty in Hk.
    + repeat (apply List.Forall_cons; [unfold is_int; lia|]). apply List.Forall_nil.
Qed.

(** A choice with log probabilities comes back whole. *)
Lemma hi_choice_witness :
  exists j,
    Marshal CompletionChoice_codec hi_choice = Ok j /\
    decode CompletionChoice_codec j CompletionChoice_zero = (hi_choice, None).
Proof. exact (choice_round_trip hi_choice hi_choice_ok). Defined.

Lemma hi_response_ok : CompletionResponse_ok hi_response.
Proof.
  constructor; simpl.
  - reflexivity.
  - exists (JStr "text_completion"). repeat split; discriminate.
  - unfold is_uint64. lia.
  - exists (JStr "text-davinci-003"). repeat split; discriminate.
  - split; [reflexivity|].
    apply List.Forall_cons; [|apply List.Forall_nil]. intros c [= <-].
    constructor; simpl; [reflexivity|unfold is_int; lia|reflexivity|discriminate].
  - intros u [= <-]. exists (JObj []). repeat split; discriminate.
Qed.

(** The response of the scenario comes back whole. *)
Lemma hi_response_witness :
  exists j,
    Marshal CompletionResponse_codec hi_response = Ok j /\
    decode CompletionResponse_codec j CompletionResponse_zero = (hi_response, None).
Proof. exact (response_round_trip hi_response hi_response_ok). Defined.

(** The zero choice is written with its four keys, [null] under the last. *)
Lemma zero_choice_witness :
  keys_of (JObj [("text", JStr ""); ("index", JNum "0"); ("finish_reason", JStr "");
                 ("logprobs", JNull)])
  = CompletionChoice_keys.
Proof.
  exact (proj1 (proj1 (proj2 (response_keys_are_always_written (T := Completion)))
                  CompletionChoice_zero _ eq_refl)).
Defined.

End ResponseProperties.


(** ** More about the encoding of a request *)

Module EncodeProperties.
Import Bytes UTF8 Strconv JSON Codec openai Props Shapes.
Import UTF8Facts StrconvFacts CodecFacts StructFacts KeyFacts EncodeFacts.

(** *** What the encoder writes is valid UTF-8 *)

Lemma valid_replacement (s : string) :
  valid_from 0 (replacement +:+ s) = valid_from 0 s.
Proof. reflexivity. Qed.

(** The width of a rune depends on its own bytes only. *)
Lemma runeLen_coerce (c : ascii) (r : string) (n : nat) :
  runeLen (String c r) = S n -> runeLen (String c (coerce n r)) = S n.
Proof.
  unfold runeLen.
  destruct (byte_val c <? 128); [now intros [= <-]|].
  destruct (between 194 223 c).
  { destruct r as [|c1 r1]; [discriminate|].
    destruct (cont c1) eqn:E1; [|discriminate]. intros [= <-].
    cbn [coerce]. now rewrite E1. }
  destruct (between 224 239 c).
  { destruct r as [|c1 [|c2 r2]]; try discriminate.
    destruct (between _ _ c1 && cont c2) eqn:E1; [|discriminate]. intros [= <-].
    cbn [coerce]. destruct r2; cbn [coerce]; now rewrite E1. }
  destruct (between 240 244 c); [|discriminate].
  destruct r as [|c1 [|c2 [|c3 r3]]]; try discriminate.
  destruct (between _ _ c1 && cont c2 && cont c3) eqn:E1; [|discriminate]. intros [= <-].
  cbn [coerce]. destruct r3; cbn [coerce]; now rewrite E1.
Qed.

Lemma coerce_is_valid (s : string) : forall k, valid_from k (coerce k s) = true.
Proof.
  induction s as [|c r IH]; intros k; [reflexivity|].
  destruct k as [|k]; cbn [coerce].
  - destruct (runeLen (String c r)) as [|n] eqn:E.
    + rewrite valid_replacement. apply IH.
    + cbn [valid_from]. rewrite (runeLen_coerce c r n E). apply IH.
  - cbn [valid_from]. apply IH.
Qed.

(** Whatever the bytes of a Go string are, what is written for it is valid
    UTF-8. *)
Lemma toValidUTF8_is_valid (s : string) : ValidString (toValidUTF8 s) = true.
Proof. apply coerce_is_valid. Qed.

(** What holds of every result collected holds of the list. *)
Lemma collect_all {A : Type} (P : A -> Prop) (rs : list (result A)) (xs : list A) :
  collect rs = Ok xs -> (forall r x, r ∈ rs -> r = Ok x -> P x) -> Forall P xs.
Proof.
  revert xs. induction rs as [|r rs IH]; intros xs; simpl.
  - intros [= <-] _. constructor.
  - destruct r as [x|e]; simpl; [|discriminate].
    destruct (collect rs) as [xs'|e]; simpl; [|discriminate].
    intros [= <-] HP. constructor.
    + apply (HP (Ok x)); [apply list_elem_of_here|reflexivity].
    + apply IH; [reflexivity|]. intros r x' Hr. apply HP. now apply list_elem_of_further.
Qed.

Lemma forallb_Forall {A : Type} (f : A -> bool) (l : list A) :
  Forall (fun x => f x = true) l -> forallb f l = true.
Proof. induction 1 as [|x l Hx _ IH]; simpl; [reflexivity|]. now rewrite Hx, IH. Qed.

Lemma valid_string_document (s : string) j :
  encode string_codec s = Ok j -> valid_strings j = true.
Proof. intros [= <-]. apply toValidUTF8_is_valid. Qed.

Lemma valid_int_document (i : Z) j : encode int_codec i = Ok j -> valid_strings j = true.
Proof. now intros [= <-]. Qed.

Lemma valid_bool_document (b : bool) j : encode bool_codec b = Ok j -> valid_strings j = true.
Proof. now intros [= <-]. Qed.

Lemma valid_float_document `{FloatText} (bitSize : Z) (f : spec_float) j :
  encode (float_codec bitSize) f = Ok j -> valid_strings j = true.
Proof. destruct f; simpl; try discriminate; now intros [= <-]. Qed.

Lemma valid_ptr_document {A : Type} (c : codec A) (p : option A) j :
  (forall v j', encode c v = Ok j' -> valid_strings j' = true) ->
  encode (ptr_codec c) p = Ok j -> valid_strings j = true.
Proof. intros Hc. destruct p as [v|]; simpl; [apply Hc|now intros [= <-]]. Qed.

Lemma valid_slice_document {A : Type} (c : codec A) (s : slice A) j :
  (forall v j', encode c v = Ok j' -> valid_strings j' = true) ->
  encode (slice_codec c) s = Ok j -> valid_strings j = true.
Proof.
  intros Hc. destruct s as [[l beyond]|]; simpl; [|now intros [= <-]].
  destruct (collect (map (encode c) l)) as [js|e] eqn:E; simpl; [|discriminate].
  intros [= <-]. simpl. apply forallb_Forall.
  apply (collect_all _ _ _ E). intros r x Hr Hx.
  apply list_elem_of_In, in_map_iff in Hr as (v & <- & _). now apply (Hc v).
Qed.

Lemma valid_map_document {A : Type} (c : codec A) (m : option (gmap string A)) j :
  (forall v j', encode c v = Ok j' -> valid_strings j' = true) ->
  encode (map_codec c) m = Ok j -> valid_strings j = true.
Proof.
  intros Hc. destruct m as [m|]; simpl; [|now intros [= <-]].
  destruct (collect _) as [ms|e] eqn:E; simpl; [|discriminate].
  intros [= <-]. simpl. apply forallb_Forall.
  apply (collect_all _ _ _ E). intros r [k x] Hr Hx.
  apply list_elem_of_In, in_map_iff in Hr as ([k0 v] & <- & _). simpl in Hx.
  destruct (encode c v) as [j'|e] eqn:Ev; simpl in Hx; [|discriminate].
  injection Hx as <- <-. rewrite toValidUTF8_is_valid. now apply (Hc v).
Qed.

(** The members that a field contributes hold valid UTF-8 when the key and
    the document of the value do. *)
Lemma valid_member {A : Type} (c : codec A) (k : string) (om : bool) (v : A) ms :
  ValidString k = true ->
  (forall j, encode c v = Ok j -> valid_strings j = true) ->
  member c k om v = Ok ms -> valid_strings (JObj ms) = true.
Proof.
  intros Hk Hv. unfold member. destruct (om && isEmptyValue c v); [now intros [= <-]|].
  destruct (encode c v) as [j|e]; simpl; [|discriminate].
  intros [= <-]. simpl. now rewrite Hk, (Hv j eq_refl).
Qed.

Lemma valid_members (ms1 ms2 : list (string * json)) :
  valid_strings (JObj ms1) = true -> valid_strings (JObj ms2) = true ->
  valid_strings (JObj (ms1 ++ ms2)) = true.
Proof. simpl. rewrite forallb_app. now intros -> ->. Qed.

Section Request.
Context `{FloatText} {T : Type} `{ModelID T}.

(** Whatever bytes the strings of a request hold, every string and every key
    of its encoding is valid UTF-8, as far as the encoding of the model
    identifier is. *)
Theorem request_is_written_in_valid_utf8 (r : CompletionRequest T) (j : json) :
  (forall jm, encode model_codec (CompletionRequest.Model r) = Ok jm ->
              valid_strings jm = true) ->
  Marshal CompletionRequest_codec r = Ok j -> valid_strings j = true.
Proof.
  intros Hm. unfold Marshal. cbn [encode CompletionRequest_codec].
  unfold CompletionRequest_encode, encode_struct. cbn [collect].
  repeat match goal with
  | |- context [bind (member ?c ?k ?om ?v) _] =>
    let E := fresh "E" in
    destruct (member c k om v) eqn:E; cbn [bind]; [apply valid_member in E|discriminate]
  end.
  all: try reflexivity.
  all: try (intros j'; first [ apply valid_string_document | apply valid_int_document
                             | apply valid_bool_document | apply valid_float_document ]).
  all: try assumption.
  all: try (intros j' Hj; apply (valid_ptr_document _ _ _ (valid_float_document 64) Hj)).
  all: try (intros j' Hj; apply (valid_ptr_document _ _ _ valid_int_document Hj)).
  all: try (intros j' Hj; apply (valid_slice_document _ _ _ valid_string_document Hj)).
  all: try (intros j' Hj; apply (valid_map_document _ _ _ valid_int_document Hj)).
  intros [= <-]. cbn [concat]. rewrite app_nil_r.
  repeat (apply valid_members; [assumption|]). assumption.
Qed.

Lemma finite_member `{FloatText} (bitSize : Z) (k : string) (f : spec_float) ms :
  member (float_codec bitSize) k true f = Ok ms -> is_finite f = true.
Proof. unfold member. destruct f; simpl; try discriminate; reflexivity. Qed.

Lemma finite_ptr_member `{FloatText} (bitSize : Z) (k : string) (p : option spec_float) ms :
  member (ptr_codec (float_codec bitSize)) k true p = Ok ms ->
  forall f, p = Some f -> is_finite f = true.
Proof.
  intros Hm f ->. unfold member in Hm.
  destruct f; simpl in Hm; try discriminate; reflexivity.
Qed.

(** A request whose model identifier is encoded is encoded exactly when its
    floats are finite: a NaN or an infinity in the temperature, in top-p or
    in a penalty makes the encoder fail, and nothing else in the other
    fields does. *)
Theorem encoded_exactly_when_floats_are_finite (r : CompletionRequest T) :
  ok (encode model_codec (CompletionRequest.Model r)) ->
  ok (Marshal CompletionRequest_codec r) <-> finite_floats r.
Proof.
  intros Hm. split; [|now apply request_encode_ok].
  intros [j Hj]. revert Hj. unfold Marshal. cbn [encode CompletionRequest_codec].
  unfold CompletionRequest_encode, encode_struct. cbn [collect].
  repeat match goal with
  | |- context [bind (member ?c ?k ?om ?v) _] =>
    let E := fresh "E" in
    destruct (member c k om v) eqn:E; cbn [bind]; [|discriminate]
  end.
  intros _. unfold finite_floats.
  repeat match goal with
  | E : member (float_codec _) _ _ _ = Ok _ |- _ => apply finite_member in E
  | E : member (ptr_codec (float_codec _)) _ _ _ = Ok _ |- _ =>
    pose proof (finite_ptr_member _ _ _ _ E); clear E
  end.
  repeat split; assumption.
Qed.

Lemma sublist_optional (b : bool) (k : string) (l l' : list string) :
  l `sublist_of` l' -> ((if b then [] else [k]) ++ l)%list `sublist_of` (k :: l').
Proof. intros Hl. destruct b; simpl; now constructor. Qed.

(** The keys of an encoded request follow the fields of the struct: [model]
    comes first, every key is one of the struct tags, no key is written
    twice, and the keys stand in the order of the fields. *)
Theorem request_keys_follow_the_fields (r : CompletionRequest T) (j : json) :
  Marshal CompletionRequest_codec r = Ok j ->
  head (keys_of j) = Some "model" /\
  keys_of j `sublist_of` CompletionRequest_keys /\
  NoDup (keys_of j).
Proof.
  intros Hj. rewrite (request_encode_keys r j Hj).
  assert (request_keys r `sublist_of` CompletionRequest_keys) as Hsub.
  { unfold request_keys, CompletionRequest_keys. cbn [optional_fields flat_map fst snd].
    apply sublist_skip. repeat apply sublist_optional. apply sublist_nil_l. }
  split; [reflexivity|]. split; [exact Hsub|].
  apply (sublist_NoDup (request_keys r) CompletionRequest_keys); [|exact Hsub].
  apply (bool_decide_unpack _). vm_compute. exact I.
Qed.

(** *** The order of the keys of a map *)

Lemma string_leb_trans (s1 : string) :
  forall s2 s3, String.leb s1 s2 = true -> String.leb s2 s3 = true ->
                String.leb s1 s3 = true.
Proof.
  unfold String.leb.
  induction s1 as [|c1 r1 IH]; intros [|c2 r2] [|c3 r3]; simpl; try discriminate;
    try reflexivity.
  unfold Ascii.compare.
  destruct (N.compare_spec (N_of_ascii c1) (N_of_ascii c2)) as [E12|L12|G12];
    destruct (N.compare_spec (N_of_ascii c2) (N_of_ascii c3)) as [E23|L23|G23];
    destruct (N.compare_spec (N_of_ascii c1) (N_of_ascii c3)) as [E13|L13|G13];
    try discriminate; try reflexivity; try lia.
  apply IH.
Qed.

#[local] Instance key_le_total {A : Type} : Total (@key_le A).
Proof. intros x y. apply String.leb_total. Qed.

#[local] Instance key_le_trans {A : Type} : Transitive (@key_le A).
Proof. intros x y z. apply string_leb_trans. Qed.

Lemma string_ltb_leb (a b : string) : String.leb a b = true -> a <> b -> String.ltb a b = true.
Proof.
  unfold String.leb, String.ltb. destruct (String.compare a b) eqn:E; try discriminate.
  - apply String.compare_eq_iff in E. contradiction.
  - reflexivity.
Qed.

Lemma StronglySorted_strict (l : list string) :
  StronglySorted (fun a b => String.leb a b = true) l -> NoDup l ->
  StronglySorted (fun a b => String.ltb a b = true) l.
Proof.
  induction 1 as [|a l Hs IH Ha]; intros Hnd; constructor;
    apply NoDup_cons in Hnd as [Hin Hnd].
  - now apply IH.
  - apply Forall_forall. intros b Hb. apply string_ltb_leb.
    + rewrite Forall_forall in Ha. now apply Ha.
    + intros ->. contradiction.
Qed.

(** The entries of a map in the order the encoder writes them: each entry
    once, in strictly ascending order of the bytes of the keys. *)
Lemma sorted_entries_ascending {A : Type} (m : gmap string A) :
  sorted_entries m ≡ₚ map_to_list m /\
  StronglySorted (fun a b => String.ltb a b = true) (sorted_entries m).*1.
Proof.
  unfold sorted_entries. split; [apply merge_sort_Permutation|].
  apply StronglySorted_strict.
  - apply (StronglySorted_fmap fst key_le); [now intros x y|].
    apply StronglySorted_merge_sort; apply _.
  - rewrite merge_sort_Permutation. apply NoDup_fst_map_to_list.
Qed.

Lemma collect_bias_entries (l : list (string * Z)) :
  collect (map (fun kv : string * Z => j <-! encode int_codec kv.2; Ok (toValidUTF8 kv.1, j)) l)
  = Ok (map (fun kv : string * Z => (toValidUTF8 kv.1, JNum (FormatInt kv.2))) l).
Proof. induction l as [|kv l IH]; [reflexivity|]. cbn [map collect]. now rewrite IH. Qed.

(** The biases of a request are written in the order of their keys, not in
    an order of the map: whenever a request with a map of biases that is not
    empty is encoded, the member [logit_bias] is an object with one member
    for each entry of the map, the key made valid UTF-8 and the value in
    decimal, in strictly ascending order of the bytes of the keys. *)
Theorem logit_bias_is_written_in_key_order (r : CompletionRequest T)
  (m : gmap string Z) (ms : list (string * json)) :
  Marshal CompletionRequest_codec r = Ok (JObj ms) ->
  CompletionRequest.LogitBias r = Some m -> m <> ∅ ->
  exists l,
    l ≡ₚ map_to_list m /\
    StronglySorted (fun a b => String.ltb a b = true) l.*1 /\
    ("logit_bias",
     JObj (map (fun kv : string * Z => (toValidUTF8 kv.1, JNum (FormatInt kv.2))) l)) ∈ ms.
Proof.
  intros Hj Hm Hne. destruct (sorted_entries_ascending m) as [Hp Hs].
  exists (sorted_entries m). split; [exact Hp|]. split; [exact Hs|].
  revert Hj. unfold Marshal. cbn [encode CompletionRequest_codec].
  unfold CompletionRequest_encode, encode_struct. cbn [collect].
  repeat match goal with
  | |- context [bind (member ?c ?k ?om ?v) _] =>
    let E := fresh "E" in
    destruct (member c k om v) eqn:E; cbn [bind]; [|discriminate]
  end.
  intros [= <-].
  match goal with
  | E : member (map_codec int_codec) _ _ _ = Ok _ |- _ =>
    rewrite Hm in E; unfold member in E; cbn [isEmptyValue map_codec andb encode] in E;
    rewrite bool_decide_eq_false_2 in E by assumption;
    rewrite collect_bias_entries in E; cbn [bind] in E; injection E as <-
  end.
  cbn [concat]. rewrite !elem_of_app. do 14 right. left. apply list_elem_of_here.
Qed.

End Request.

Import DecimalFloat Spec Samples.

(** The prompt is the byte 0xFF; what is written is U+FFFD. *)
Lemma latin1_is_written_valid_witness :
  ValidString (CompletionRequest.Prompt latin1_prompt) = false /\
  valid_strings
    (JObj [("model", JStr "text-davinci-003"); ("prompt", JStr UTF8.replacement);
           ("max_tokens", JNum "5")]) = true.
Proof.
  split; [reflexivity|].
  apply (request_is_written_in_valid_utf8 latin1_prompt).
  - intros jm [= <-]. reflexivity.
  - vm_compute. reflexivity.
Defined.

(** The keys of the request of the scenario. *)
Lemma say_hi_keys_witness :
  head (keys_of say_hi_json) = Some "model" /\
  keys_of say_hi_json `sublist_of` CompletionRequest_keys /\
  NoDup (keys_of say_hi_json).
Proof.
  apply (request_keys_follow_the_fields (say_hi davinci)). vm_compute. reflexivity.
Defined.

(** The request with every field set has finite floats, and is encoded. *)
Lemma everything_is_encoded_witness :
  ok (Marshal CompletionRequest_codec everything) <-> finite_floats everything.
Proof.
  apply (encoded_exactly_when_floats_are_finite everything).
  exists (JStr "text-davinci-003"). reflexivity.
Defined.

(** The two biases of the request with every field set: the key 11 before
    the key 50256. *)
Lemma two_biases_witness :
  exists l,
    l ≡ₚ map_to_list (<["50256" := -1000]> (<["11" := 7]> (∅ : gmap string Z))) /\
    StronglySorted (fun a b => String.ltb a b = true) l.*1 /\
    ("logit_bias",
     JObj (map (fun kv : string * Z => (toValidUTF8 kv.1, JNum (FormatInt kv.2))) l))
      ∈ match everything_json with JObj ms => ms | _ => [] end.
Proof.
  apply (logit_bias_is_written_in_key_order everything).
  - vm_compute. reflexivity.
  - reflexivity.
  - apply insert_non_empty.
Defined.

End EncodeProperties.
